(** * mcp-obsidian: the path validator, the note operations and the search

    A shallow embedding of [src/index.ts].  JavaScript strings are modelled
    as [string], Node's POSIX [path] module is modelled on the
    separator-delimited segments of a path, and the file system the server
    talks to through [fs/promises] is a finite map from canonical paths to
    nodes (regular files, directories, symbolic links). *)

From Stdlib Require Import Ascii String DecimalString.
From stdpp Require Import gmap strings list.

(** ** JavaScript string primitives

    A JavaScript string is held as a string of bytes: an ASCII code unit
    as one byte, any other code point as its UTF-8 bytes.  A lone
    surrogate, which a JavaScript string can hold and UTF-8 cannot, is held
    in the same three-byte form, [ED A0..BF 80..BF]; no code point of a
    well-formed string begins with these bytes.  The length of the held
    string is the number of bytes of its UTF-8 form, and the number of code
    units where the text is ASCII. *)

Module Js.

(** [s.startsWith(p)] *)
Definition startsWith (s p : string) : bool := String.prefix p s.

(** [s.includes(sub)] *)
Fixpoint includes (s sub : string) : bool :=
  String.prefix sub s ||
  match s with
  | EmptyString => false
  | String _ s' => includes s' sub
  end.

(** [s.endsWith(suf)] *)
Fixpoint endsWith (s suf : string) : bool :=
  String.eqb s suf ||
  match s with
  | EmptyString => false
  | String _ s' => endsWith s' suf
  end.

(** [s.slice(1)] and [s.substring(1)]: the string without its first
    code unit. *)
Definition slice1 (s : string) : string :=
  match s with
  | EmptyString => EmptyString
  | String _ s' => s'
  end.

Definition lower_ascii (c : ascii) : ascii :=
  let n := nat_of_ascii c in
  if (65 <=? n) && (n <=? 90) then ascii_of_nat (n + 32) else c.

(** [s.toLowerCase()], on ASCII code units. *)
Fixpoint toLowerCase (s : string) : string :=
  match s with
  | EmptyString => EmptyString
  | String c s' => String (lower_ascii c) (toLowerCase s')
  end.

(** [s.split(sep)] for a one-character separator: never the empty list,
    [""] splits into [[""]]. *)
Fixpoint split (sep : ascii) (s : string) : list string :=
  match s with
  | EmptyString => [EmptyString]
  | String c s' =>
      if Ascii.eqb c sep then EmptyString :: split sep s'
      else match split sep s' with
           | h :: t => String c h :: t
           | [] => [String c EmptyString]
           end
  end.

(** [parts.join(sep)] *)
Fixpoint join (sep : string) (parts : list string) : string :=
  match parts with
  | [] => EmptyString
  | [x] => x
  | x :: rest => x +:+ sep +:+ join sep rest
  end.

(** [s.split(/\s+/)]: maximal runs of white space separate the pieces; a
    leading or trailing run leaves an empty first or last piece. *)
Fixpoint split_ws_go (skipping : bool) (s : string) : list string :=
  match s with
  | EmptyString => [EmptyString]
  | String c s' =>
      if Ascii.is_space c then
        if skipping then split_ws_go true s'
        else EmptyString :: split_ws_go true s'
      else match split_ws_go false s' with
           | h :: t => String c h :: t
           | [] => [String c EmptyString]
           end
  end.
Definition split_ws : string -> list string := split_ws_go false.

(** [s.replace(/[*]/g, ".*")] *)
Fixpoint replace_stars (s : string) : string :=
  match s with
  | EmptyString => EmptyString
  | String c s' =>
      if Ascii.eqb c "*"%char then String "."%char (String "*"%char (replace_stars s'))
      else String c (replace_stars s')
  end.

Fixpoint drop (n : nat) (s : string) : string :=
  match n, s with
  | S n', String _ s' => drop n' s'
  | _, _ => s
  end.

(** [s.replace(pat, "")] with a string pattern: the first occurrence of
    [pat] is removed, and [s] is returned as it is when there is none. *)
Fixpoint remove_first (s pat : string) : string :=
  if String.prefix pat s then drop (String.length pat) s
  else match s with
       | EmptyString => EmptyString
       | String c s' => String c (remove_first s' pat)
       end.

(** [String(n)] for a non-negative integer. *)
Definition of_nat (n : nat) : string := NilZero.string_of_uint (Nat.to_uint n).

(** No code unit of [s] is [sep]. *)
Fixpoint free_of (sep : ascii) (s : string) : bool :=
  match s with
  | EmptyString => true
  | String c s' => negb (Ascii.eqb c sep) && free_of sep s'
  end.

(** The three bytes that hold a lone surrogate, U+D800 to U+DFFF. *)
Definition surrogate (a b c : ascii) : bool :=
  (nat_of_ascii a =? 237)
  && (160 <=? nat_of_ascii b) && (nat_of_ascii b <=? 191)
  && (128 <=? nat_of_ascii c) && (nat_of_ascii c <=? 191).

(** U+FFFD, the replacement character. *)
Definition REPLACEMENT : string :=
  String (ascii_of_nat 239) (String (ascii_of_nat 191) (String (ascii_of_nat 189) EmptyString)).

(** [s.toWellFormed()]: every lone surrogate becomes U+FFFD.  This is
    what encoding a string as UTF-8 and decoding the bytes again gives. *)
Fixpoint toWellFormed (s : string) : string :=
  match s with
  | EmptyString => EmptyString
  | String a t =>
      match t with
      | String b (String c rest) =>
          if surrogate a b c then REPLACEMENT +:+ toWellFormed rest
          else String a (toWellFormed t)
      | _ => String a (toWellFormed t)
      end
  end.

(** [s.isWellFormed()]: the string holds no lone surrogate. *)
Fixpoint isWellFormed (s : string) : bool :=
  match s with
  | EmptyString => true
  | String a t =>
      match t with
      | String b (String c _) => negb (surrogate a b c) && isWellFormed t
      | _ => true
      end
  end.

(** *** [util.inspect] of a string

    The text Node puts into the message of an argument error.  Lengths
    are counted in bytes, which is exact for ASCII text. *)

Definition hex_digit (n : nat) : ascii :=
  if n <? 10 then ascii_of_nat (48 + n) else ascii_of_nat (55 + n).

Definition hex2 (n : nat) : string :=
  String (hex_digit (n / 16)) (String (hex_digit (n mod 16)) EmptyString).

(** The entry of [meta] for a code unit, with [quote] the quote
    [strEscape] has chosen. *)
Definition escape_unit (quote c : ascii) : string :=
  let n := nat_of_ascii c in
  if n =? 8 then "\b" else if n =? 9 then "\t" else if n =? 10 then "\n"
  else if n =? 12 then "\f" else if n =? 13 then "\r"
  else if (n <? 32) || (n =? 127) then "\x" +:+ hex2 n
  else if n =? 92 then "\\"
  else if (n =? 39) && Ascii.eqb quote "'"%char then "\'"
  else String c EmptyString.

Fixpoint escape_units (quote : ascii) (s : string) : string :=
  match s with
  | EmptyString => EmptyString
  | String c s' => escape_unit quote c +:+ escape_units quote s'
  end.

(** [strEscape]: single quotes, unless the string holds one and another
    quote is free. *)
Definition strEscape (s : string) : string :=
  let double := String (ascii_of_nat 34) EmptyString in
  let quote :=
    if negb (includes s "'") then "'"%char
    else if negb (includes s double) then ascii_of_nat 34
    else if negb (includes s "`") && negb (includes s "${") then "`"%char
    else "'"%char in
  String quote (escape_units quote s) +:+ String quote EmptyString.

(** [s.split(/(?<=\n)/)]: the lines of [s], each with its line break. *)
Fixpoint split_lines (s : string) : list string :=
  match s with
  | EmptyString => [EmptyString]
  | String c s' =>
      if (nat_of_ascii c =? 10) && negb (String.eqb s' EmptyString) then
        String c EmptyString :: split_lines s'
      else match split_lines s' with
           | h :: t => String c h :: t
           | [] => [String c EmptyString]
           end
  end.

Fixpoint take (n : nat) (s : string) : string :=
  match n, s with
  | S n', String c s' => String c (take n' s')
  | _, _ => EmptyString
  end.

(** [inspect(s)] with the default options: a string of more than 124
    code units is printed line by line. *)
Definition inspect (s : string) : string :=
  if 124 <? String.length s then
    join (" +" +:+ String (ascii_of_nat 10) "  ") (map strEscape (split_lines s))
  else strEscape s.

End Js.

(** ** Node's [path] module, POSIX flavour

    The functions follow [lib/path.js]; where the library scans code units,
    the model works on the pieces between separators, which is what the scan
    computes. *)

Module Path.

Definition sep : ascii := "/"%char.

Definition segments (p : string) : list string := Js.split sep p.

(** [path.isAbsolute(p)] *)
Definition isAbsolute (p : string) : bool := Js.startsWith p "/".

Definition trailingSeparator (p : string) : bool := Js.endsWith p "/" && negb (String.eqb p "").

(** The loop of [normalizeString]: [res] is the list of the segments kept
    so far, last one first. *)
Fixpoint normalize_go (allowAboveRoot : bool) (res segs : list string) : list string :=
  match segs with
  | [] => rev res
  | s :: rest =>
      if String.eqb s "" || String.eqb s "." then normalize_go allowAboveRoot res rest
      else if String.eqb s ".." then
        match res with
        | last :: res' =>
            if String.eqb last ".." then
              normalize_go allowAboveRoot (if allowAboveRoot then ".." :: res else res) rest
            else normalize_go allowAboveRoot res' rest
        | [] => normalize_go allowAboveRoot (if allowAboveRoot then [".."] else []) rest
        end
      else normalize_go allowAboveRoot (s :: res) rest
  end.

Definition normalizeString (p : string) (allowAboveRoot : bool) : string :=
  Js.join "/" (normalize_go allowAboveRoot [] (segments p)).

(** [path.normalize(p)] *)
Definition normalize (p : string) : string :=
  if String.eqb p "" then "."
  else
    let abs := isAbsolute p in
    let body := normalizeString p (negb abs) in
    if String.eqb body "" then
      if abs then "/" else if trailingSeparator p then "./" else "."
    else
      let body := if trailingSeparator p then body +:+ "/" else body in
      if abs then "/" +:+ body else body.

(** [path.join(...args)] *)
Definition join (args : list string) : string :=
  match List.filter (fun a => negb (String.eqb a "")) args with
  | [] => "."
  | parts => normalize (Js.join "/" parts)
  end.

(** The right-to-left loop of [path.resolve]: arguments are prepended
    until one of them is absolute; the current directory comes last. *)
Fixpoint resolve_go (rev_args : list string) (resolvedPath : string) : string * bool :=
  match rev_args with
  | [] => (resolvedPath, false)
  | a :: rest =>
      if String.eqb a "" then resolve_go rest resolvedPath
      else
        let resolvedPath := a +:+ "/" +:+ resolvedPath in
        if isAbsolute a then (resolvedPath, true) else resolve_go rest resolvedPath
  end.

(** [path.resolve(...args)], with [cwd] standing for [process.cwd()]. *)
Definition resolve (cwd : string) (args : list string) : string :=
  let '(resolvedPath, resolvedAbsolute) := resolve_go (rev (cwd :: args)) "" in
  let body := normalizeString resolvedPath (negb resolvedAbsolute) in
  if resolvedAbsolute then "/" +:+ body
  else if String.eqb body "" then "." else body.

Fixpoint strip_trailing_empty (segs : list string) : list string :=
  match segs with
  | [] => []
  | s :: rest =>
      match strip_trailing_empty rest with
      | [] => if String.eqb s "" then [] else [s]
      | rest' => s :: rest'
      end
  end.

(** [path.dirname(p)]: trailing separators are skipped, then the last
    segment and the separator before it are cut off. *)
Definition dirname (p : string) : string :=
  if String.eqb p "" then "."
  else
    match removelast (strip_trailing_empty (segments p)) with
    | [] => if isAbsolute p then "/" else "."
    | [s] => if String.eqb s "" then "/" else s
    | [s1; s2] => if String.eqb s1 "" && String.eqb s2 "" then "//" else Js.join "/" [s1; s2]
    | parent => Js.join "/" parent
    end.

End Path.

(** ** The file system behind [fs/promises]

    A tree is a finite map from canonical paths (the names from the root
    down) to nodes; the root directory [[]] is always there.  Path
    resolution follows symbolic links, at most [MAXSYMLINKS] of them. *)

Module Fs.

(** A regular file holds its content as text, the string that reading
    it as UTF-8 gives. *)
Inductive node :=
| File (content : string)
| Dir
| Symlink (target : string).

#[global] Instance node_eq_dec : EqDecision node.
Proof. solve_decision. Defined.

Abbreviation files := (gmap (list string) node).

(** The codes of the errors a call rejects with: those of the system,
    and Node's own for a path it does not hand to the system. *)
Inductive errno :=
  ENOENT | ENOTDIR | ELOOP | EISDIR | EEXIST | ENAMETOOLONG | ERR_INVALID_ARG_VALUE.

Definition MAXSYMLINKS : nat := 40.

(** The longest name, and the size a path must stay below, in bytes. *)
Definition NAME_MAX : nat := 255.
Definition PATH_MAX : nat := 4096.

(** Where a path leads: to the node at [r], to a name that is free in an
    existing directory ([r] is where it would be created), or nowhere. *)
Inductive outcome :=
| Found (r : list string)
| Absent (r : list string)
| Fail (e : errno).

(** The names a path consists of; empty pieces and ["."] stand for the
    directory reached so far. *)
Definition names (p : string) : list string :=
  List.filter (fun s => negb (String.eqb s "") && negb (String.eqb s ".")) (Path.segments p).

Definition start (cur : list string) (p : string) : list string :=
  if Path.isAbsolute p then [] else cur.

Definition is_dir (fs : files) (r : list string) : bool :=
  match r with
  | [] => true
  | _ => match fs !! r with Some Dir => true | _ => false end
  end.

(** Resolution of the names [todo] from the directory [cur].  With
    [follow = false] a symbolic link in the last position is not followed
    (as [lstat] and [mkdir] do). *)
Fixpoint walk (fs : files) (links : nat) (follow : bool) (cur todo : list string)
  {struct links} : outcome :=
  (fix go (cur todo : list string) {struct todo} : outcome :=
     match todo with
     | [] => Found cur
     | c :: rest =>
         if String.eqb c ".." then go (removelast cur) rest
         else
           match fs !! (cur ++ [c]) with
           | None => match rest with [] => Absent (cur ++ [c]) | _ => Fail ENOENT end
           | Some Dir => go (cur ++ [c]) rest
           | Some (File _) => match rest with [] => Found (cur ++ [c]) | _ => Fail ENOTDIR end
           | Some (Symlink t) =>
               match rest, follow with
               | [], false => Found (cur ++ [c])
               | _, _ =>
                   match links with
                   | 0 => Fail ELOOP
                   | S l => walk fs l follow (start cur t) (names t ++ rest)
                   end
               end
           end
     end) cur todo.

(** The names to resolve from the root for a path string; a relative path
    starts at [cwd]. *)
Definition route (cwd p : string) : list string :=
  if Path.isAbsolute p then names p else names cwd ++ names p.

(** Resolution of a path string. *)
Definition locate (cwd : string) (fs : files) (follow : bool) (p : string) : outcome :=
  walk fs MAXSYMLINKS follow [] (route cwd p).

(** The path string of a canonical location. *)
Definition render (r : list string) : string :=
  match r with
  | [] => "/"
  | _ => Js.join "/" ("" :: r)
  end.

(** *** Errors, as the [Error] objects Node rejects with *)

Record error := Error { message : string }.

Definition code (e : errno) : string :=
  match e with
  | ENOENT => "ENOENT" | ENOTDIR => "ENOTDIR" | ELOOP => "ELOOP"
  | EISDIR => "EISDIR" | EEXIST => "EEXIST" | ENAMETOOLONG => "ENAMETOOLONG"
  | ERR_INVALID_ARG_VALUE => "ERR_INVALID_ARG_VALUE"
  end.

Definition describe (e : errno) : string :=
  match e with
  | ENOENT => "no such file or directory"
  | ENOTDIR => "not a directory"
  | ELOOP => "too many symbolic links encountered"
  | EISDIR => "illegal operation on a directory"
  | EEXIST => "file already exists"
  | ENAMETOOLONG => "name too long"
  | ERR_INVALID_ARG_VALUE => "must be a string, Uint8Array, or URL without null bytes"
  end.

(** The value an argument error shows: [inspect] of it, cut after 128
    code units. *)
Definition received (p : string) : string :=
  let inspected := Js.inspect p in
  if 128 <? String.length inspected then Js.take 128 inspected +:+ "..." else inspected.

(** The error of a call on [p] that failed with [e]: the system's errors
    name the call and the path, Node's own names the argument. *)
Definition sys_error (e : errno) (syscall p : string) : error :=
  match e with
  | ERR_INVALID_ARG_VALUE =>
      Error ("The argument 'path' " +:+ describe e +:+ ". Received " +:+ received p)
  | _ => Error (code e +:+ ": " +:+ describe e +:+ ", " +:+ syscall +:+ " '" +:+ p +:+ "'")
  end.

(** The error of [readFile]: a directory can be opened, it is the read
    that fails on it, and that error names no path. *)
Definition read_error (e : errno) (p : string) : error :=
  match e with
  | EISDIR => Error (code e +:+ ": " +:+ describe e +:+ ", read")
  | _ => sys_error e "open" p
  end.

(** *** Paths that name nothing

    Node rejects a path that holds a NUL byte before it calls the system,
    and the system rejects a path of [PATH_MAX] bytes or more and a name of
    more than [NAME_MAX] bytes.  A tree is taken to hold no node under
    such a name or that deep, so these refusals are looked for where
    resolution found no node: [r] is the free place resolution led to, if
    it led to one. *)

Definition too_long (n : string) : bool := NAME_MAX <? String.length n.

Definition refused (p : string) (r : list string) : option errno :=
  if negb (Js.free_of (ascii_of_nat 0) p) then Some ERR_INVALID_ARG_VALUE
  else if (PATH_MAX <=? String.length p) || existsb too_long (names p)
          || too_long (List.last r EmptyString)
       then Some ENAMETOOLONG
  else None.

(** The error code of a call on [p] whose resolution found no node and
    ended with [e]. *)
Definition unfound (p : string) (r : list string) (e : errno) : errno :=
  default e (refused p r).

(** *** The operations, as functions of the tree *)

Section Ops.
Variable cwd : string.

Definition realpath (fs : files) (p : string) : errno + string :=
  match locate cwd fs true p with
  | Found r => inr (render r)
  | Absent r => inl (unfound p r ENOENT)
  | Fail e => inl (unfound p [] e)
  end.

Definition access (fs : files) (p : string) : errno + unit :=
  match locate cwd fs true p with
  | Found _ => inr tt
  | Absent r => inl (unfound p r ENOENT)
  | Fail e => inl (unfound p [] e)
  end.

Definition readFile (fs : files) (p : string) : errno + string :=
  match locate cwd fs true p with
  | Found r =>
      match r, fs !! r with
      | _ :: _, Some (File c) => inr c
      | _, _ => inl EISDIR
      end
  | Absent r => inl (unfound p r ENOENT)
  | Fail e => inl (unfound p [] e)
  end.

(** [writeFile] opens with [O_CREAT | O_TRUNC]: an existing regular
    file is overwritten, a free name in an existing directory is
    created, also through a dangling link, unless the path cannot name a
    file.  The content is stored as UTF-8, which holds no lone
    surrogate. *)
Definition writeFile (fs : files) (p content : string) : errno + files :=
  match locate cwd fs true p with
  | Found r =>
      match r, fs !! r with
      | _ :: _, Some (File _) => inr (<[r := File (Js.toWellFormed content)]> fs)
      | _, _ => inl EISDIR
      end
  | Absent r =>
      match refused p r with
      | Some e => inl e
      | None => inr (<[r := File (Js.toWellFormed content)]> fs)
      end
  | Fail e => inl (unfound p [] e)
  end.

(** The [mkdir] system call: it does not follow a link in the last
    position. *)
Definition mkdir_once (fs : files) (p : string) : errno + files :=
  match locate cwd fs false p with
  | Found _ => inl EEXIST
  | Absent r =>
      match refused p r with
      | Some e => inl e
      | None => inr (<[r := Dir]> fs)
      end
  | Fail e => inl (unfound p [] e)
  end.

(** What the recursive [mkdir] does when the system call answers
    [EEXIST]: a directory (or a link to one) is fine. *)
Definition exists_as_dir (fs : files) (p : string) : option errno :=
  match locate cwd fs true p with
  | Found r => if is_dir fs r then None else Some EEXIST
  | Absent r => Some (unfound p r ENOENT)
  | Fail e => Some (unfound p [] e)
  end.

(** [fs.mkdir(p, { recursive: true })]: on [ENOENT] the parent is made
    first and the call repeated.  The tree is returned also when the
    call fails, with the directories made so far. *)
Fixpoint mkdirp_go (fuel : nat) (fs : files) (p : string) : option errno * files :=
  match mkdir_once fs p with
  | inr fs' => (None, fs')
  | inl EEXIST => (exists_as_dir fs p, fs)
  | inl ENOENT =>
      match fuel with
      | 0 => (Some ENOENT, fs)
      | S fuel' =>
          if String.eqb (Path.dirname p) p then (Some ENOENT, fs)
          else
            match mkdirp_go fuel' fs (Path.dirname p) with
            | (Some e, fs') => (Some e, fs')
            | (None, fs') =>
                match mkdir_once fs' p with
                | inr fs'' => (None, fs'')
                | inl EEXIST => (exists_as_dir fs' p, fs')
                | inl e => (Some e, fs')
                end
            end
      end
  | inl e => (Some e, fs)
  end.

Definition mkdirp (fs : files) (p : string) : option errno * files :=
  mkdirp_go (String.length p) fs p.

(** Directory entries, as [readdir] with [withFileTypes] gives them. *)
Record dirent := Dirent { name : string; isDirectory : bool }.

Fixpoint child_name (r k : list string) : option string :=
  match r, k with
  | [], [n] => Some n
  | a :: r', b :: k' => if String.eqb a b then child_name r' k' else None
  | _, _ => None
  end.

Fixpoint insert_sorted (d : dirent) (l : list dirent) : list dirent :=
  match l with
  | [] => [d]
  | d' :: l' => if String.leb (name d) (name d') then d :: l else d' :: insert_sorted d l'
  end.

(** What can be the name of a node: not empty, not ["."] or [".."], and
    without a separator. *)
Definition valid_name (n : string) : bool :=
  negb (String.eqb n "") && negb (String.eqb n ".") && negb (String.eqb n "..")
  && Js.free_of Path.sep n.

(** The entry a node of the tree is in the directory at [r], if it is one
    of its children. *)
Definition entry_of (r : list string) (kn : list string * node) : option dirent :=
  match child_name r (fst kn) with
  | Some n =>
      if valid_name n then Some (Dirent n (match snd kn with Dir => true | _ => false end))
      else None
  | None => None
  end.

(** The entries of the directory at [r], by name. *)
Definition entries (fs : files) (r : list string) : list dirent :=
  foldr insert_sorted [] (omap (entry_of r) (map_to_list fs)).

Definition readdir (fs : files) (p : string) : errno + list dirent :=
  match locate cwd fs true p with
  | Found r => if is_dir fs r then inr (entries fs r) else inl ENOTDIR
  | Absent r => inl (unfound p r ENOENT)
  | Fail e => inl (unfound p [] e)
  end.

End Ops.

End Fs.

(** ** Asynchronous code as a state, log and exception monad

    A computation runs on a tree, returns a value or throws, leaves a tree
    behind and logs the file-system calls it made, in order.  Nothing is
    rolled back when it throws. *)

Module Io.
Import Fs.

Inductive call :=
| Realpath (p : string)
| Access (p : string)
| ReadFile (p : string)
| WriteFile (p content : string)
| Mkdir (p : string)
| Readdir (p : string).

Inductive result (A : Type) :=
| Ok (a : A)
| Throw (e : error).
Arguments Ok {A} a.
Arguments Throw {A} e.

Definition M (A : Type) : Type := files -> result A * files * list call.

Definition ret {A} (a : A) : M A := fun fs => (Ok a, fs, []).

Definition throw {A} (e : error) : M A := fun fs => (Throw e, fs, []).

Definition bind {A B} (m : M A) (k : A -> M B) : M B :=
  fun fs =>
    match m fs with
    | (Ok a, fs', l) => let '(r, fs'', l') := k a fs' in (r, fs'', l ++ l')
    | (Throw e, fs', l) => (Throw e, fs', l)
    end.

(** [try { m } catch (e) { h e }] *)
Definition try_catch {A} (m : M A) (h : error -> M A) : M A :=
  fun fs =>
    match m fs with
    | (Ok a, fs', l) => (Ok a, fs', l)
    | (Throw e, fs', l) => let '(r, fs'', l') := h e fs' in (r, fs'', l ++ l')
    end.

(** One call of [fs/promises] that leaves the tree as it is. *)
Definition query {A} (c : call) (syscall p : string) (f : files -> errno + A) : M A :=
  fun fs =>
    match f fs with
    | inr a => (Ok a, fs, [c])
    | inl e => (Throw (sys_error e syscall p), fs, [c])
    end.

Fixpoint mapM {A B} (f : A -> M B) (l : list A) : M (list B) :=
  match l with
  | [] => ret []
  | a :: l' => bind (f a) (fun b => bind (mapM f l') (fun bs => ret (b :: bs)))
  end.

Definition value {A} (x : result A * files * list call) : result A := fst (fst x).
Definition tree {A} (x : result A * files * list call) : files := snd (fst x).
Definition calls {A} (x : result A * files * list call) : list call := snd x.

End Io.

Notation "'let!' x ':=' m 'in' k" := (Io.bind m (fun x => k))
  (at level 10, x pattern, m at level 100, k at level 200).

(** ** The server: [src/index.ts] *)

Definition nl : string := String (ascii_of_nat 10) EmptyString.

Module Server.
Section Env.
Import Fs Io.

(** The process environment: [process.cwd()], [os.homedir()] and the
    vault directory given on the command line, [args[0]]. *)
Variables (cwd homedir vaultArg : string).

(** [new RegExp(pattern, "i").test(input)] of the JavaScript engine;
    [None] when the constructor throws a [SyntaxError]. *)
Variable RegExp_test : string -> string -> option bool.

(** Maximum number of search results to return *)
Definition SEARCH_LIMIT : nat := 200.

Definition normalizePath (p : string) : string := Js.toLowerCase (Path.normalize p).

Definition expandHome (filepath : string) : string :=
  if Js.startsWith filepath "~/" || String.eqb filepath "~" then
    Path.join [homedir; Js.slice1 filepath]
  else filepath.

(** Store allowed directories in normalized form *)
Definition vaultDirectories : list string :=
  [normalizePath (Path.resolve cwd [expandHome vaultArg])].

(** [vaultDirectories[0]] *)
Definition vaultDirectory0 : string := hd "undefined" vaultDirectories.

(** [vaultDirectories.some((dir) => s.startsWith(dir))] *)
Definition insideVault (s : string) : bool :=
  existsb (fun dir => Js.startsWith s dir) vaultDirectories.

Definition fs_realpath (p : string) : M string :=
  query (Realpath p) "realpath" p (fun fs => realpath cwd fs p).
Definition fs_access (p : string) : M unit :=
  query (Access p) "access" p (fun fs => access cwd fs p).
Definition fs_readFile (p : string) : M string :=
  fun fs =>
    match readFile cwd fs p with
    | inr content => (Ok content, fs, [ReadFile p])
    | inl e => (Throw (read_error e p), fs, [ReadFile p])
    end.
Definition fs_readdir (p : string) : M (list dirent) :=
  query (Readdir p) "scandir" p (fun fs => readdir cwd fs p).
Definition fs_writeFile (p content : string) : M unit :=
  fun fs =>
    match writeFile cwd fs p content with
    | inr fs' => (Ok tt, fs', [WriteFile p content])
    | inl e => (Throw (sys_error e "open" p), fs, [WriteFile p content])
    end.
Definition fs_mkdir_recursive (p : string) : M unit :=
  fun fs =>
    match mkdirp cwd fs p with
    | (None, fs') => (Ok tt, fs', [Mkdir p])
    | (Some e, fs') => (Throw (sys_error e "mkdir" p), fs', [Mkdir p])
    end.

(** *** Security utilities *)

Definition hiddenSegment (requestedPath : string) : bool :=
  existsb (fun part => Js.startsWith part ".") (Js.split Path.sep requestedPath).

Definition absoluteOf (requestedPath : string) : string :=
  let expandedPath := expandHome requestedPath in
  if Path.isAbsolute expandedPath then Path.resolve cwd [expandedPath]
  else Path.resolve cwd [cwd; expandedPath].

Definition validatePath (requestedPath : string) : M string :=
  (* Ignore hidden files/directories starting with "." *)
  if hiddenSegment requestedPath then
    throw (Error "Access denied - hidden files/directories not allowed")
  else
    let absolute := absoluteOf requestedPath in
    let normalizedRequested := normalizePath absolute in
    (* Check if path is within allowed directories *)
    if negb (insideVault normalizedRequested) then
      throw (Error ("Access denied - path outside allowed directories: " +:+ absolute
                    +:+ " not in " +:+ Js.join ", " vaultDirectories))
    else
      (* Handle symlinks by checking their real path *)
      try_catch
        (let! realPath := fs_realpath absolute in
         let normalizedReal := normalizePath realPath in
         if negb (insideVault normalizedReal) then
           throw (Error "Access denied - symlink target outside allowed directories")
         else ret realPath)
        (fun _ =>
           (* For new files that don't exist yet, verify parent directory *)
           let parentDir := Path.dirname absolute in
           try_catch
             (let! realParentPath := fs_realpath parentDir in
              let normalizedParent := normalizePath realParentPath in
              if negb (insideVault normalizedParent) then
                throw (Error "Access denied - parent directory outside allowed directories")
              else ret absolute)
             (fun _ => throw (Error ("Parent directory does not exist: " +:+ parentDir)))).

(** *** Search *)

(** The test the loop body of [search] makes on an entry name: does the
    file match the query. *)
Definition entry_matches (query name : string) : bool :=
  (* Split query into keywords for more flexible searching *)
  let keywords :=
    List.filter (fun k => 0 <? String.length k) (Js.split_ws (Js.toLowerCase query)) in
  let filename := Js.toLowerCase name in
  let matches :=
    (* Try exact match first *)
    if Js.includes filename (Js.toLowerCase query) then true
    else
      (* Try regex match if possible *)
      match RegExp_test (Js.replace_stars query) name with
      | Some b => b
      | None => false (* Ignore invalid regex *)
      end in
  (* If not matched yet, try each keyword separately *)
  if negb matches && (0 <? length keywords) then
    existsb (fun keyword => Js.includes filename keyword) keywords
  else matches.

(** What the loop body does to [results] for a validated entry: a
    matching note is pushed, as a path relative to the vault. *)
Definition push_match (query basePath fullPath name : string) (results : list string)
  : list string :=
  if Js.endsWith name ".md" && entry_matches query name then
    (* Turn into relative path *)
    results ++ [Js.remove_first fullPath basePath]
  else results.

(** How a call of [search] ends: it returns, or it rejects (only
    [readdir] of the directory itself can make it), in both cases with
    the [results] array as it then is; [Unfinished] is a walk cut short
    by the depth bound of the model. *)
Inductive walked :=
| Walked (results : list string)
| Rejected (e : error) (results : list string)
| Unfinished.

(** The loop of [search] over the entries of [currentPath]; [descend] is
    the recursive call of [search]. *)
Fixpoint visit (descend : string -> list string -> M walked)
  (query basePath currentPath : string) (entries : list dirent) (results : list string)
  {struct entries} : M walked :=
  match entries with
  | [] => ret (Walked results)
  | entry :: rest =>
      let fullPath := Path.join [currentPath; name entry] in
      (* Validate each path before processing *)
      let! valid := try_catch (let! _ := validatePath fullPath in ret true)
                              (fun _ => ret false) in
      if negb valid then
        (* Skip invalid paths during search *)
        visit descend query basePath currentPath rest results
      else
        let results := push_match query basePath fullPath (name entry) results in
        if isDirectory entry then
          let! sub := descend fullPath results in
          match sub with
          | Walked results => visit descend query basePath currentPath rest results
          | Rejected _ results => visit descend query basePath currentPath rest results
          | Unfinished => ret Unfinished
          end
        else visit descend query basePath currentPath rest results
  end.

Fixpoint search (query : string) (depth : nat) (basePath currentPath : string)
  (results : list string) {struct depth} : M walked :=
  match depth with
  | 0 => ret Unfinished
  | S depth' =>
      let! listing := try_catch (let! entries := fs_readdir currentPath in ret (inr entries))
                                (fun e => ret (inl e)) in
      match listing with
      | inl e => ret (Rejected e results)
      | inr entries =>
          visit (search query depth' basePath) query basePath currentPath entries results
      end
  end.

(** A depth no directory of the tree reaches. *)
Definition depth_bound (fs : files) : nat :=
  S (S (foldr Nat.max 0 (map (fun kn : list string * node => length (fst kn)) (map_to_list fs)))).

(** [searchNotes(query)]: every vault directory is walked into the same
    [results]; a walk that rejects makes [Promise.all] reject.  [None]
    stands for a walk the depth bound cut short. *)
Definition searchNotes (query : string) : M (option (list string)) :=
  fun fs =>
    (fix roots (dirs : list string) (results : list string) : M (option (list string)) :=
       match dirs with
       | [] => ret (Some results)
       | dir :: rest =>
           let! w := search query (depth_bound fs) dir dir results in
           match w with
           | Walked results => roots rest results
           | Rejected e _ => throw e
           | Unfinished => ret None
           end
       end) vaultDirectories [] fs.

(** *** Tool handlers *)

Inductive request :=
| ReadNotes (paths : list string)
| SearchNotes (query : string)
| WriteNote (path content : string) (createIfNotExists : option bool)
| OtherTool (name : string).

Record response := Response { text : string; isError : bool }.

(** The text of the [search_notes] reply for the collected [results]. *)
Definition search_notes_text (results : list string) : string :=
  let limitedResults := firstn SEARCH_LIMIT results in
  (if 0 <? length limitedResults then Js.join nl limitedResults else "No matches found")
  +:+ (if SEARCH_LIMIT <? length results then
         nl +:+ nl +:+ "... " +:+ Js.of_nat (length results - SEARCH_LIMIT)
         +:+ " more results not shown."
       else "").

(** The callback [read_notes] maps over the requested paths. *)
Definition read_note (filePath : string) : M string :=
  try_catch
    ((* Handle paths with or without leading slash consistently *)
     let normalizedPath :=
       if Js.startsWith filePath "/" then Js.slice1 filePath else filePath in
     let! validPath := validatePath (Path.join [vaultDirectory0; normalizedPath]) in
     let! content := fs_readFile validPath in
     ret (filePath +:+ ":" +:+ nl +:+ content +:+ nl))
    (fun error => ret (filePath +:+ ": Error - " +:+ message error)).

Definition read_notes (paths : list string) : M response :=
  let! results := mapM read_note paths in
  ret (Response (Js.join (nl +:+ "---" +:+ nl) results) false).

Definition search_notes (query : string) : M (option response) :=
  let! found := searchNotes query in
  match found with
  | Some results => ret (Some (Response (search_notes_text results) false))
  | None => ret None
  end.

Definition write_note (notePath content : string) (createIfNotExists : bool) : M response :=
  try_catch
    ((* Prepare the full path *)
     let fullPath := Path.join [vaultDirectory0; notePath] in
     let! validPath := validatePath fullPath in
     (* Create parent directories if they don't exist *)
     let directory := Path.dirname validPath in
     let! _ := fs_mkdir_recursive directory in
     (* Check if file exists *)
     let! fileExists :=
       try_catch (let! _ := fs_access validPath in ret true)
         (fun _ =>
            if negb createIfNotExists then
              throw (Error ("File does not exist: " +:+ notePath))
            else ret false) in
     (* Write to file *)
     let! _ := fs_writeFile validPath content in
     ret (Response ("Successfully " +:+ (if fileExists then "updated" else "created")
                    +:+ " note: " +:+ notePath) false))
    (fun error => throw (Error ("Failed to write note: " +:+ message error))).

(** The [CallToolRequestSchema] handler, on a request whose arguments
    passed the schema; [createIfNotExists] defaults to [true]. *)
Definition callTool (req : request) : M (option response) :=
  try_catch
    match req with
    | ReadNotes paths => let! r := read_notes paths in ret (Some r)
    | SearchNotes query => search_notes query
    | WriteNote notePath content createIfNotExists =>
        let! r := write_note notePath content (default true createIfNotExists) in ret (Some r)
    | OtherTool name => throw (Error ("Unknown tool: " +:+ name))
    end
    (fun error => ret (Some (Response ("Error: " +:+ message error) true))).

End Env.
End Server.

(** * Readings of the server

    The handlers as functions of the tree, the conditions of the error
    taxonomy, the matching policy in the words of the specification, and
    the notions the properties of path resolution are stated with. *)

(** The string [s] begins with the string [dir]: it is [dir] followed by
    anything, a separator or not. *)
Definition begins (dir s : string) : Prop := exists rest, s = dir +:+ rest.

(** The conditions of the error taxonomy, read off the message. *)
Definition AccessDenied (e : Fs.error) : Prop :=
  Js.startsWith (Fs.message e) "Access denied" = true.
Definition ParentMissing (e : Fs.error) : Prop :=
  Js.startsWith (Fs.message e) "Parent directory does not exist" = true.

Definition hiddenError : Fs.error :=
  Fs.Error "Access denied - hidden files/directories not allowed".


(** The condition of [write_note] for a note that is not there and may not
    be created. *)
Definition NotFound (e : Fs.error) : Prop :=
  Js.startsWith (Fs.message e) "File does not exist" = true.


Section Readings.
Import Fs Io.
Variables (cwd homedir vaultArg : string).

(** The result of a computation and the tree it leaves. *)
Definition run {A : Type} (m : M A) (fs : files) : result A * files := (value (m fs), tree (m fs)).

Definition parentMissingError (absolute : string) : error :=
  Error ("Parent directory does not exist: " +:+ Path.dirname absolute).

(** The second half of [validatePath]: the parent directory decides. *)
Definition parentCheck (fs : files) (absolute : string) : result string :=
  match realpath cwd fs (Path.dirname absolute) with
  | inr realParentPath =>
      if Server.insideVault cwd homedir vaultArg (Server.normalizePath realParentPath) then Ok absolute
      else Throw (parentMissingError absolute)
  | inl _ => Throw (parentMissingError absolute)
  end.

(** What [validatePath] answers, as a function of the tree. *)
Definition validated (fs : files) (requestedPath : string) : result string :=
  if Server.hiddenSegment requestedPath then Throw hiddenError
  else
    let absolute := Server.absoluteOf cwd homedir requestedPath in
    if Server.insideVault cwd homedir vaultArg (Server.normalizePath absolute) then
      match realpath cwd fs absolute with
      | inr realPath =>
          if Server.insideVault cwd homedir vaultArg (Server.normalizePath realPath) then Ok realPath
          else parentCheck fs absolute
      | inl _ => parentCheck fs absolute
      end
    else
      Throw (Error ("Access denied - path outside allowed directories: " +:+ absolute
                    +:+ " not in " +:+ Js.join ", " (Server.vaultDirectories cwd homedir vaultArg))).

(** The path [read_notes] validates for a requested path. *)
Definition requested (filePath : string) : string :=
  Path.join [Server.vaultDirectory0 cwd homedir vaultArg;
             if Js.startsWith filePath "/" then Js.slice1 filePath else filePath].

(** The entry of the reply for one requested path, as a function of the
    tree. *)
Definition read_entry (fs : files) (filePath : string) : string :=
  match validated fs (requested filePath) with
  | Ok validPath =>
      match readFile cwd fs validPath with
      | inr content => filePath +:+ ":" +:+ nl +:+ content +:+ nl
      | inl e => filePath +:+ ": Error - " +:+ message (read_error e validPath)
      end
  | Throw error => filePath +:+ ": Error - " +:+ message error
  end.

Definition failedToWrite (e : error) : error :=
  Error ("Failed to write note: " +:+ message e).

Definition successfully (fileExists : bool) (notePath : string) : Server.response :=
  Server.Response ("Successfully " +:+ (if fileExists then "updated" else "created")
                   +:+ " note: " +:+ notePath) false.

(** The last step of [write_note], on a validated path. *)
Definition stored (fs : files) (notePath validPath content : string) (fileExists : bool)
  : result Server.response * files :=
  match writeFile cwd fs validPath content with
  | inr fs' => (Ok (successfully fileExists notePath), fs')
  | inl e => (Throw (failedToWrite (sys_error e "open" validPath)), fs)
  end.

(** The result of [write_note] and the tree it leaves. *)
Definition written (fs : files) (notePath content : string) (createIfNotExists : bool)
  : result Server.response * files :=
  match validated fs (Path.join [Server.vaultDirectory0 cwd homedir vaultArg; notePath]) with
  | Throw e => (Throw (failedToWrite e), fs)
  | Ok validPath =>
      match mkdirp cwd fs (Path.dirname validPath) with
      | (Some e, fs1) =>
          (Throw (failedToWrite (sys_error e "mkdir" (Path.dirname validPath))), fs1)
      | (None, fs1) =>
          match access cwd fs1 validPath with
          | inr _ => stored fs1 notePath validPath content true
          | inl _ =>
              if createIfNotExists then stored fs1 notePath validPath content false
              else (Throw (failedToWrite (Error ("File does not exist: " +:+ notePath))), fs1)
          end
      end
  end.

End Readings.

(** The matching policy in the words of the specification: three
    strategies, tried in order, the first success wins. *)
Module Policy.

(** (1) The case-folded name contains the case-folded query. *)
Definition substring (query name : string) : bool :=
  Js.includes (Js.toLowerCase name) (Js.toLowerCase query).

(** The pattern that matches any sequence. *)
Definition any_sequence : string := ".*".

(** The query with every star replaced by [any_sequence]: the pieces of
    the query between its stars, with [any_sequence] between them. *)
Definition pattern (query : string) : string := Js.join any_sequence (Js.split "*" query).

(** (2) The pattern, compiled case-insensitively, matches the name; a
    pattern that does not compile matches nothing. *)
Definition wildcard (RegExp_test : string -> string -> option bool) (query name : string) : bool :=
  match RegExp_test (pattern query) name with
  | Some true => true
  | _ => false
  end.

(** The non-empty pieces of a text between runs of white space. *)
Definition keywords (text : string) : list string :=
  List.filter (fun k => negb (String.eqb k "")) (Js.split_ws text).

(** (3) as the claim words it: the case-folded name contains a keyword
    of the query. *)
Definition keyword_or_stated (query name : string) : bool :=
  existsb (fun k => Js.includes (Js.toLowerCase name) k) (keywords query).

(** (3) as the code has it: the case-folded name contains a keyword of
    the case-folded query. *)
Definition keyword_or (query name : string) : bool :=
  existsb (fun k => Js.includes (Js.toLowerCase name) k) (keywords (Js.toLowerCase query)).

Fixpoint first_success (strategies : list (string -> string -> bool)) (query name : string) : bool :=
  match strategies with
  | [] => false
  | s :: rest => if s query name then true else first_success rest query name
  end.

(** The policy as the claim words it. *)
Definition stated (RegExp_test : string -> string -> option bool) : string -> string -> bool :=
  first_success [substring; wildcard RegExp_test; keyword_or_stated].

(** The policy with the keywords taken from the case-folded query. *)
Definition matches (RegExp_test : string -> string -> option bool) : string -> string -> bool :=
  first_success [substring; wildcard RegExp_test; keyword_or].

End Policy.

(** An engine for the fragment of the JavaScript patterns that consists of
    literal characters, [.] and a star after either, matched
    case-insensitively anywhere in the input; it is used on patterns of
    that fragment only. *)
Module Fragment.

Definition char_matches (c t : ascii) : bool :=
  if Ascii.eqb c "."%char then
    negb (Ascii.eqb t (ascii_of_nat 10) || Ascii.eqb t (ascii_of_nat 13))
  else Ascii.eqb (Js.lower_ascii c) (Js.lower_ascii t).

Fixpoint match_here (re : string) : string -> bool :=
  match re with
  | EmptyString => fun _ => true
  | String c re1 =>
      match re1 with
      | String "*"%char re2 =>
          fix star (input : string) : bool :=
            match_here re2 input ||
            match input with
            | EmptyString => false
            | String t input' => char_matches c t && star input'
            end
      | _ => fun input =>
          match input with
          | EmptyString => false
          | String t input' => char_matches c t && match_here re1 input'
          end
      end
  end.

Fixpoint match_anywhere (re input : string) : bool :=
  match_here re input ||
  match input with
  | EmptyString => false
  | String _ input' => match_anywhere re input'
  end.

Definition test (pattern input : string) : option bool :=
  if Js.startsWith pattern "*" then None else Some (match_anywhere pattern input).

End Fragment.


(** ** Splitting, and canonical locations *)


Section Locations.
Import Fs.

(** Whether a link met with [rest] still to go is followed. *)
Definition followed (f : bool) (rest : list string) : bool :=
  match rest, f with
  | [], false => false
  | _, _ => true
  end.

(** A name a path can consist of, and a name a node can have. *)
Definition okname (n : string) : Prop := Js.free_of "/" n = true /\ n <> "" /\ n <> ".".
Definition proper (n : string) : Prop := okname n /\ n <> "..".

(** A chain of directories from the root. *)
Inductive dirpath (fs : files) : list string -> Prop :=
| dirpath_root : dirpath fs []
| dirpath_snoc (d : list string) (c : string) :
    dirpath fs d -> proper c -> fs !! (d ++ [c]) = Some Dir -> dirpath fs (d ++ [c]).

(** Where a resolution that follows links can end: at a directory, or at
    a regular file in one. *)
Definition settled (fs : files) (r : list string) : Prop :=
  dirpath fs r
  \/ exists d c x, r = d ++ [c] /\ dirpath fs d /\ proper c /\ fs !! r = Some (File x).

End Locations.

(** ** Notions for further properties *)

(** The error of [validatePath] for a path outside the vault. *)
Definition outsideError (cwd homedir vaultArg absolute : string) : Fs.error :=
  Fs.Error ("Access denied - path outside allowed directories: " +:+ absolute
            +:+ " not in " +:+ Js.join ", " (Server.vaultDirectories cwd homedir vaultArg)).

(** What [normalizeString] leaves: leading [".."] segments (only when the
    path may climb above its start), then names. *)
Definition normal (allowAboveRoot : bool) (l : list string) : Prop :=
  exists k names,
    l = repeat ".." k ++ names /\ Forall proper names /\ (allowAboveRoot = false -> k = 0).

(** Some name of the list begins with a dot. *)
Definition dotted (l : list string) : bool := existsb (fun part => Js.startsWith part ".") l.

(** A resolution that does not fail. *)
Definition reaches (o : Fs.outcome) : Prop :=
  match o with
  | Fs.Found _ | Fs.Absent _ => True
  | Fs.Fail _ => False
  end.

(** The calls that only look a path up. *)
Definition lookup_call (c : Io.call) : bool :=
  match c with
  | Io.Realpath _ | Io.Readdir _ => true
  | _ => false
  end.

(** The [results] array when a call of [search] has ended. *)
Definition results_of (w : Server.walked) : list string :=
  match w with
  | Server.Walked results | Server.Rejected _ results => results
  | Server.Unfinished => []
  end.

(** [out] is [results] with more results pushed, each of them a [Q]. *)
Definition extends (Q : string -> Prop) (results out : list string) : Prop :=
  exists added, out = results ++ added /\ Forall Q added.

(** A result of a search from the directory [zs], which is at [r0] in
    the tree: the path, relative to [zs], of a node [ds ++ [n]] below [r0]
    that passed validation, ends in [.md] and matches the query; every
    directory from [r0] down to the node is a directory of the tree. *)
Definition listed (cwd homedir vaultArg : string) (RegExp_test : string -> string -> option bool)
  (fs : Fs.files) (query : string) (zs r0 : list string) (res : string) : Prop :=
  exists ds n nd,
    Fs.render zs +:+ res = Fs.render (zs ++ ds ++ [n])
    /\ Forall proper (ds ++ [n])
    /\ Js.endsWith n ".md" = true
    /\ Server.entry_matches RegExp_test query n = true
    /\ (exists v, validated cwd homedir vaultArg fs (Fs.render (zs ++ ds ++ [n])) = Io.Ok v)
    /\ Fs.locate cwd fs true (Fs.render (zs ++ ds)) = Fs.Found (r0 ++ ds)
    /\ Fs.is_dir fs (r0 ++ ds) = true
    /\ fs !! (r0 ++ ds ++ [n]) = Some nd
    /\ (forall k, Fs.is_dir fs (r0 ++ take k ds) = true).

(** ** Example trees *)

(** A vault at [/vault] with a note, a sub-directory, a hidden directory, a
    link that leaves the vault, and a sibling directory [/vault2]. *)
Definition sample_tree : Fs.files :=
  list_to_map
    [ (["vault"], Fs.Dir);
      (["vault"; "a.md"], Fs.File "hello");
      (["vault"; "sub"], Fs.Dir);
      (["vault"; "sub"; "b.md"], Fs.File "b");
      (["vault"; ".obsidian"], Fs.Dir);
      (["vault"; ".obsidian"; "app.json"], Fs.File "{}");
      (["vault"; "link"], Fs.Symlink "/etc/secret");
      (["etc"], Fs.Dir);
      (["etc"; "secret"], Fs.File "root:x");
      (["vault2"], Fs.Dir);
      (["vault2"; "x"], Fs.File "other") ].

Definition no_regexp (pattern input : string) : option bool := None.

(** The vault of the specification's wildcard example. *)
Definition wildcard_tree : Fs.files :=
  list_to_map
    [ (["vault"], Fs.Dir);
      (["vault"; "abc.md"], Fs.File "");
      (["vault"; "axxxc.md"], Fs.File "");
      (["vault"; "ab.md"], Fs.File "") ].

(** A vault with the notes of the keyword example. *)
Definition keyword_tree : Fs.files :=
  list_to_map
    [ (["vault"], Fs.Dir);
      (["vault"; "xfoo.md"], Fs.File "");
      (["vault"; "other.md"], Fs.File "") ].

(** A vault with a note only. *)
Definition note_tree : Fs.files :=
  list_to_map [ (["vault"], Fs.Dir); (["vault"; "a.md"], Fs.File "hello") ].


(** A content that is not a well-formed string: the lone surrogate
    U+D800. *)
Definition lone_surrogate : string :=
  String (ascii_of_nat 237) (String (ascii_of_nat 160) (String (ascii_of_nat 128) EmptyString)).

(** A name of 259 bytes, more than a name can have. *)
Definition long_name : string := Js.join "" (repeat "a" 256) +:+ ".md".

(** A vault at [/Vault]: the name has a capital letter. *)
Definition capital_tree : Fs.files :=
  list_to_map [ (["Vault"], Fs.Dir); (["Vault"; "a.md"], Fs.File "hello") ].

(** * Properties *)

(** ** The primitives at work *)

Example split_abs : Js.split "/" "/vault/a.md" = [""; "vault"; "a.md"].
Proof. reflexivity. Qed.
Example split_ws_ex : Js.split_ws " foo  bar " = [""; "foo"; "bar"; ""].
Proof. reflexivity. Qed.
Example of_nat_ex : Js.of_nat 205 = "205".
Proof. reflexivity. Qed.
Example stars_ex : Js.replace_stars "a*c" = "a.*c".
Proof. reflexivity. Qed.
Example rm_ex : Js.remove_first "/vault/a/b.md" "/vault" = "/a/b.md".
Proof. reflexivity. Qed.

Example normalize_ex1 : Path.normalize "/Vault//a/./b/../c.md" = "/Vault/a/c.md".
Proof. reflexivity. Qed.
Example normalize_ex2 : Path.normalize "../a/../../b/" = "../../b/".
Proof. reflexivity. Qed.
Example normalize_ex3 : Path.normalize "/.." = "/".
Proof. reflexivity. Qed.
Example join_ex1 : Path.join ["/vault"; "/notes/x.md"] = "/vault/notes/x.md".
Proof. reflexivity. Qed.
Example join_ex2 : Path.join ["/vault"; "../etc/passwd"] = "/etc/passwd".
Proof. reflexivity. Qed.
Example join_ex3 : Path.join ["/vault"; "/"] = "/vault/".
Proof. reflexivity. Qed.
Example resolve_ex1 : Path.resolve "/home/u" ["notes/../x.md"] = "/home/u/x.md".
Proof. reflexivity. Qed.
Example resolve_ex2 : Path.resolve "/home/u" ["/vault/"] = "/vault".
Proof. reflexivity. Qed.
Example resolve_ex3 : Path.resolve "/home/u" ["/a"; "b"; "/c"; "d"] = "/c/d".
Proof. reflexivity. Qed.
Example dirname_ex1 : Path.dirname "/vault/a/b.md" = "/vault/a".
Proof. reflexivity. Qed.
Example dirname_ex2 : Path.dirname "/vault" = "/".
Proof. reflexivity. Qed.
Example dirname_ex3 : Path.dirname "/a//b" = "/a/".
Proof. reflexivity. Qed.
Example dirname_ex4 : Path.dirname "//a" = "//".
Proof. reflexivity. Qed.
Example dirname_ex5 : Path.dirname "a/b/" = "a".
Proof. reflexivity. Qed.
Example dirname_ex6 : Path.dirname "/" = "/".
Proof. reflexivity. Qed.
Example dirname_ex7 : Path.dirname "a" = ".".
Proof. reflexivity. Qed.


(** ** Splitting and joining *)

Section StringFacts.

Lemma append_nil_l (s : string) : "" +:+ s = s.
Proof. reflexivity. Qed.

Lemma append_cons (c : ascii) (a b : string) : String c a +:+ b = String c (a +:+ b).
Proof. reflexivity. Qed.

Lemma append_nil_r (s : string) : s +:+ "" = s.
Proof. induction s as [|c s IH]; [reflexivity|]. rewrite append_cons, IH. reflexivity. Qed.

Lemma append_assoc (a b c : string) : (a +:+ b) +:+ c = a +:+ b +:+ c.
Proof. induction a as [|x a IH]; [reflexivity|]. rewrite !append_cons, IH. reflexivity. Qed.

Lemma prefix_append (a b : string) : String.prefix a (a +:+ b) = true.
Proof.
  induction a as [|x a IH]; [destruct b; reflexivity|].
  rewrite append_cons. simpl. destruct (ascii_dec x x); [exact IH|congruence].
Qed.

Lemma toWellFormed_step (a b c : ascii) (rest : string) :
  Js.toWellFormed (String a (String b (String c rest)))
  = if Js.surrogate a b c then Js.REPLACEMENT +:+ Js.toWellFormed rest
    else String a (Js.toWellFormed (String b (String c rest))).
Proof. reflexivity. Qed.

Lemma isWellFormed_step (a b c : ascii) (rest : string) :
  Js.isWellFormed (String a (String b (String c rest)))
  = negb (Js.surrogate a b c) && Js.isWellFormed (String b (String c rest)).
Proof. reflexivity. Qed.

(** A well-formed string is stored as it is. *)
Lemma toWellFormed_id (s : string) : Js.isWellFormed s = true -> Js.toWellFormed s = s.
Proof.
  induction s as [|a t IH]; [reflexivity|].
  destruct t as [|b [|c rest]]; [reflexivity..|].
  rewrite isWellFormed_step, toWellFormed_step. intros [Ha Ht]%andb_prop.
  apply negb_true_iff in Ha. rewrite Ha, (IH Ht). reflexivity.
Qed.

Lemma startsWith_split (s d : string) :
  Js.startsWith s d = true -> exists t, s = d +:+ t.
Proof.
  unfold Js.startsWith. revert s. induction d as [|c d IH]; intros s H.
  - exists s. reflexivity.
  - destruct s as [|c' s]; [discriminate|]. cbn [String.prefix] in H.
    destruct (ascii_dec c c') as [<-|]; [|discriminate].
    destruct (IH _ H) as [t ->]. exists t. reflexivity.
Qed.

Lemma split_nonempty (sep : ascii) (s : string) : Js.split sep s <> [].
Proof.
  induction s as [|c s IH]; simpl; [discriminate|].
  destruct (Ascii.eqb c sep); [discriminate|].
  destruct (Js.split sep s); discriminate.
Qed.

Lemma split_cons_other (sep c : ascii) (s : string) :
  Ascii.eqb c sep = false ->
  exists h t, Js.split sep s = h :: t /\ Js.split sep (String c s) = String c h :: t.
Proof.
  intros Hc. simpl. rewrite Hc.
  destruct (Js.split sep s) as [|h t] eqn:E; [exfalso; eapply split_nonempty; eauto|].
  eauto.
Qed.

(** Splitting distributes over a separator. *)
Lemma split_app (sep : ascii) (a b : string) :
  Js.split sep (a +:+ String sep b) = Js.split sep a ++ Js.split sep b.
Proof.
  induction a as [|c a IH].
  - rewrite append_nil_l. simpl. rewrite Ascii.eqb_refl. reflexivity.
  - rewrite append_cons. simpl. destruct (Ascii.eqb c sep) eqn:Hc.
    + rewrite IH. reflexivity.
    + rewrite IH.
      destruct (Js.split sep a) as [|h t] eqn:E; [exfalso; eapply split_nonempty; eauto|].
      reflexivity.
Qed.

Lemma split_free (sep : ascii) (s : string) : Js.free_of sep s = true -> Js.split sep s = [s].
Proof.
  induction s as [|c s IH]; simpl; [reflexivity|].
  intros [Hc Hs]%andb_prop. apply negb_true_iff in Hc. rewrite Hc, (IH Hs). reflexivity.
Qed.

Lemma split_pieces_free (sep : ascii) (s : string) :
  Forall (fun x => Js.free_of sep x = true) (Js.split sep s).
Proof.
  induction s as [|c s IH]; simpl.
  - repeat constructor.
  - destruct (Ascii.eqb c sep) eqn:Hc.
    + constructor; [reflexivity|exact IH].
    + destruct (Js.split sep s) as [|h t]; [repeat constructor; simpl; rewrite Hc; reflexivity|].
      inversion IH; subst. constructor; [|assumption]. simpl. rewrite Hc. assumption.
Qed.

Lemma join_cons (sep x y : string) (l : list string) :
  Js.join sep (x :: y :: l) = x +:+ sep +:+ Js.join sep (y :: l).
Proof. reflexivity. Qed.

(** Joining and splitting again gives the pieces back. *)
Lemma split_join (sep : ascii) (l : list string) :
  l <> [] -> Forall (fun x => Js.free_of sep x = true) l ->
  Js.split sep (Js.join (String sep "") l) = l.
Proof.
  induction l as [|x l IH]; [congruence|].
  intros _ Hl. inversion Hl as [|? ? Hx Hl']; subst.
  destruct l as [|y l].
  - simpl. apply split_free, Hx.
  - rewrite join_cons. change (String sep "" +:+ ?s) with (String sep s).
    rewrite split_app, (split_free _ _ Hx), IH; [reflexivity|discriminate|assumption].
Qed.

End StringFacts.

(** ** The path validator *)

Section ValidatorFacts.
Import Fs Io.
Variables (cwd homedir vaultArg : string).

Local Abbreviation validatePath := (Server.validatePath cwd homedir vaultArg).
Local Abbreviation insideVault := (Server.insideVault cwd homedir vaultArg).
Local Abbreviation absoluteOf := (Server.absoluteOf cwd homedir).
Local Abbreviation normalizePath := Server.normalizePath.
Local Abbreviation hiddenSegment := Server.hiddenSegment.

Lemma validatePath_value (fs : files) (p : string) :
  value (validatePath p fs) = validated cwd homedir vaultArg fs p.
Proof.
  unfold validated, Server.validatePath, parentCheck, parentMissingError.
  destruct (hiddenSegment p); [reflexivity|].
  destruct (insideVault (normalizePath (absoluteOf p))); simpl; [|reflexivity].
  unfold try_catch, bind, Server.fs_realpath, query, throw, ret.
  destruct (realpath cwd fs (absoluteOf p)) as [e|rp]; simpl.
  - destruct (realpath cwd fs (Path.dirname (absoluteOf p))) as [e'|rpp]; simpl; [reflexivity|].
    destruct (insideVault (normalizePath rpp)); reflexivity.
  - destruct (insideVault (normalizePath rp)); simpl; [reflexivity|].
    destruct (realpath cwd fs (Path.dirname (absoluteOf p))) as [e'|rpp]; simpl; [reflexivity|].
    destruct (insideVault (normalizePath rpp)); reflexivity.
Qed.

(** Validation only looks. *)
Lemma validatePath_tree (fs : files) (p : string) : tree (validatePath p fs) = fs.
Proof.
  unfold Server.validatePath.
  destruct (hiddenSegment p); [reflexivity|].
  destruct (insideVault (normalizePath (absoluteOf p))); simpl; [|reflexivity].
  unfold try_catch, bind, Server.fs_realpath, query, throw, ret.
  destruct (realpath cwd fs (absoluteOf p)) as [e|rp]; simpl.
  - destruct (realpath cwd fs (Path.dirname (absoluteOf p))) as [e'|rpp]; simpl; [reflexivity|].
    destruct (insideVault (normalizePath rpp)); reflexivity.
  - destruct (insideVault (normalizePath rp)); simpl; [reflexivity|].
    destruct (realpath cwd fs (Path.dirname (absoluteOf p))) as [e'|rpp]; simpl; [reflexivity|].
    destruct (insideVault (normalizePath rpp)); reflexivity.
Qed.

(** Inside the vault is: begins with the vault directory's string. *)
Lemma insideVault_begins (s : string) :
  insideVault s = true <-> begins (Server.vaultDirectory0 cwd homedir vaultArg) s.
Proof.
  unfold Server.insideVault, Server.vaultDirectory0, Server.vaultDirectories, begins.
  cbn [existsb hd]. rewrite orb_false_r. split.
  - apply startsWith_split.
  - intros [rest ->]. apply prefix_append.
Qed.

(** Where the real path is missing or outside, the parent decides. *)
Lemma validated_parent_decides (fs : files) (p : string) :
  hiddenSegment p = false ->
  insideVault (normalizePath (absoluteOf p)) = true ->
  (forall realPath,
      realpath cwd fs (absoluteOf p) = inr realPath ->
      insideVault (normalizePath realPath) = false) ->
  validated cwd homedir vaultArg fs p = parentCheck cwd homedir vaultArg fs (absoluteOf p).
Proof.
  intros Hhid Hreq. unfold validated. rewrite Hhid, Hreq.
  destruct (realpath cwd fs (absoluteOf p)) as [e|rp]; [reflexivity|].
  intros Hreal. rewrite (Hreal rp eq_refl). reflexivity.
Qed.

Lemma parentCheck_decides (fs : files) (absolute : string) :
  (forall realParent,
      realpath cwd fs (Path.dirname absolute) = inr realParent ->
      insideVault (normalizePath realParent) = true ->
      parentCheck cwd homedir vaultArg fs absolute = Ok absolute)
  /\ ((forall realParent,
          realpath cwd fs (Path.dirname absolute) = inr realParent ->
          insideVault (normalizePath realParent) = false) ->
      parentCheck cwd homedir vaultArg fs absolute = Throw (parentMissingError absolute)).
Proof.
  unfold parentCheck. split.
  - intros realParent -> ->. reflexivity.
  - destruct (realpath cwd fs (Path.dirname absolute)) as [e|rpp]; [reflexivity|].
    intros Hpar. rewrite (Hpar rpp eq_refl). reflexivity.
Qed.

(** A hidden segment ends validation at once. *)
Lemma validatePath_hidden (fs : files) (p : string) :
  hiddenSegment p = true -> validatePath p fs = (Throw hiddenError, fs, []).
Proof. intros H. unfold Server.validatePath. rewrite H. reflexivity. Qed.

(** The error raised for a real path outside the vault never leaves
    [validatePath]: its own [catch] takes it. *)
Lemma validatePath_never_symlink_error (fs : files) (p : string) :
  value (validatePath p fs)
  <> Throw (Error "Access denied - symlink target outside allowed directories")
  /\ value (validatePath p fs)
  <> Throw (Error "Access denied - parent directory outside allowed directories").
Proof.
  rewrite validatePath_value. unfold validated, parentCheck, parentMissingError, hiddenError.
  split.
  all: destruct (hiddenSegment p); [discriminate|].
  all: destruct (insideVault _); [|intros [=H]; revert H; clear; intros H;
         apply (f_equal (fun s => String.get 16 s)) in H; discriminate].
  all: repeat match goal with
       | |- context [match ?x with _ => _ end] => destruct x
       end; discriminate.
Qed.

End ValidatorFacts.

(** C2. A requested path with a segment that begins with a dot is refused
    with the hidden-entry "Access denied" error, whatever the tree holds
    and wherever the path points, and no call to the file system is made:
    the log of calls is empty and the tree is untouched. *)
Theorem hidden_segment_denied_before_any_access
  (cwd homedir vaultArg : string) (fs : Fs.files) (p seg : string) :
  In seg (Js.split Path.sep p) ->
  Js.startsWith seg "." = true ->
  Server.validatePath cwd homedir vaultArg p fs = (Io.Throw hiddenError, fs, [])
  /\ AccessDenied hiddenError.
Proof.
  intros Hin Hdot. split; [|reflexivity].
  apply validatePath_hidden. unfold Server.hiddenSegment.
  apply existsb_exists. exists seg. split; assumption.
Qed.

Lemma hidden_segment_denied_before_any_access_witness :
  Server.validatePath "/" "/home/u" "/vault" "/vault/.obsidian/app.json" sample_tree
  = (Io.Throw hiddenError, sample_tree, [])
  /\ Server.validatePath "/" "/home/u" "/vault" "/etc/.profile" sample_tree
     = (Io.Throw hiddenError, sample_tree, []).
Proof.
  split.
  - apply (hidden_segment_denied_before_any_access "/" "/home/u" "/vault" sample_tree
             "/vault/.obsidian/app.json" ".obsidian"); [simpl; tauto | reflexivity].
  - apply (hidden_segment_denied_before_any_access "/" "/home/u" "/vault" sample_tree
             "/etc/.profile" ".profile"); [simpl; tauto | reflexivity].
Defined.

(** C10. A requested path with a ["."] or [".."] segment is refused with
    the hidden-entry error before anything is resolved, so no path reaches
    the containment checks through a parent-directory step, also when it
    would resolve to a place inside the vault. *)
Theorem dot_segments_rejected_as_hidden
  (cwd homedir vaultArg : string) (fs : Fs.files) (p : string) :
  In "." (Js.split Path.sep p) \/ In ".." (Js.split Path.sep p) ->
  Server.validatePath cwd homedir vaultArg p fs = (Io.Throw hiddenError, fs, [])
  /\ AccessDenied hiddenError.
Proof.
  intros H. split; [|reflexivity].
  apply validatePath_hidden. unfold Server.hiddenSegment.
  apply existsb_exists. destruct H as [H|H]; eexists; (split; [exact H|reflexivity]).
Qed.

Lemma dot_segments_rejected_as_hidden_witness :
  Server.absoluteOf "/" "/home/u" "/vault/sub/../a.md" = "/vault/a.md"
  /\ Io.value (Server.validatePath "/" "/home/u" "/vault" "/vault/a.md" sample_tree)
     = Io.Ok "/vault/a.md"
  /\ Server.validatePath "/" "/home/u" "/vault" "/vault/sub/../a.md" sample_tree
     = (Io.Throw hiddenError, sample_tree, [])
  /\ Server.validatePath "/" "/home/u" "/vault" "/vault/./a.md" sample_tree
     = (Io.Throw hiddenError, sample_tree, []).
Proof.
  split; [reflexivity|]. split; [vm_compute; reflexivity|]. split.
  - apply (dot_segments_rejected_as_hidden "/" "/home/u" "/vault" sample_tree
             "/vault/sub/../a.md"). right. simpl. tauto.
  - apply (dot_segments_rejected_as_hidden "/" "/home/u" "/vault" sample_tree
             "/vault/./a.md"). left. simpl. tauto.
Defined.

(** C9. Each containment decision of [validatePath] is the bare test
    [startsWith] on normalized strings, nothing more and nothing less: a
    string counts as inside exactly when it is the vault directory's string
    followed by anything, no separator required.  The requested absolute
    path is refused as outside exactly when its normalized form does not
    begin with the vault string; the real path is returned exactly when its
    normalized form does; otherwise the real parent decides, in the same
    way, between the absolute path and the refusal. *)
Theorem containment_is_bare_prefix
  (cwd homedir vaultArg : string) (fs : Fs.files) (p : string) :
  Server.hiddenSegment p = false ->
  (forall s, Server.insideVault cwd homedir vaultArg s = true
             <-> begins (Server.vaultDirectory0 cwd homedir vaultArg) s)
  /\ (~ begins (Server.vaultDirectory0 cwd homedir vaultArg)
          (Server.normalizePath (Server.absoluteOf cwd homedir p)) ->
      Server.validatePath cwd homedir vaultArg p fs
      = (Io.Throw (outsideError cwd homedir vaultArg (Server.absoluteOf cwd homedir p)), fs, []))
  /\ (begins (Server.vaultDirectory0 cwd homedir vaultArg)
         (Server.normalizePath (Server.absoluteOf cwd homedir p)) ->
      (forall realPath,
          Fs.realpath cwd fs (Server.absoluteOf cwd homedir p) = inr realPath ->
          begins (Server.vaultDirectory0 cwd homedir vaultArg) (Server.normalizePath realPath) ->
          Io.value (Server.validatePath cwd homedir vaultArg p fs) = Io.Ok realPath)
      /\ ((forall realPath,
              Fs.realpath cwd fs (Server.absoluteOf cwd homedir p) = inr realPath ->
              ~ begins (Server.vaultDirectory0 cwd homedir vaultArg)
                  (Server.normalizePath realPath)) ->
          (forall realParent,
              Fs.realpath cwd fs (Path.dirname (Server.absoluteOf cwd homedir p))
              = inr realParent ->
              begins (Server.vaultDirectory0 cwd homedir vaultArg)
                (Server.normalizePath realParent) ->
              Io.value (Server.validatePath cwd homedir vaultArg p fs)
              = Io.Ok (Server.absoluteOf cwd homedir p))
          /\ ((forall realParent,
                  Fs.realpath cwd fs (Path.dirname (Server.absoluteOf cwd homedir p))
                  = inr realParent ->
                  ~ begins (Server.vaultDirectory0 cwd homedir vaultArg)
                      (Server.normalizePath realParent)) ->
              Io.value (Server.validatePath cwd homedir vaultArg p fs)
              = Io.Throw (parentMissingError (Server.absoluteOf cwd homedir p))))).
Proof.
  intros Hhid.
  pose proof (insideVault_begins cwd homedir vaultArg) as Hin.
  split; [exact Hin|]. split.
  - intros Hout. unfold Server.validatePath. rewrite Hhid.
    destruct (Server.insideVault cwd homedir vaultArg
                (Server.normalizePath (Server.absoluteOf cwd homedir p))) eqn:E; [|reflexivity].
    apply Hin in E. contradiction.
  - intros Hreq. apply Hin in Hreq.
    rewrite validatePath_value. split.
    + unfold validated. rewrite Hhid, Hreq.
      intros realPath -> Hreal. apply Hin in Hreal. rewrite Hreal. reflexivity.
    + intros Hreal.
      assert (Hout : forall b, (b = true -> False) -> b = false) by (intros []; tauto).
      rewrite (validated_parent_decides cwd homedir vaultArg fs p Hhid Hreq).
      2:{ intros rp Hrp. apply Hout. intros E. apply Hin in E. exact (Hreal rp Hrp E). }
      destruct (parentCheck_decides cwd homedir vaultArg fs (Server.absoluteOf cwd homedir p))
        as [Hyes Hno].
      split.
      * intros realParent Hrpp Hpar. apply (Hyes realParent Hrpp). apply Hin, Hpar.
      * intros Hpar. apply Hno. intros rpp Hrpp. apply Hout. intros E. apply Hin in E.
        exact (Hpar rpp Hrpp E).
Qed.

(** The sibling [/vault2] of the vault [/vault]: its paths begin with the
    vault string and are accepted, those that exist and those that do
    not; a path that does not begin with it is refused. *)
Lemma containment_is_bare_prefix_witness :
  begins (Server.vaultDirectory0 "/" "/home/u" "/vault") "/vault2/x"
  /\ Server.insideVault "/" "/home/u" "/vault" "/vault2/x" = true
  /\ Io.value (Server.validatePath "/" "/home/u" "/vault" "/vault2/x" sample_tree)
     = Io.Ok "/vault2/x"
  /\ Io.value (Server.validatePath "/" "/home/u" "/vault" "/vault2/new.md" sample_tree)
     = Io.Ok "/vault2/new.md"
  /\ Server.validatePath "/" "/home/u" "/vault" "/etc/secret" sample_tree
     = (Io.Throw (outsideError "/" "/home/u" "/vault" "/etc/secret"), sample_tree, []).
Proof.
  assert (Hb : forall t, begins (Server.vaultDirectory0 "/" "/home/u" "/vault") ("/vault" +:+ t)).
  { intros t. exists t. reflexivity. }
  split; [exact (Hb "2/x")|]. split; [|split; [|split]].
  - apply (proj1 (containment_is_bare_prefix "/" "/home/u" "/vault" sample_tree "/vault2/x"
                    eq_refl)). exact (Hb "2/x").
  - destruct (containment_is_bare_prefix "/" "/home/u" "/vault" sample_tree "/vault2/x" eq_refl)
      as (_ & _ & H).
    apply (proj1 (H (Hb "2/x")) "/vault2/x"); [vm_compute; reflexivity|exact (Hb "2/x")].
  - destruct (containment_is_bare_prefix "/" "/home/u" "/vault" sample_tree "/vault2/new.md"
                eq_refl) as (_ & _ & H).
    destruct (H (Hb "2/new.md")) as [_ H'].
    assert (Hnone : Fs.realpath "/" sample_tree (Server.absoluteOf "/" "/home/u" "/vault2/new.md")
                    = inl Fs.ENOENT) by (vm_compute; reflexivity).
    apply (proj1 (H' ltac:(intros realPath Hreal; rewrite Hnone in Hreal; discriminate))
             "/vault2"); [vm_compute; reflexivity|exact (Hb "2")].
  - apply (proj1 (proj2 (containment_is_bare_prefix "/" "/home/u" "/vault" sample_tree
                           "/etc/secret" eq_refl))).
    assert (Hno : Server.insideVault "/" "/home/u" "/vault"
                    (Server.normalizePath (Server.absoluteOf "/" "/home/u" "/etc/secret")) = false)
      by (vm_compute; reflexivity).
    intros Hyes.
    apply (proj1 (containment_is_bare_prefix "/" "/home/u" "/vault" sample_tree "/etc/secret"
                    eq_refl)) in Hyes.
    rewrite Hno in Hyes. discriminate.
Defined.

(** C1, at the input where it fails.  [/vault/link] is a link inside the
    vault to [/etc/secret], outside it.  The real path is found and is
    outside the vault, yet [validatePath] returns the link's own path, and
    [read_notes] then hands out the file behind the link. *)
Theorem symlink_escape_is_admitted :
  Fs.realpath "/" sample_tree "/vault/link" = inr "/etc/secret"
  /\ Server.insideVault "/" "/home/u" "/vault" (Server.normalizePath "/etc/secret") = false
  /\ Io.value (Server.validatePath "/" "/home/u" "/vault" "/vault/link" sample_tree)
     = Io.Ok "/vault/link"
  /\ Io.value (Server.callTool "/" "/home/u" "/vault" no_regexp (Server.ReadNotes ["link"])
                 sample_tree)
     = Io.Ok (Some (Server.Response ("link:" +:+ nl +:+ "root:x" +:+ nl) false)).
Proof. repeat split; vm_compute; reflexivity. Qed.

(** ** Search: the matching policy and the reply *)

Lemma lower_empty (s : string) : String.eqb (Js.toLowerCase s) "" = String.eqb s "".
Proof. destruct s; reflexivity. Qed.

Lemma existsb_map_compose {A B} (f : B -> bool) (g : A -> B) (l : list A) :
  existsb f (map g l) = existsb (fun x => f (g x)) l.
Proof. induction l as [|x l IH]; simpl; [reflexivity|]. rewrite IH. reflexivity. Qed.

Lemma join_cons_head (sep : string) (c : ascii) (h : string) (t : list string) :
  Js.join sep (String c h :: t) = String c (Js.join sep (h :: t)).
Proof. destruct t; reflexivity. Qed.

(** Replacing the stars one by one gives the pieces between the stars
    with [.*] between them. *)
Lemma replace_stars_pattern (query : string) : Js.replace_stars query = Policy.pattern query.
Proof.
  unfold Policy.pattern.
  induction query as [|c q IH]; [reflexivity|].
  cbn [Js.replace_stars Js.split]. destruct (Ascii.eqb c "*") eqn:Hc.
  - destruct (Js.split "*" q) as [|h t] eqn:E; [exfalso; eapply split_nonempty; eauto|].
    rewrite IH. reflexivity.
  - rewrite IH. destruct (Js.split "*" q) as [|h t] eqn:E; [exfalso; eapply split_nonempty; eauto|].
    symmetry. apply join_cons_head.
Qed.

Lemma code_keywords (query : string) :
  List.filter (fun k => 0 <? String.length k) (Js.split_ws (Js.toLowerCase query))
  = Policy.keywords (Js.toLowerCase query).
Proof.
  unfold Policy.keywords.
  induction (Js.split_ws (Js.toLowerCase query)) as [|k l IH]; simpl; [reflexivity|].
  rewrite IH. destruct k; reflexivity.
Qed.

(** C4, as the code has it.  The test the search makes on an entry name
    is the three-strategy policy, first success winning: the case-folded
    name contains the case-folded query; or the query with every star
    replaced by [.*], compiled case-insensitively, matches the name, a
    pattern that does not compile counting as no match; or the case-folded
    name contains one of the non-empty white-space separated keywords of
    the case-folded query.  One visit of an entry adds at most one
    result, and adds it exactly when the entry is a note that the policy
    accepts. *)
Theorem search_matching_policy
  (RegExp_test : string -> string -> option bool) (query name : string) :
  Server.entry_matches RegExp_test query name = Policy.matches RegExp_test query name
  /\ (RegExp_test (Policy.pattern query) name = None ->
      Server.entry_matches RegExp_test query name
      = Policy.substring query name || Policy.keyword_or query name)
  /\ forall basePath fullPath results,
      exists added,
        Server.push_match RegExp_test query basePath fullPath name results = results ++ added
        /\ length added <= 1
        /\ (added <> [] <->
            Js.endsWith name ".md" = true /\ Policy.matches RegExp_test query name = true).
Proof.
  assert (Hm : Server.entry_matches RegExp_test query name = Policy.matches RegExp_test query name).
  { unfold Server.entry_matches, Policy.matches, Policy.first_success,
      Policy.substring, Policy.wildcard, Policy.keyword_or.
    rewrite code_keywords, replace_stars_pattern.
    destruct (Js.includes (Js.toLowerCase name) (Js.toLowerCase query)); simpl; [reflexivity|].
    destruct (RegExp_test (Policy.pattern query) name) as [[]|]; simpl; try reflexivity.
    all: destruct (Policy.keywords (Js.toLowerCase query)) as [|k ks]; simpl; [reflexivity|].
    all: destruct (Js.includes (Js.toLowerCase name) k); simpl; [reflexivity|].
    all: destruct (existsb _ ks); reflexivity. }
  split; [exact Hm|]. split.
  - intros Hnone. rewrite Hm. unfold Policy.matches, Policy.first_success, Policy.wildcard.
    rewrite Hnone. destruct (Policy.substring query name); [reflexivity|].
    destruct (Policy.keyword_or query name); reflexivity.
  - intros basePath fullPath results. unfold Server.push_match. rewrite Hm.
    destruct (Js.endsWith name ".md"); simpl.
    + destruct (Policy.matches RegExp_test query name).
      * eexists. split; [reflexivity|]. split; [simpl; lia|]. split; [tauto|discriminate].
      * exists []. split; [symmetry; apply app_nil_r|]. split; [simpl; lia|].
        split; [congruence|]. intros [_ H]; discriminate.
    + exists []. split; [symmetry; apply app_nil_r|]. split; [simpl; lia|].
      split; [congruence|]. intros [H _]; discriminate.
Qed.

(** C4 as stated fails where a keyword of the query has a capital
    letter: for the query [FOO bar] the name [xfoo.md] does not contain the
    query, the pattern does not match it, and it contains neither [FOO] nor
    [bar]; the code accepts it, because it takes the keywords [foo] and
    [bar] from the case-folded query. *)
Lemma keywords_are_case_folded :
  Policy.substring "FOO bar" "xfoo.md" = false
  /\ Fragment.test (Policy.pattern "FOO bar") "xfoo.md" = Some false
  /\ Policy.keywords "FOO bar" = ["FOO"; "bar"]
  /\ Policy.stated Fragment.test "FOO bar" "xfoo.md" = false
  /\ Server.entry_matches Fragment.test "FOO bar" "xfoo.md" = true
  /\ Io.value (Server.searchNotes "/" "/home/u" "/vault" Fragment.test "FOO bar" keyword_tree)
     = Io.Ok (Some ["/xfoo.md"]).
Proof. repeat split; vm_compute; reflexivity. Qed.

Example search_wildcard_example :
  Io.value (Server.searchNotes "/" "/home/u" "/vault" Fragment.test "a*c" wildcard_tree)
  = Io.Ok (Some ["/abc.md"; "/axxxc.md"]).
Proof. vm_compute. reflexivity. Qed.

Example search_hidden_example :
  Io.value (Server.searchNotes "/" "/home/u" "/vault" Fragment.test "app"
              sample_tree) = Io.Ok (Some []).
Proof. vm_compute. reflexivity. Qed.

(** The stars at work: [a*c] finds [axxxc.md] through the pattern
    [a.*c], and not [c.md], which the query taken as a pattern itself
    would match. *)
Lemma search_matching_policy_witness :
  Policy.pattern "a*c" = "a.*c"
  /\ Server.entry_matches Fragment.test "a*c" "axxxc.md" = true
  /\ Server.entry_matches Fragment.test "a*c" "ab.md" = false
  /\ Fragment.test "a*c" "c.md" = Some true
  /\ Server.entry_matches Fragment.test "a*c" "c.md" = false
  /\ Server.entry_matches no_regexp "FOO bar" "my-Bar.md" = true
  /\ Server.push_match no_regexp "foo" "/vault" "/vault/Foo.md" "Foo.md" [] = ["/Foo.md"].
Proof.
  split; [reflexivity|]. split; [|split; [|split; [reflexivity|split; [|split]]]].
  - rewrite (proj1 (search_matching_policy Fragment.test "a*c" "axxxc.md")). reflexivity.
  - rewrite (proj1 (search_matching_policy Fragment.test "a*c" "ab.md")). reflexivity.
  - rewrite (proj1 (search_matching_policy Fragment.test "a*c" "c.md")). reflexivity.
  - rewrite (proj1 (proj2 (search_matching_policy no_regexp "FOO bar" "my-Bar.md")) eq_refl).
    reflexivity.
  - destruct (proj2 (proj2 (search_matching_policy no_regexp "foo" "Foo.md")) "/vault"
                "/vault/Foo.md" []) as [added [Heq _]].
    reflexivity.
Defined.

Lemma bind_ok {A B} (m : Io.M A) (k : A -> Io.M B) (fs fs' : Fs.files) (a : A) (l : list Io.call) :
  m fs = (Io.Ok a, fs', l) ->
  Io.bind m k fs = (let '(r, fs'', l') := k a fs' in (r, fs'', l ++ l')).
Proof. intros H. unfold Io.bind. rewrite H. reflexivity. Qed.

Lemma bind_throw {A B} (m : Io.M A) (k : A -> Io.M B) (fs fs' : Fs.files) (e : Fs.error)
  (l : list Io.call) :
  m fs = (Io.Throw e, fs', l) -> Io.bind m k fs = (Io.Throw e, fs', l).
Proof. intros H. unfold Io.bind. rewrite H. reflexivity. Qed.

Lemma try_catch_ok {A} (m : Io.M A) (h : Fs.error -> Io.M A) (fs fs' : Fs.files) (a : A)
  (l : list Io.call) :
  m fs = (Io.Ok a, fs', l) -> Io.try_catch m h fs = (Io.Ok a, fs', l).
Proof. intros H. unfold Io.try_catch. rewrite H. reflexivity. Qed.

Lemma try_catch_throw {A} (m : Io.M A) (h : Fs.error -> Io.M A) (fs fs' : Fs.files)
  (e : Fs.error) (l : list Io.call) :
  m fs = (Io.Throw e, fs', l) ->
  Io.try_catch m h fs = (let '(r, fs'', l') := h e fs' in (r, fs'', l ++ l')).
Proof. intros H. unfold Io.try_catch. rewrite H. reflexivity. Qed.

(** The reply text, with the listing and the note taken apart. *)
Lemma search_notes_text_shape (results : list string) :
  Server.search_notes_text results
  = (match firstn Server.SEARCH_LIMIT results with
     | [] => "No matches found"
     | listed => Js.join nl listed
     end)
    +:+ (if Server.SEARCH_LIMIT <? length results then
           nl +:+ nl +:+ "... " +:+ Js.of_nat (length results - Server.SEARCH_LIMIT)
           +:+ " more results not shown."
         else "").
Proof.
  unfold Server.search_notes_text.
  destruct (firstn Server.SEARCH_LIMIT results); reflexivity.
Qed.

Example search_reply_over_limit :
  Server.search_notes_text (repeat "/n.md" 201)
  = Js.join nl (repeat "/n.md" 200) +:+ nl +:+ nl +:+ "... 1 more results not shown.".
Proof. vm_compute. reflexivity. Qed.

Example search_reply_empty : Server.search_notes_text [] = "No matches found".
Proof. vm_compute. reflexivity. Qed.

(** ** Reading notes *)

Section ReadFacts.
Import Fs Io.
Variables (cwd homedir vaultArg : string).

Local Abbreviation validatePath := (Server.validatePath cwd homedir vaultArg).
Local Abbreviation read_note := (Server.read_note cwd homedir vaultArg).

Lemma validatePath_run (fs : files) (p : string) :
  exists l, validatePath p fs = (validated cwd homedir vaultArg fs p, fs, l).
Proof.
  pose proof (validatePath_value cwd homedir vaultArg fs p) as Hv.
  pose proof (validatePath_tree cwd homedir vaultArg fs p) as Ht.
  destruct (validatePath p fs) as [[r fs'] l].
  unfold value, tree in *. cbn [fst snd] in *. subst. eauto.
Qed.

Lemma fs_readFile_run (fs : files) (p : string) :
  Server.fs_readFile cwd p fs
  = (match readFile cwd fs p with
     | inr c => Ok c
     | inl e => Throw (read_error e p)
     end, fs, [ReadFile p]).
Proof. unfold Server.fs_readFile. destruct (readFile cwd fs p); reflexivity. Qed.

(** Reading one note never throws and never changes the tree. *)
Lemma read_note_run (fs : files) (p : string) :
  exists l, read_note p fs = (Ok (read_entry cwd homedir vaultArg fs p), fs, l).
Proof.
  unfold Server.read_note, read_entry. fold (requested cwd homedir vaultArg p).
  destruct (validatePath_run fs (requested cwd homedir vaultArg p)) as [l1 H1].
  destruct (validated cwd homedir vaultArg fs (requested cwd homedir vaultArg p)) as [v|err].
  - destruct (readFile cwd fs v) as [e|c] eqn:Hr.
    + eexists. erewrite try_catch_throw; [reflexivity|].
      erewrite bind_ok; [|exact H1]. erewrite bind_throw; [reflexivity|].
      rewrite fs_readFile_run, Hr. reflexivity.
    + eexists. erewrite try_catch_ok; [reflexivity|].
      erewrite bind_ok; [|exact H1]. erewrite bind_ok; [reflexivity|].
      rewrite fs_readFile_run, Hr. reflexivity.
  - eexists. erewrite try_catch_throw; [reflexivity|].
    erewrite bind_throw; [reflexivity|exact H1].
Qed.

Lemma mapM_read_note (fs : files) (paths : list string) :
  exists l, mapM read_note paths fs = (Ok (map (read_entry cwd homedir vaultArg fs) paths), fs, l).
Proof.
  induction paths as [|p paths [l IH]]; [eexists; reflexivity|].
  destruct (read_note_run fs p) as [l1 H1].
  eexists. simpl mapM. erewrite bind_ok; [|exact H1].
  erewrite bind_ok; [|exact IH]. reflexivity.
Qed.

End ReadFacts.

(** The reply of the tool handler to [read_notes]. *)
Lemma callTool_read_run
  (cwd homedir vaultArg : string) (RegExp_test : string -> string -> option bool)
  (paths : list string) (fs : Fs.files) :
  exists log,
    Server.callTool cwd homedir vaultArg RegExp_test (Server.ReadNotes paths) fs
    = (Io.Ok (Some (Server.Response
                      (Js.join (nl +:+ "---" +:+ nl) (map (read_entry cwd homedir vaultArg fs) paths))
                      false)), fs, log).
Proof.
  destruct (mapM_read_note cwd homedir vaultArg fs paths) as [l Hl].
  eexists.
  change (Server.callTool cwd homedir vaultArg RegExp_test (Server.ReadNotes paths))
    with (Io.try_catch
            (Io.bind (Server.read_notes cwd homedir vaultArg paths) (fun r => Io.ret (Some r)))
            (fun error => Io.ret (Some (Server.Response ("Error: " +:+ Fs.message error) true)))).
  erewrite try_catch_ok; [reflexivity|].
  erewrite bind_ok; [reflexivity|].
  unfold Server.read_notes. erewrite bind_ok; [|exact Hl]. reflexivity.
Qed.

(** C6. [read_notes] answers with one entry for every requested path, in
    the order of the request: entry [i] is what reading path [i] on its
    own gives, the content under the path or an inline ["Error - "] line,
    so a path that fails leaves the others as they are.  The entries are
    joined with a separator line, the reply is not an error, and the tree
    is not changed. *)
Theorem read_notes_one_entry_per_path
  (cwd homedir vaultArg : string) (RegExp_test : string -> string -> option bool)
  (paths : list string) (fs : Fs.files) :
  exists entries log,
    Server.callTool cwd homedir vaultArg RegExp_test (Server.ReadNotes paths) fs
    = (Io.Ok (Some (Server.Response (Js.join (nl +:+ "---" +:+ nl) entries) false)), fs, log)
    /\ length entries = length paths
    /\ forall i p, nth_error paths i = Some p ->
         exists entry,
           nth_error entries i = Some entry
           /\ Io.value (Server.read_note cwd homedir vaultArg p fs) = Io.Ok entry
           /\ ((exists validPath content,
                   Io.value (Server.validatePath cwd homedir vaultArg
                               (requested cwd homedir vaultArg p) fs) = Io.Ok validPath
                   /\ Fs.readFile cwd fs validPath = inr content
                   /\ entry = p +:+ ":" +:+ nl +:+ content +:+ nl)
               \/ (exists error,
                      (Io.value (Server.validatePath cwd homedir vaultArg
                                   (requested cwd homedir vaultArg p) fs) = Io.Throw error
                       \/ exists validPath,
                           Io.value (Server.validatePath cwd homedir vaultArg
                                       (requested cwd homedir vaultArg p) fs) = Io.Ok validPath
                           /\ Io.value (Server.fs_readFile cwd validPath fs) = Io.Throw error)
                      /\ entry = p +:+ ": Error - " +:+ Fs.message error)).
Proof.
  destruct (callTool_read_run cwd homedir vaultArg RegExp_test paths fs) as [l Hl].
  exists (map (read_entry cwd homedir vaultArg fs) paths), l.
  split; [exact Hl|split].
  - apply length_map.
  - intros i p Hp. exists (read_entry cwd homedir vaultArg fs p).
    split; [rewrite nth_error_map, Hp; reflexivity|].
    destruct (read_note_run cwd homedir vaultArg fs p) as [l' Hr].
    split; [rewrite Hr; reflexivity|].
    unfold read_entry. rewrite !validatePath_value.
    destruct (validated cwd homedir vaultArg fs (requested cwd homedir vaultArg p)) as [v|err].
    + destruct (Fs.readFile cwd fs v) as [e|c] eqn:Hread.
      * right. exists (Fs.read_error e v). split; [|reflexivity].
        right. exists v. split; [reflexivity|].
        rewrite fs_readFile_run, Hread. reflexivity.
      * left. exists v, c. auto.
    + right. exists err. split; [left; reflexivity|reflexivity].
Qed.

Example read_notes_mixed_batch :
  Io.value (Server.callTool "/" "/home/u" "/vault" no_regexp
              (Server.ReadNotes ["/a.md"; "../etc/secret"; "sub/b.md"]) sample_tree)
  = Io.Ok (Some (Server.Response
       ("/a.md:" +:+ nl +:+ "hello" +:+ nl
        +:+ nl +:+ "---" +:+ nl
        +:+ "../etc/secret: Error - Access denied - path outside allowed directories: "
        +:+ "/etc/secret not in /vault"
        +:+ nl +:+ "---" +:+ nl
        +:+ "sub/b.md:" +:+ nl +:+ "b" +:+ nl) false)).
Proof.
  vm_compute. reflexivity.
Qed.

(** ** Path resolution *)

Section WalkFacts.
Import Fs.

Lemma walk_unfold (fs : files) (l : nat) (f : bool) (cur todo : list string) :
  walk fs l f cur todo
  = match todo with
    | [] => Found cur
    | c :: rest =>
        if String.eqb c ".." then walk fs l f (removelast cur) rest
        else
          match fs !! (cur ++ [c]) with
          | None => match rest with [] => Absent (cur ++ [c]) | _ => Fail ENOENT end
          | Some Dir => walk fs l f (cur ++ [c]) rest
          | Some (File _) => match rest with [] => Found (cur ++ [c]) | _ => Fail ENOTDIR end
          | Some (Symlink t) =>
              match rest, f with
              | [], false => Found (cur ++ [c])
              | _, _ =>
                  match l with
                  | 0 => Fail ELOOP
                  | S l' => walk fs l' f (start cur t) (names t ++ rest)
                  end
              end
          end
    end.
Proof. destruct l, todo; reflexivity. Qed.

(** Induction along a resolution. *)
Lemma walk_ind (fs : files) (f : bool) (P : nat -> list string -> list string -> outcome -> Prop) :
  (forall l cur, P l cur [] (Found cur)) ->
  (forall l cur rest,
      P l (removelast cur) rest (walk fs l f (removelast cur) rest) ->
      P l cur (".." :: rest) (walk fs l f (removelast cur) rest)) ->
  (forall l cur c rest,
      c <> ".." -> fs !! (cur ++ [c]) = None ->
      P l cur (c :: rest) (match rest with [] => Absent (cur ++ [c]) | _ => Fail ENOENT end)) ->
  (forall l cur c rest,
      c <> ".." -> fs !! (cur ++ [c]) = Some Dir ->
      P l (cur ++ [c]) rest (walk fs l f (cur ++ [c]) rest) ->
      P l cur (c :: rest) (walk fs l f (cur ++ [c]) rest)) ->
  (forall l cur c rest x,
      c <> ".." -> fs !! (cur ++ [c]) = Some (File x) ->
      P l cur (c :: rest) (match rest with [] => Found (cur ++ [c]) | _ => Fail ENOTDIR end)) ->
  (forall l cur c rest t,
      c <> ".." -> fs !! (cur ++ [c]) = Some (Symlink t) -> followed f rest = false ->
      P l cur (c :: rest) (Found (cur ++ [c]))) ->
  (forall cur c rest t,
      c <> ".." -> fs !! (cur ++ [c]) = Some (Symlink t) -> followed f rest = true ->
      P 0 cur (c :: rest) (Fail ELOOP)) ->
  (forall l cur c rest t,
      c <> ".." -> fs !! (cur ++ [c]) = Some (Symlink t) -> followed f rest = true ->
      P l (start cur t) (names t ++ rest) (walk fs l f (start cur t) (names t ++ rest)) ->
      P (S l) cur (c :: rest) (walk fs l f (start cur t) (names t ++ rest))) ->
  forall l cur todo, P l cur todo (walk fs l f cur todo).
Proof.
  intros Hnil Hup Hnone Hdir Hfile Hstop Hloop Hlink.
  induction l as [|l IHl]; intros cur todo; revert cur.
  all: induction todo as [|c rest IHt]; intros cur; rewrite walk_unfold; [apply Hnil|].
  all: destruct (String.eqb c "..") eqn:Hc;
    [apply String.eqb_eq in Hc; subst c; apply Hup, IHt|apply String.eqb_neq in Hc].
  all: destruct (fs !! (cur ++ [c])) as [[x| |t]|] eqn:Hk;
    [eapply Hfile; eauto|apply Hdir; auto|idtac|apply Hnone; auto].
  all: destruct (followed f rest) eqn:Hf.
  - replace (match rest with [] => if f then Fail ELOOP else Found (cur ++ [c]) | _ :: _ => Fail ELOOP end)
      with (Fail ELOOP) by (destruct rest, f; try reflexivity; discriminate).
    eapply Hloop; eauto.
  - replace (match rest with [] => if f then Fail ELOOP else Found (cur ++ [c]) | _ :: _ => Fail ELOOP end)
      with (Found (cur ++ [c])) by (destruct rest, f; try reflexivity; discriminate).
    eapply Hstop; eauto.
  - replace (match rest with
             | [] => if f then walk fs l f (start cur t) (names t ++ rest) else Found (cur ++ [c])
             | _ :: _ => walk fs l f (start cur t) (names t ++ rest) end)
      with (walk fs l f (start cur t) (names t ++ rest))
      by (destruct rest, f; try reflexivity; discriminate).
    eapply Hlink; eauto.
  - replace (match rest with
             | [] => if f then walk fs l f (start cur t) (names t ++ rest) else Found (cur ++ [c])
             | _ :: _ => walk fs l f (start cur t) (names t ++ rest) end)
      with (Found (cur ++ [c])) by (destruct rest, f; try reflexivity; discriminate).
    eapply Hstop; eauto.
Qed.


Lemma walk_absent_free (fs : files) (l : nat) (f : bool) (cur todo r : list string) :
  walk fs l f cur todo = Absent r -> fs !! r = None.
Proof.
  revert r. apply (walk_ind fs f (fun l cur todo o => forall r, o = Absent r -> fs !! r = None));
    clear l cur todo; try discriminate; auto.
  - intros l cur c rest Hc Hk r H. destruct rest; [|discriminate]. congruence.
  - intros l cur c rest x Hc Hk r H. destruct rest; discriminate.
Qed.

(** What resolves with the last link followed exists for [lstat] too. *)
Lemma walk_found_nofollow (fs : files) (l : nat) (cur todo r : list string) :
  walk fs l true cur todo = Found r -> exists r', walk fs l false cur todo = Found r'.
Proof.
  revert r.
  apply (walk_ind fs true
           (fun l cur todo o => forall r, o = Found r -> exists r', walk fs l false cur todo = Found r'));
    clear l cur todo.
  - intros l cur r _. exists cur. rewrite walk_unfold. reflexivity.
  - intros l cur rest IH r H. rewrite walk_unfold. simpl. eauto.
  - intros l cur c rest Hc Hk r H. destruct rest; discriminate.
  - intros l cur c rest Hc Hk IH r H. rewrite walk_unfold, Hk.
    apply String.eqb_neq in Hc. rewrite Hc. eauto.
  - intros l cur c rest x Hc Hk r H. rewrite walk_unfold, Hk.
    apply String.eqb_neq in Hc. rewrite Hc. destruct rest; [eauto|discriminate].
  - intros l cur c rest t Hc Hk Hf. destruct rest; discriminate.
  - intros; discriminate.
  - intros l cur c rest t Hc Hk Hf IH r H. rewrite walk_unfold, Hk.
    apply String.eqb_neq in Hc. rewrite Hc. destruct rest; [eauto|]. eauto.
Qed.

(** Overwriting a regular file changes no resolution. *)
Lemma walk_overwrite (fs : files) (r : list string) (c0 c1 : string) (l : nat) (f : bool)
  (cur todo : list string) :
  fs !! r = Some (File c0) ->
  walk (<[r := File c1]> fs) l f cur todo = walk fs l f cur todo.
Proof.
  intros Hr.
  assert (Hother : forall k nd, fs !! k = nd -> (forall x, nd <> Some (File x)) ->
                                (<[r := File c1]> fs) !! k = nd).
  { intros k nd Hk Hnd. rewrite lookup_insert_ne; [exact Hk|].
    intros ->. rewrite Hr in Hk. subst nd. eapply Hnd; reflexivity. }
  apply (walk_ind fs f (fun l cur todo o => walk (<[r := File c1]> fs) l f cur todo = o));
    clear l cur todo.
  - intros. rewrite walk_unfold. reflexivity.
  - intros l cur rest IH. rewrite walk_unfold. simpl. exact IH.
  - intros l cur c rest Hc Hk. rewrite walk_unfold, (Hother _ _ Hk); [|discriminate].
    apply String.eqb_neq in Hc. rewrite Hc. reflexivity.
  - intros l cur c rest Hc Hk IH. rewrite walk_unfold, (Hother _ _ Hk); [|discriminate].
    apply String.eqb_neq in Hc. rewrite Hc. exact IH.
  - intros l cur c rest x Hc Hk. rewrite walk_unfold.
    apply String.eqb_neq in Hc. rewrite Hc.
    destruct (decide (r = cur ++ [c])) as [->|Hne].
    + rewrite lookup_insert_eq. reflexivity.
    + rewrite lookup_insert_ne, Hk; [reflexivity|exact Hne].
  - intros l cur c rest t Hc Hk Hf. rewrite walk_unfold, (Hother _ _ Hk); [|discriminate].
    apply String.eqb_neq in Hc. rewrite Hc. destruct rest, f; try discriminate. reflexivity.
  - intros cur c rest t Hc Hk Hf. rewrite walk_unfold, (Hother _ _ Hk); [|discriminate].
    apply String.eqb_neq in Hc. rewrite Hc. destruct rest, f; try discriminate; reflexivity.
  - intros l cur c rest t Hc Hk Hf IH. rewrite walk_unfold, (Hother _ _ Hk); [|discriminate].
    apply String.eqb_neq in Hc. rewrite Hc. destruct rest, f; try discriminate; exact IH.
Qed.

(** A name that was free resolves to the file created under it. *)
Lemma walk_created (fs : files) (r : list string) (c : string) (l : nat)
  (cur todo : list string) :
  walk fs l true cur todo = Absent r ->
  walk (<[r := File c]> fs) l true cur todo = Found r.
Proof.
  intros Habs. pose proof (walk_absent_free _ _ _ _ _ _ Habs) as Hr. revert Habs.
  assert (Hother : forall k nd, fs !! k = Some nd -> (<[r := File c]> fs) !! k = Some nd).
  { intros k nd Hk. rewrite lookup_insert_ne; [exact Hk|]. intros ->. congruence. }
  apply (walk_ind fs true
           (fun l cur todo o => o = Absent r -> walk (<[r := File c]> fs) l true cur todo = Found r));
    clear l cur todo; try discriminate.
  - intros l cur rest IH H. rewrite walk_unfold. simpl. auto.
  - intros l cur k rest Hc Hk H. destruct rest; [|discriminate]. injection H as <-.
    rewrite walk_unfold. apply String.eqb_neq in Hc. rewrite Hc, lookup_insert_eq. reflexivity.
  - intros l cur k rest Hc Hk IH H. rewrite walk_unfold, (Hother _ _ Hk).
    apply String.eqb_neq in Hc. rewrite Hc. auto.
  - intros l cur k rest x Hc Hk H. destruct rest; discriminate.
  - intros l cur k rest t Hc Hk Hf IH H. rewrite walk_unfold, (Hother _ _ Hk).
    apply String.eqb_neq in Hc. rewrite Hc. destruct rest; auto.
Qed.

(** A successful resolution survives the creation of a node under a name
    that was free. *)
Lemma walk_found_insert (fs : files) (r : list string) (nd : node) (l : nat) (f : bool)
  (cur todo x : list string) :
  fs !! r = None ->
  walk fs l f cur todo = Found x ->
  walk (<[r := nd]> fs) l f cur todo = Found x.
Proof.
  intros Hr.
  assert (Hother : forall k n, fs !! k = Some n -> (<[r := nd]> fs) !! k = Some n).
  { intros k n Hk. rewrite lookup_insert_ne; [exact Hk|]. intros ->. congruence. }
  apply (walk_ind fs f
           (fun l cur todo o => o = Found x -> walk (<[r := nd]> fs) l f cur todo = Found x));
    clear l cur todo; try discriminate.
  - intros l cur H. rewrite walk_unfold. exact H.
  - intros l cur rest IH H. rewrite walk_unfold. simpl. auto.
  - intros l cur k rest Hc Hk H. destruct rest; discriminate.
  - intros l cur k rest Hc Hk IH H. rewrite walk_unfold, (Hother _ _ Hk).
    apply String.eqb_neq in Hc. rewrite Hc. auto.
  - intros l cur k rest y Hc Hk H. rewrite walk_unfold, (Hother _ _ Hk).
    apply String.eqb_neq in Hc. rewrite Hc. exact H.
  - intros l cur k rest t Hc Hk Hf H. rewrite walk_unfold, (Hother _ _ Hk).
    apply String.eqb_neq in Hc. rewrite Hc. destruct rest, f; try discriminate. exact H.
  - intros l cur k rest t Hc Hk Hf IH H. rewrite walk_unfold, (Hother _ _ Hk).
    apply String.eqb_neq in Hc. rewrite Hc. destruct rest, f; try discriminate; auto.
Qed.


(** *** Canonical locations *)

Lemma dirpath_removelast (fs : files) (d : list string) :
  dirpath fs d -> dirpath fs (removelast d).
Proof.
  intros [|d' c Hd Hc Hk]; [constructor|]. rewrite removelast_last. exact Hd.
Qed.

Lemma dirpath_proper (fs : files) (d : list string) : dirpath fs d -> Forall proper d.
Proof.
  induction 1 as [|d c Hd IH Hc Hk]; [constructor|].
  apply Forall_app. split; [exact IH|]. constructor; [exact Hc|constructor].
Qed.

Lemma settled_proper (fs : files) (r : list string) : settled fs r -> Forall proper r.
Proof.
  intros [H|(d & c & x & -> & Hd & Hc & _)]; [eapply dirpath_proper; eauto|].
  apply Forall_app. split; [eapply dirpath_proper; eauto|]. constructor; [exact Hc|constructor].
Qed.

Lemma names_okname (p : string) : Forall okname (names p).
Proof.
  unfold names. apply Forall_forall. intros n Hn.
  apply list_elem_of_In, filter_In in Hn as [Hin Hf]. apply andb_prop in Hf as [H1 H2].
  apply negb_true_iff in H1, H2. apply String.eqb_neq in H1, H2.
  split; [|split; assumption].
  pose proof (split_pieces_free Path.sep p) as Hall.
  rewrite Forall_forall in Hall. apply Hall, list_elem_of_In. exact Hin.
Qed.

Lemma dirpath_start (fs : files) (cur : list string) (t : string) :
  dirpath fs cur -> dirpath fs (start cur t).
Proof. intros H. unfold start. destruct (Path.isAbsolute t); [constructor|exact H]. Qed.

(** A resolution that starts in a chain of directories ends settled. *)
Lemma walk_found_settled (fs : files) (l : nat) (cur todo r : list string) :
  dirpath fs cur -> Forall okname todo ->
  walk fs l true cur todo = Found r -> settled fs r.
Proof.
  revert r.
  apply (walk_ind fs true
           (fun l cur todo o => forall r, dirpath fs cur -> Forall okname todo ->
                                          o = Found r -> settled fs r));
    clear l cur todo.
  - intros l cur r Hd _ [= <-]. left. exact Hd.
  - intros l cur rest IH r Hd Hok H. apply Forall_cons in Hok as [Hokc Hokr].
    eapply IH; eauto using dirpath_removelast.
  - intros l cur c rest Hc Hk r Hd Hok H. destruct rest; discriminate.
  - intros l cur c rest Hc Hk IH r Hd Hok H. apply Forall_cons in Hok as [Hokc Hokr].
    eapply IH; eauto. constructor; [exact Hd|split; assumption|exact Hk].
  - intros l cur c rest x Hc Hk r Hd Hok H. apply Forall_cons in Hok as [Hokc Hokr].
    destruct rest; [|discriminate]. injection H as <-.
    right. exists cur, c, x. repeat split; auto; apply Hokc.
  - intros l cur c rest t Hc Hk Hf. destruct rest; discriminate.
  - intros; discriminate.
  - intros l cur c rest t Hc Hk Hf IH r Hd Hok H. apply Forall_cons in Hok as [Hokc Hokr].
    eapply IH; eauto using dirpath_start.
    apply Forall_app. split; [apply names_okname|assumption].
Qed.

(** A free name found by a resolution lies in a chain of directories. *)
Lemma walk_absent_slot (fs : files) (l : nat) (f : bool) (cur todo r : list string) :
  dirpath fs cur -> Forall okname todo ->
  walk fs l f cur todo = Absent r ->
  exists d c, r = d ++ [c] /\ dirpath fs d /\ proper c.
Proof.
  revert r.
  apply (walk_ind fs f
           (fun l cur todo o => forall r, dirpath fs cur -> Forall okname todo ->
                                          o = Absent r ->
                                          exists d c, r = d ++ [c] /\ dirpath fs d /\ proper c));
    clear l cur todo; try discriminate.
  - intros l cur rest IH r Hd Hok H. apply Forall_cons in Hok as [Hokc Hokr].
    eapply IH; eauto using dirpath_removelast.
  - intros l cur c rest Hc Hk r Hd Hok H. apply Forall_cons in Hok as [Hokc Hokr].
    destruct rest; [|discriminate]. injection H as <-.
    exists cur, c. repeat split; auto; apply Hokc.
  - intros l cur c rest Hc Hk IH r Hd Hok H. apply Forall_cons in Hok as [Hokc Hokr].
    eapply IH; eauto. constructor; [exact Hd|split; assumption|exact Hk].
  - intros l cur c rest x Hc Hk r Hd Hok H. destruct rest; discriminate.
  - intros l cur c rest t Hc Hk Hf IH r Hd Hok H. apply Forall_cons in Hok as [Hokc Hokr].
    eapply IH; eauto using dirpath_start.
    apply Forall_app. split; [apply names_okname|assumption].
Qed.

(** Resolution walks down a chain of directories name by name. *)
Lemma walk_along (fs : files) (l : nat) (f : bool) (d todo : list string) :
  dirpath fs d -> walk fs l f [] (d ++ todo) = walk fs l f d todo.
Proof.
  intros Hd. revert todo. induction Hd as [|d c Hd IH Hc Hk]; intros todo; [reflexivity|].
  rewrite <- app_assoc. simpl. rewrite IH, walk_unfold, Hk.
  destruct Hc as [_ Hc]. apply String.eqb_neq in Hc. rewrite Hc. reflexivity.
Qed.

(** A settled location resolves to itself. *)
Lemma walk_settled (fs : files) (l : nat) (f : bool) (r : list string) :
  settled fs r -> walk fs l f [] r = Found r.
Proof.
  intros [Hd|(d & c & x & -> & Hd & Hc & Hk)].
  - rewrite <- (app_nil_r r) at 1. rewrite (walk_along _ _ _ _ _ Hd), walk_unfold. reflexivity.
  - rewrite (walk_along _ _ _ _ _ Hd), walk_unfold, Hk.
    destruct Hc as [_ Hc]. apply String.eqb_neq in Hc. rewrite Hc. reflexivity.
Qed.

Lemma dirpath_insert (fs : files) (r : list string) (nd : node) (d : list string) :
  fs !! r = None -> dirpath fs d -> dirpath (<[r := nd]> fs) d.
Proof.
  intros Hr. induction 1 as [|d c Hd IH Hc Hk]; [constructor|].
  constructor; [exact IH|exact Hc|]. rewrite lookup_insert_ne; [exact Hk|]. intros ->. congruence.
Qed.

End WalkFacts.

(** *** Rendered locations *)

Section RenderFacts.
Import Fs.

Lemma proper_free (n : string) : proper n -> Js.free_of Path.sep n = true.
Proof. intros [[H _] _]. exact H. Qed.

Lemma render_cons (c : string) (r : list string) :
  render (c :: r) = String "/" (Js.join "/" (c :: r)).
Proof. reflexivity. Qed.

Lemma prefix_nil (s : string) : String.prefix "" s = true.
Proof. destruct s; reflexivity. Qed.

Lemma render_absolute (r : list string) : Path.isAbsolute (render r) = true.
Proof.
  destruct r as [|c r]; [reflexivity|].
  rewrite render_cons. unfold Path.isAbsolute, Js.startsWith.
  cbn [String.prefix]. destruct (ascii_dec "/" "/"); [apply prefix_nil|congruence].
Qed.

Lemma segments_render (c : string) (r : list string) :
  Forall proper (c :: r) -> Path.segments (render (c :: r)) = "" :: c :: r.
Proof.
  intros H. unfold Path.segments, render. apply (split_join Path.sep); [discriminate|].
  constructor; [reflexivity|]. eapply Forall_impl; [exact H|]. intros n Hn. apply proper_free, Hn.
Qed.

Lemma filter_proper (r : list string) :
  Forall proper r ->
  List.filter (fun s => negb (String.eqb s "") && negb (String.eqb s ".")) r = r.
Proof.
  induction 1 as [|n r [[_ [H1 H2]] _] _ IH]; [reflexivity|].
  simpl. apply String.eqb_neq in H1, H2. rewrite H1, H2, IH. reflexivity.
Qed.

(** The names of a rendered location are the location. *)
Lemma names_render (r : list string) : Forall proper r -> names (render r) = r.
Proof.
  intros H. destruct r as [|c r]; [reflexivity|].
  unfold names. rewrite (segments_render _ _ H). simpl. apply (filter_proper _ H).
Qed.

Lemma locate_eq (cwd : string) (fs : files) (f : bool) (p : string) :
  locate cwd fs f p = walk fs MAXSYMLINKS f [] (route cwd p).
Proof. reflexivity. Qed.

Lemma route_okname (cwd p : string) : Forall okname (route cwd p).
Proof.
  unfold route. destruct (Path.isAbsolute p); [apply names_okname|].
  apply Forall_app. split; apply names_okname.
Qed.

Lemma locate_render (cwd : string) (fs : files) (f : bool) (r : list string) :
  Forall proper r -> locate cwd fs f (render r) = walk fs MAXSYMLINKS f [] r.
Proof.
  intros H. rewrite locate_eq. unfold route.
  rewrite render_absolute, (names_render _ H). reflexivity.
Qed.

Lemma strip_trailing_keep (l : list string) (c : string) :
  c <> "" -> Path.strip_trailing_empty (l ++ [c]) = l ++ [c].
Proof.
  intros Hc. induction l as [|x l IH]; simpl.
  - apply String.eqb_neq in Hc. rewrite Hc. reflexivity.
  - rewrite IH. destruct (l ++ [c]) eqn:E; [|reflexivity].
    apply app_eq_nil in E as [_ E]. discriminate.
Qed.

(** The directory of a rendered location is the rendered parent. *)
Lemma dirname_render (d : list string) (c : string) :
  Forall proper (d ++ [c]) -> Path.dirname (render (d ++ [c])) = render d.
Proof.
  intros H. pose proof H as H'. apply Forall_app in H' as [Hd Hc].
  apply Forall_cons in Hc as [Hc _].
  assert (Hne : c <> "") by apply Hc.
  unfold Path.dirname.
  destruct (d ++ [c]) as [|x r] eqn:E; [apply app_eq_nil in E as [_ E]; discriminate|].
  rewrite render_cons at 1. cbn [String.eqb].
  rewrite (segments_render _ _ H), <- E.
  change ("" :: d ++ [c]) with (("" :: d) ++ [c]).
  rewrite (strip_trailing_keep _ _ Hne), removelast_last.
  destruct d as [|y [|z d]]; [reflexivity| |reflexivity].
  apply Forall_cons in Hd as [Hy _].
  assert (Hy' : y <> "") by apply Hy. apply String.eqb_neq in Hy'.
  cbn [String.eqb andb]. rewrite Hy'. reflexivity.
Qed.

End RenderFacts.

(** *** The operations on the tree *)

Section OpsFacts.
Import Fs.
Variable cwd : string.

Lemma locate_settled (fs : files) (p : string) (r : list string) :
  locate cwd fs true p = Found r -> settled fs r.
Proof.
  rewrite locate_eq. intros H.
  eapply walk_found_settled; [constructor|apply route_okname|exact H].
Qed.

Lemma locate_absent_slot (fs : files) (f : bool) (p : string) (r : list string) :
  locate cwd fs f p = Absent r ->
  fs !! r = None /\ exists d c, r = d ++ [c] /\ dirpath fs d /\ proper c.
Proof.
  rewrite locate_eq. intros H. split; [eapply walk_absent_free; eauto|].
  eapply walk_absent_slot; [constructor|apply route_okname|exact H].
Qed.

(** A real path resolves to its own location. *)
Lemma locate_render_settled (fs : files) (f : bool) (r : list string) :
  settled fs r -> locate cwd fs f (render r) = Found r.
Proof.
  intros H. rewrite (locate_render _ _ _ _ (settled_proper _ _ H)). apply walk_settled, H.
Qed.

(** The directory of a real path exists. *)
Lemma locate_dirname_settled (fs : files) (r : list string) :
  settled fs r -> exists r', locate cwd fs true (Path.dirname (render r)) = Found r'.
Proof.
  intros H. pose proof (settled_proper _ _ H) as Hp.
  assert (Hcase : r = [] \/ exists d c, r = d ++ [c] /\ dirpath fs d).
  { destruct H as [H|(d & c & x & -> & Hd & _)]; [|eauto].
    destruct H as [|d c Hd Hc Hk]; eauto. }
  destruct Hcase as [->|(d & c & -> & Hd)].
  - exists []. rewrite locate_eq. reflexivity.
  - exists d. rewrite (dirname_render _ _ Hp). apply locate_render_settled. left. exact Hd.
Qed.

Lemma mkdirp_go_exists (fuel : nat) (fs : files) (p : string) :
  mkdir_once cwd fs p = inl EEXIST ->
  mkdirp_go cwd fuel fs p = (exists_as_dir cwd fs p, fs).
Proof. intros H. destruct fuel; cbn [mkdirp_go]; rewrite H; reflexivity. Qed.

Lemma mkdir_once_existing (fs : files) (p : string) (r : list string) :
  locate cwd fs true p = Found r -> mkdir_once cwd fs p = inl EEXIST.
Proof.
  rewrite locate_eq. intros H.
  destruct (walk_found_nofollow fs MAXSYMLINKS [] _ r H) as [r' H'].
  unfold mkdir_once. rewrite locate_eq, H'. reflexivity.
Qed.

(** Where the directory exists, the recursive [mkdir] makes nothing. *)
Lemma mkdirp_existing (fs : files) (p : string) (r : list string) :
  locate cwd fs true p = Found r -> mkdirp cwd fs p = (exists_as_dir cwd fs p, fs).
Proof. intros H. apply mkdirp_go_exists. eapply mkdir_once_existing, H. Qed.

End OpsFacts.

(** ** Facts about paths *)

Section PathFacts.

Lemma normalize_go_skip_empty (a : bool) (res l1 l2 : list string) :
  Path.normalize_go a res (l1 ++ "" :: l2) = Path.normalize_go a res (l1 ++ l2).
Proof.
  revert res. induction l1 as [|x l1 IH]; intros res; [reflexivity|].
  simpl. destruct (String.eqb x "" || String.eqb x "."); [apply IH|].
  destruct (String.eqb x ".."); [|apply IH].
  destruct res as [|last res']; [apply IH|].
  destruct (String.eqb last ".."); apply IH.
Qed.

Lemma segments_app (a b : string) :
  Path.segments (a +:+ "/" +:+ b) = Path.segments a ++ Path.segments b.
Proof. apply (split_app Path.sep). Qed.

Lemma startsWith_app (c : ascii) (a b : string) :
  Js.startsWith (String c a +:+ b) (String "/" "") = Js.startsWith (String c a) (String "/" "").
Proof.
  unfold Js.startsWith. rewrite append_cons. cbn [String.prefix].
  destruct (ascii_dec "/" c); [rewrite !prefix_nil|]; reflexivity.
Qed.

Lemma endsWith_app (a b : string) :
  b <> "" -> Js.endsWith (a +:+ b) "/" = Js.endsWith b "/".
Proof.
  intros Hb. induction a as [|c a IH]; [reflexivity|].
  rewrite append_cons. cbn [Js.endsWith]. rewrite IH.
  replace (String.eqb (String c (a +:+ b)) "/") with false; [reflexivity|].
  symmetry. apply String.eqb_neq. intros [= _ H].
  destruct a; [rewrite append_nil_l in H; congruence|discriminate].
Qed.

Lemma append_nonempty (a b : string) : a <> "" -> String.eqb (a +:+ b) "" = false.
Proof. destruct a; [congruence|reflexivity]. Qed.

(** A separator in front of the second argument makes no difference to
    [path.join]. *)
Lemma join_leading_separator (root rest : string) :
  root <> "" -> rest <> "" ->
  Path.join [root; String "/" rest] = Path.join [root; rest].
Proof.
  intros Hroot Hrest. unfold Path.join. cbn [List.filter String.eqb negb].
  apply String.eqb_neq in Hroot as Hr, Hrest as Hs. rewrite Hr, Hs. cbn [negb Js.join].
  unfold Path.normalize.
  rewrite !(append_nonempty _ _ Hroot).
  destruct root as [|c root]; [congruence|].
  unfold Path.isAbsolute. rewrite !(startsWith_app c root).
  assert (Hbody : forall a, Path.normalizeString (String c root +:+ "/" +:+ String "/" rest) a
                            = Path.normalizeString (String c root +:+ "/" +:+ rest) a).
  { intros a. unfold Path.normalizeString. rewrite !segments_app.
    change (Path.segments (String "/" rest)) with ("" :: Path.segments rest).
    rewrite normalize_go_skip_empty. reflexivity. }
  rewrite Hbody.
  assert (Htrail : Path.trailingSeparator (String c root +:+ "/" +:+ String "/" rest)
                   = Path.trailingSeparator (String c root +:+ "/" +:+ rest)).
  { unfold Path.trailingSeparator.
    change (String c root +:+ "/" +:+ String "/" rest)
      with (String c root +:+ ("/" +:+ "/") +:+ rest).
    rewrite <- !append_assoc, !(endsWith_app _ _ Hrest).
    rewrite !append_assoc.
    rewrite !(append_nonempty (String c root)); [reflexivity|discriminate|discriminate]. }
  rewrite Htrail. reflexivity.
Qed.


Lemma absolute_cons (p : string) :
  Path.isAbsolute p = true -> exists t, p = String "/" t.
Proof.
  unfold Path.isAbsolute, Js.startsWith. destruct p as [|c p]; [discriminate|].
  cbn [String.prefix]. destruct (ascii_dec "/" c) as [<-|]; [eauto|discriminate].
Qed.

Lemma cons_absolute (t : string) : Path.isAbsolute (String "/" t) = true.
Proof. unfold Path.isAbsolute, Js.startsWith. cbn [String.prefix]. apply prefix_nil. Qed.

Lemma resolve_go_absolute_last (cwd : string) (l : list string) (acc : string) :
  Path.isAbsolute cwd = true -> snd (Path.resolve_go (l ++ [cwd]) acc) = true.
Proof.
  intros Hcwd. destruct (absolute_cons _ Hcwd) as [t ->].
  revert acc. induction l as [|a l IH]; intros acc.
  - cbn [app Path.resolve_go String.eqb]. rewrite cons_absolute. reflexivity.
  - cbn [app Path.resolve_go]. destruct (String.eqb a ""); [apply IH|].
    destruct (Path.isAbsolute a); [reflexivity|apply IH].
Qed.

(** With an absolute current directory [path.resolve] answers an absolute
    path. *)
Lemma resolve_absolute (cwd : string) (args : list string) :
  Path.isAbsolute cwd = true -> exists t, Path.resolve cwd args = String "/" t.
Proof.
  intros Hcwd. unfold Path.resolve. cbn [rev].
  pose proof (resolve_go_absolute_last cwd (rev args) "" Hcwd) as H.
  destruct (Path.resolve_go (rev args ++ [cwd]) "") as [rp ra]. cbn [snd] in H. subst ra.
  eexists. reflexivity.
Qed.

Lemma normalize_absolute (t : string) : exists u, Path.normalize (String "/" t) = String "/" u.
Proof.
  unfold Path.normalize. cbn [String.eqb]. rewrite cons_absolute.
  destruct (String.eqb _ ""); eexists; reflexivity.
Qed.

Lemma normalize_double_trailing (t : string) :
  Path.normalize (String "/" t +:+ "/" +:+ "/") = Path.normalize (String "/" t)
  \/ Path.normalize (String "/" t +:+ "/" +:+ "/") = Path.normalize (String "/" t) +:+ "/".
Proof.
  unfold Path.normalize. rewrite append_cons. cbn [String.eqb]. rewrite !cons_absolute.
  rewrite <- append_cons.
  assert (Hbody : Path.normalizeString (String "/" t +:+ "/" +:+ "/") (negb true)
                  = Path.normalizeString (String "/" t) (negb true)).
  { unfold Path.normalizeString. rewrite segments_app.
    change (Path.segments "/") with ["" ; ""].
    rewrite normalize_go_skip_empty.
    change [""] with ("" :: @nil string).
    rewrite normalize_go_skip_empty, app_nil_r. reflexivity. }
  rewrite Hbody.
  destruct (String.eqb (Path.normalizeString (String "/" t) (negb true)) ""); [left; reflexivity|].
  assert (Htrail : Path.trailingSeparator (String "/" t +:+ "/" +:+ "/") = true).
  { unfold Path.trailingSeparator. rewrite <- append_assoc, endsWith_app; [|discriminate].
    rewrite append_assoc, append_cons. reflexivity. }
  rewrite Htrail.
  destruct (Path.trailingSeparator (String "/" t)); [left; reflexivity|right].
  rewrite append_assoc. reflexivity.
Qed.

End PathFacts.

(** ** Runs of computations *)

Section RunFacts.
Import Fs Io.

Lemma run_ret {A : Type} (a : A) (fs : files) : run (ret a) fs = (Ok a, fs).
Proof. reflexivity. Qed.

Lemma run_throw {A : Type} (e : error) (fs : files) : run (@throw A e) fs = (Throw e, fs).
Proof. reflexivity. Qed.

Lemma run_inv {A : Type} (m : M A) (fs fs' : files) (r : result A) :
  run m fs = (r, fs') -> value (m fs) = r /\ tree (m fs) = fs'.
Proof. unfold run. intros [= H1 H2]. split; assumption. Qed.

Lemma run_triple {A : Type} (x : result A * files * list call) (a : A) :
  value x = Ok a -> x = (Ok a, tree x, calls x).
Proof. destruct x as [[r fs] l]. unfold value. cbn [fst]. intros ->. reflexivity. Qed.

Lemma run_bind {A B : Type} (m : M A) (k : A -> M B) (fs : files) :
  run (bind m k) fs
  = match run m fs with
    | (Ok a, fs') => run (k a) fs'
    | (Throw e, fs') => (Throw e, fs')
    end.
Proof.
  unfold run, bind, value, tree. destruct (m fs) as [[[a|e] fs'] l]; [|reflexivity].
  cbn [fst snd]. destruct (k a fs') as [[r fs''] l']. reflexivity.
Qed.

Lemma run_try_catch {A : Type} (m : M A) (h : error -> M A) (fs : files) :
  run (try_catch m h) fs
  = match run m fs with
    | (Ok a, fs') => (Ok a, fs')
    | (Throw e, fs') => run (h e) fs'
    end.
Proof.
  unfold run, try_catch, value, tree. destruct (m fs) as [[[a|e] fs'] l]; [reflexivity|].
  cbn [fst snd]. destruct (h e fs') as [[r fs''] l']. reflexivity.
Qed.

Lemma run_query {A : Type} (c : call) (syscall p : string) (f : files -> errno + A) (fs : files) :
  run (query c syscall p f) fs
  = (match f fs with inr a => Ok a | inl e => Throw (sys_error e syscall p) end, fs).
Proof. unfold run, query. destruct (f fs); reflexivity. Qed.

Variable cwd : string.

Lemma run_access (fs : files) (p : string) :
  run (Server.fs_access cwd p) fs
  = (match access cwd fs p with inr u => Ok u | inl e => Throw (sys_error e "access" p) end, fs).
Proof. unfold Server.fs_access. rewrite run_query. reflexivity. Qed.

Lemma run_mkdir_recursive (fs : files) (p : string) :
  run (Server.fs_mkdir_recursive cwd p) fs
  = match mkdirp cwd fs p with
    | (None, fs') => (Ok tt, fs')
    | (Some e, fs') => (Throw (sys_error e "mkdir" p), fs')
    end.
Proof.
  unfold run, Server.fs_mkdir_recursive. destruct (mkdirp cwd fs p) as [[e|] fs']; reflexivity.
Qed.

Lemma run_writeFile (fs : files) (p c : string) :
  run (Server.fs_writeFile cwd p c) fs
  = match writeFile cwd fs p c with
    | inr fs' => (Ok tt, fs')
    | inl e => (Throw (sys_error e "open" p), fs)
    end.
Proof. unfold run, Server.fs_writeFile. destruct (writeFile cwd fs p c); reflexivity. Qed.

Lemma run_validatePath (homedir vaultArg : string) (fs : files) (p : string) :
  run (Server.validatePath cwd homedir vaultArg p) fs
  = (validated cwd homedir vaultArg fs p, fs).
Proof. unfold run. rewrite validatePath_value, validatePath_tree. reflexivity. Qed.

End RunFacts.

(** ** Writing notes *)

Section RequestFacts.
Import Fs Io.
Variables (cwd homedir vaultArg : string).

Local Abbreviation root := (Server.vaultDirectory0 cwd homedir vaultArg).
Local Abbreviation absoluteOf := (Server.absoluteOf cwd homedir).

Lemma lower_cons_separator (t : string) :
  Js.toLowerCase (String "/" t) = String "/" (Js.toLowerCase t).
Proof. reflexivity. Qed.

(** The vault directory is an absolute path. *)
Lemma root_absolute : Path.isAbsolute cwd = true -> exists t, root = String "/" t.
Proof.
  intros Hcwd. unfold Server.vaultDirectory0, Server.vaultDirectories, Server.normalizePath.
  cbn [hd].
  destruct (resolve_absolute cwd [Server.expandHome homedir vaultArg] Hcwd) as [t ->].
  destruct (normalize_absolute t) as [u ->]. rewrite lower_cons_separator. eauto.
Qed.

Lemma segments_trailing (p : string) : Path.segments (p +:+ "/") = Path.segments p ++ [""].
Proof. change (p +:+ "/") with (p +:+ "/" +:+ ""). apply segments_app. Qed.

Lemma hiddenSegment_trailing (p : string) :
  Server.hiddenSegment (p +:+ "/") = Server.hiddenSegment p.
Proof.
  unfold Server.hiddenSegment.
  change (Js.split Path.sep (p +:+ "/")) with (Path.segments (p +:+ "/")).
  rewrite segments_trailing, existsb_app. cbn. apply orb_false_r.
Qed.

Lemma absoluteOf_trailing (t : string) :
  absoluteOf (String "/" t +:+ "/") = absoluteOf (String "/" t).
Proof.
  unfold Server.absoluteOf, Server.expandHome.
  rewrite append_cons.
  assert (Hhome : forall u, Js.startsWith (String "/" u) "~/" || String.eqb (String "/" u) "~" = false)
    by reflexivity.
  rewrite !Hhome, !cons_absolute.
  unfold Path.resolve. cbn [rev app Path.resolve_go String.eqb]. rewrite !cons_absolute.
  unfold Path.normalizeString. rewrite <- append_cons, !segments_app, segments_trailing.
  change (Path.segments "") with ("" :: @nil string).
  rewrite <- app_assoc. cbn [app].
  rewrite !normalize_go_skip_empty. reflexivity.
Qed.

(** [validatePath] depends on the requested path through its segments'
    first characters and its absolute form only. *)
Lemma validated_ext (fs : files) (p1 p2 : string) :
  Server.hiddenSegment p1 = Server.hiddenSegment p2 ->
  absoluteOf p1 = absoluteOf p2 ->
  validated cwd homedir vaultArg fs p1 = validated cwd homedir vaultArg fs p2.
Proof. intros Hh Ha. unfold validated. rewrite Hh, Ha. reflexivity. Qed.


(** [read_notes] validates the path [write_note] validates. *)
Lemma requested_validated (fs : files) (p : string) :
  Path.isAbsolute cwd = true ->
  validated cwd homedir vaultArg fs (requested cwd homedir vaultArg p)
  = validated cwd homedir vaultArg fs (Path.join [root; p]).
Proof.
  intros Hcwd. unfold requested.
  destruct (Js.startsWith p "/") eqn:Hp; [|reflexivity].
  destruct (absolute_cons p Hp) as [rest ->]. cbn [Js.slice1].
  destruct (root_absolute Hcwd) as [t Hroot]. rewrite Hroot.
  destruct (String.eqb rest "") eqn:Hrest.
  - apply String.eqb_eq in Hrest. subst rest.
    replace (Path.join [String "/" t; ""]) with (Path.normalize (String "/" t)) by reflexivity.
    replace (Path.join [String "/" t; "/"])
      with (Path.normalize (String "/" t +:+ "/" +:+ "/")) by reflexivity.
    destruct (normalize_double_trailing t) as [->| ->]; [reflexivity|].
    destruct (normalize_absolute t) as [u ->].
    symmetry. apply validated_ext; [apply hiddenSegment_trailing|apply absoluteOf_trailing].
  - apply String.eqb_neq in Hrest.
    rewrite join_leading_separator; [reflexivity|discriminate|exact Hrest].
Qed.

Lemma realpath_inr (fs : files) (p s : string) :
  realpath cwd fs p = inr s <-> exists r, locate cwd fs true p = Found r /\ s = render r.
Proof.
  unfold realpath. destruct (locate cwd fs true p) as [r|r|e]; split.
  all: try discriminate.
  - intros [= <-]. eauto.
  - intros [r' [[= <-] ->]]. reflexivity.
  - intros [r' [[=] _]].
  - intros [r' [[=] _]].
Qed.

Lemma realpath_found (fs : files) (p : string) (r : list string) :
  locate cwd fs true p = Found r -> realpath cwd fs p = inr (render r).
Proof. intros H. unfold realpath. rewrite H. reflexivity. Qed.

(** The directory of a validated path exists. *)
Lemma validated_dirname_exists (fs : files) (p v : string) :
  validated cwd homedir vaultArg fs p = Ok v ->
  exists r, locate cwd fs true (Path.dirname v) = Found r.
Proof.
  unfold validated, parentCheck.
  destruct (Server.hiddenSegment p); [discriminate|].
  destruct (Server.insideVault _ _ _ _); [|discriminate].
  assert (Hparent :
            match realpath cwd fs (Path.dirname (absoluteOf p)) with
            | inl _ => Throw (parentMissingError (absoluteOf p))
            | inr realParentPath =>
                if Server.insideVault cwd homedir vaultArg (Server.normalizePath realParentPath)
                then Ok (absoluteOf p) else Throw (parentMissingError (absoluteOf p))
            end = Ok v ->
            exists r, locate cwd fs true (Path.dirname v) = Found r).
  { destruct (realpath cwd fs (Path.dirname (absoluteOf p))) as [e|rpp] eqn:Hpar; [discriminate|].
    destruct (Server.insideVault _ _ _ _); [|discriminate].
    intros [= <-]. apply realpath_inr in Hpar as [r [Hr _]]. eauto. }
  destruct (realpath cwd fs (absoluteOf p)) as [e|rp] eqn:Hreal; [exact Hparent|].
  destruct (Server.insideVault _ _ _ _); [|exact Hparent].
  intros [= <-]. apply realpath_inr in Hreal as [r [Hr ->]].
  apply locate_dirname_settled. eapply locate_settled, Hr.
Qed.


(** *** What [write_note] does, as a function of the tree *)

Lemma written_run (fs : files) (notePath content : string) (createIfNotExists : bool) :
  run (Server.write_note cwd homedir vaultArg notePath content createIfNotExists) fs
  = written cwd homedir vaultArg fs notePath content createIfNotExists.
Proof.
  unfold Server.write_note, written.
  rewrite run_try_catch, run_bind, run_validatePath.
  destruct (validated cwd homedir vaultArg fs (Path.join [root; notePath])) as [v|err];
    [|reflexivity].
  rewrite run_bind, run_mkdir_recursive.
  destruct (mkdirp cwd fs (Path.dirname v)) as [[e|] fs1]; [reflexivity|].
  rewrite run_bind, run_try_catch, run_bind, run_access.
  assert (Hstore : forall fileExists : bool,
             match run (Io.bind (Server.fs_writeFile cwd v content)
                          (fun _ => Io.ret (Server.Response
                             ("Successfully " +:+ (if fileExists then "updated" else "created")
                              +:+ " note: " +:+ notePath) false))) fs1 with
             | (Ok a, fs') => (Ok a, fs')
             | (Throw e, fs') =>
                 run (Io.throw (Error ("Failed to write note: " +:+ message e))) fs'
             end = stored cwd fs1 notePath v content fileExists).
  { intros fileExists. rewrite run_bind, run_writeFile. unfold stored.
    destruct (writeFile cwd fs1 v content); reflexivity. }
  destruct (access cwd fs1 v) as [e|u].
  - destruct createIfNotExists; [|reflexivity]. apply (Hstore false).
  - apply (Hstore true).
Qed.


(** *** Reading back what was written *)

Lemma writeFile_inr (fs fs' : files) (v c : string) :
  writeFile cwd fs v c = inr fs' ->
  (exists r c0, locate cwd fs true v = Found r /\ r <> [] /\ fs !! r = Some (File c0)
                /\ fs' = <[r := File (Js.toWellFormed c)]> fs)
  \/ (exists r, locate cwd fs true v = Absent r /\ refused v r = None
                /\ fs' = <[r := File (Js.toWellFormed c)]> fs).
Proof.
  unfold writeFile. destruct (locate cwd fs true v) as [r|r|e]; [| |discriminate].
  - destruct r as [|x r]; [discriminate|].
    destruct (fs !! (x :: r)) as [[c0| |t]|] eqn:Hk; try discriminate.
    intros [= <-]. left. exists (x :: r), c0. repeat split; [discriminate|exact Hk].
  - destruct (refused v r) eqn:Href; [discriminate|]. intros [= <-]. right. eauto.
Qed.

Lemma readFile_file (fs : files) (v c : string) (r : list string) :
  locate cwd fs true v = Found r -> r <> [] -> fs !! r = Some (File c) ->
  readFile cwd fs v = inr c.
Proof.
  intros Hl Hr Hk. unfold readFile. rewrite Hl.
  destruct r as [|x r]; [congruence|]. rewrite Hk. reflexivity.
Qed.

Lemma locate_overwrite (fs : files) (r : list string) (c0 c1 : string) (f : bool) (p : string) :
  fs !! r = Some (File c0) ->
  locate cwd (<[r := File c1]> fs) f p = locate cwd fs f p.
Proof. intros H. rewrite !locate_eq. eapply walk_overwrite, H. Qed.

Lemma locate_created (fs : files) (r : list string) (c p : string) :
  locate cwd fs true p = Absent r ->
  locate cwd (<[r := File c]> fs) true p = Found r.
Proof. rewrite !locate_eq. apply walk_created. Qed.

Lemma locate_found_insert (fs : files) (r x : list string) (nd : node) (f : bool) (p : string) :
  fs !! r = None ->
  locate cwd fs f p = Found x ->
  locate cwd (<[r := nd]> fs) f p = Found x.
Proof. rewrite !locate_eq. apply walk_found_insert. Qed.

Lemma realpath_overwrite (fs : files) (r : list string) (c0 c1 p : string) :
  fs !! r = Some (File c0) ->
  realpath cwd (<[r := File c1]> fs) p = realpath cwd fs p.
Proof. intros H. unfold realpath. rewrite (locate_overwrite _ _ _ _ _ _ H). reflexivity. Qed.

(** A note written through a validated path is what the same request
    reads afterwards. *)
Lemma validated_write_read (fs fs' : files) (p v c : string) :
  validated cwd homedir vaultArg fs p = Ok v ->
  writeFile cwd fs v c = inr fs' ->
  exists v', validated cwd homedir vaultArg fs' p = Ok v'
             /\ readFile cwd fs' v' = inr (Js.toWellFormed c).
Proof.
  unfold validated, parentCheck.
  destruct (Server.hiddenSegment p); [discriminate|].
  destruct (Server.insideVault cwd homedir vaultArg (Server.normalizePath (absoluteOf p)));
    [|discriminate].
  set (abs := absoluteOf p).
  destruct (realpath cwd fs abs) as [e|rp] eqn:Hreal.
  - (* the note did not exist *)
    destruct (realpath cwd fs (Path.dirname abs)) as [e'|rpp] eqn:Hpar; [discriminate|].
    destruct (Server.insideVault cwd homedir vaultArg (Server.normalizePath rpp)) eqn:Hin;
      [|discriminate].
    intros [= <-] Hw.
    apply realpath_inr in Hpar as [rd [Hrd ->]].
    destruct (writeFile_inr _ _ _ _ Hw) as [(r & c0 & Hl & _)|(r & Hl & _ & ->)].
    { rewrite (realpath_found _ _ _ Hl) in Hreal. discriminate. }
    destruct (locate_absent_slot cwd _ _ _ _ Hl) as [Hfree (d & k & -> & Hd & Hk)].
    pose proof (locate_created _ _ (Js.toWellFormed c) _ Hl) as Hl'.
    assert (Hne : d ++ [k] <> []) by (intros H; apply app_eq_nil in H as [_ H]; discriminate).
    rewrite (realpath_found _ _ _ Hl').
    destruct (Server.insideVault cwd homedir vaultArg (Server.normalizePath (render (d ++ [k])))).
    + eexists. split; [reflexivity|].
      eapply readFile_file; [|exact Hne|apply lookup_insert_eq].
      apply locate_render_settled. right. exists d, k, (Js.toWellFormed c).
      split; [reflexivity|]. split; [apply dirpath_insert; assumption|].
      split; [exact Hk|apply lookup_insert_eq].
    + rewrite (realpath_found _ _ _
                 (locate_found_insert _ _ _ (File (Js.toWellFormed c)) _ _ Hfree Hrd)), Hin.
      eexists. split; [reflexivity|].
      eapply readFile_file; [exact Hl'|exact Hne|apply lookup_insert_eq].
  - (* the note existed *)
    apply realpath_inr in Hreal as [r [Hl ->]].
    pose proof (locate_settled cwd _ _ _ Hl) as Hset.
    destruct (Server.insideVault cwd homedir vaultArg (Server.normalizePath (render r))) eqn:Hin.
    + intros [= <-] Hw.
      destruct (writeFile_inr _ _ _ _ Hw) as [(r' & c0 & Hl' & Hne & Hk & ->)|(r' & Hl' & _)].
      2:{ rewrite (locate_render_settled cwd _ _ _ Hset) in Hl'. discriminate. }
      rewrite (locate_render_settled cwd _ _ _ Hset) in Hl'. injection Hl' as <-.
      rewrite (realpath_found _ _ r); [|rewrite (locate_overwrite _ _ _ _ _ _ Hk); exact Hl].
      rewrite Hin. eexists. split; [reflexivity|].
      eapply readFile_file; [|exact Hne|apply lookup_insert_eq].
      rewrite (locate_overwrite _ _ _ _ _ _ Hk). apply locate_render_settled, Hset.
    + destruct (realpath cwd fs (Path.dirname abs)) as [e'|rpp] eqn:Hpar; [discriminate|].
      destruct (Server.insideVault cwd homedir vaultArg (Server.normalizePath rpp)) eqn:Hin';
        [|discriminate].
      intros [= <-] Hw.
      destruct (writeFile_inr _ _ _ _ Hw) as [(r' & c0 & Hl' & Hne & Hk & ->)|(r' & Hl' & _)].
      2:{ rewrite Hl in Hl'. discriminate. }
      rewrite Hl in Hl'. injection Hl' as <-.
      rewrite (realpath_found _ _ r); [|rewrite (locate_overwrite _ _ _ _ _ _ Hk); exact Hl].
      rewrite Hin.
      assert (Hpar' : realpath cwd (<[r := File (Js.toWellFormed c)]> fs) (Path.dirname abs)
                      = inr rpp).
      { rewrite (realpath_overwrite _ _ _ _ _ Hk). exact Hpar. }
      rewrite Hpar', Hin'. eexists. split; [reflexivity|].
      eapply readFile_file; [|exact Hne|apply lookup_insert_eq].
      rewrite (locate_overwrite _ _ _ _ _ _ Hk). exact Hl.
Qed.


(** Validation leaves nothing for the recursive [mkdir] to make. *)
Lemma validated_mkdirp (fs : files) (p v : string) :
  validated cwd homedir vaultArg fs p = Ok v ->
  mkdirp cwd fs (Path.dirname v) = (exists_as_dir cwd fs (Path.dirname v), fs).
Proof.
  intros H. destruct (validated_dirname_exists _ _ _ H) as [r Hr].
  eapply mkdirp_existing, Hr.
Qed.

Lemma written_ok (fs fs' : files) (p c : string) (flag : bool) (resp : Server.response) :
  written cwd homedir vaultArg fs p c flag = (Ok resp, fs') ->
  exists v, validated cwd homedir vaultArg fs (Path.join [root; p]) = Ok v
            /\ writeFile cwd fs v c = inr fs'.
Proof.
  unfold written.
  destruct (validated cwd homedir vaultArg fs (Path.join [root; p])) as [v|err] eqn:Hv;
    [|discriminate].
  rewrite (validated_mkdirp _ _ _ Hv).
  destruct (exists_as_dir cwd fs (Path.dirname v)); [discriminate|].
  assert (Hstored : forall b, stored cwd fs p v c b = (Ok resp, fs') -> writeFile cwd fs v c = inr fs').
  { intros b. unfold stored. destruct (writeFile cwd fs v c); [discriminate|].
    intros [= _ <-]. reflexivity. }
  destruct (access cwd fs v); [destruct flag; [|discriminate]|]; intros H; eauto.
Qed.

(** The reply of the tool handler to [write_note]. *)
Lemma callTool_write_run (RegExp_test : string -> string -> option bool) (fs : files)
  (p c : string) (flag : option bool) :
  run (Server.callTool cwd homedir vaultArg RegExp_test (Server.WriteNote p c flag)) fs
  = match written cwd homedir vaultArg fs p c (default true flag) with
    | (Ok r, fs') => (Ok (Some r), fs')
    | (Throw e, fs') => (Ok (Some (Server.Response ("Error: " +:+ message e) true)), fs')
    end.
Proof.
  unfold Server.callTool. rewrite run_try_catch, run_bind, written_run.
  destruct (written cwd homedir vaultArg fs p c (default true flag)) as [[r|e] fs']; reflexivity.
Qed.

End RequestFacts.

(** ** The walk of the search ends *)

Section ListingFacts.
Import Fs.

Lemma child_name_spec (r k : list string) (n : string) :
  child_name r k = Some n -> k = r ++ [n].
Proof.
  revert k. induction r as [|a r IH]; intros k.
  - destruct k as [|b [|c k]]; simpl; try discriminate. intros [= ->]. reflexivity.
  - destruct k as [|b k]; simpl; [discriminate|].
    destruct (String.eqb a b) eqn:E; [|discriminate].
    apply String.eqb_eq in E. subst b. intros H. rewrite (IH _ H). reflexivity.
Qed.

Lemma insert_sorted_In (d x : dirent) (l : list dirent) :
  In x (insert_sorted d l) -> x = d \/ In x l.
Proof.
  induction l as [|y l IH]; simpl.
  - intros [H|[]]. left. congruence.
  - destruct (String.leb (name d) (name y)); simpl.
    + intros [H|H]; [left; congruence|right; exact H].
    + intros [H|H]; [right; left; exact H|]. destruct (IH H); [left|right; right]; assumption.
Qed.

Lemma sorted_In (x : dirent) (l : list dirent) :
  In x (foldr insert_sorted [] l) -> In x l.
Proof.
  induction l as [|y l IH]; simpl; [tauto|].
  intros H. apply insert_sorted_In in H as [->|H]; [left; reflexivity|right; apply IH, H].
Qed.

Lemma valid_name_proper (n : string) : valid_name n = true -> proper n.
Proof.
  unfold valid_name. intros H.
  apply andb_prop in H as [H Hfree]. apply andb_prop in H as [H Hup].
  apply andb_prop in H as [Hempty Hdot].
  apply negb_true_iff, String.eqb_neq in Hempty, Hdot, Hup.
  repeat split; assumption.
Qed.

(** What [readdir] lists are the children of the directory, under their
    names. *)
Lemma entries_spec (fs : files) (r : list string) (d : dirent) :
  In d (entries fs r) ->
  proper (name d)
  /\ exists nd, fs !! (r ++ [name d]) = Some nd
                /\ isDirectory d = match nd with Dir => true | _ => false end.
Proof.
  unfold entries. intros H. apply sorted_In, list_elem_of_In, list_elem_of_omap in H.
  destruct H as [[k nd] [Hin Hf]]. apply elem_of_map_to_list in Hin.
  unfold entry_of in Hf. cbn [fst snd] in Hf.
  destruct (child_name r k) as [n|] eqn:Hn; [|discriminate].
  destruct (valid_name n) eqn:Hvalid; [|discriminate].
  injection Hf as <-. cbn [name isDirectory].
  apply child_name_spec in Hn. subst k.
  split; [apply valid_name_proper, Hvalid|]. exists nd. split; [exact Hin|reflexivity].
Qed.

Lemma foldr_max_ge (x : nat) (l : list nat) : In x l -> x <= foldr Nat.max 0 l.
Proof.
  induction l as [|y l IH]; simpl; [tauto|].
  intros [->|H]; [lia|]. specialize (IH H). lia.
Qed.

(** No node lies as deep as the bound of the walk. *)
Lemma depth_bound_key (fs : files) (k : list string) (nd : node) :
  fs !! k = Some nd -> S (S (length k)) <= Server.depth_bound fs.
Proof.
  intros H. unfold Server.depth_bound. apply le_n_S, le_n_S.
  apply foldr_max_ge. apply in_map_iff. exists (k, nd). split; [reflexivity|].
  apply list_elem_of_In, elem_of_map_to_list, H.
Qed.

(** Resolution goes on into a directory found in the directory it led to. *)
Lemma walk_step_dir (fs : files) (l : nat) (f : bool) (cur todo r : list string) (n : string) :
  proper n -> fs !! (r ++ [n]) = Some Dir -> is_dir fs r = true ->
  walk fs l f cur todo = Found r ->
  walk fs l f cur (todo ++ [n]) = Found (r ++ [n]).
Proof.
  intros Hn Hk Hdir. destruct Hn as [_ Hn]. apply String.eqb_neq in Hn.
  assert (Hnotdir : forall k c, k <> [] -> fs !! k = Some c -> c <> Dir -> is_dir fs k = false).
  { intros k c Hne Hc Hnd. unfold is_dir. destruct k; [congruence|]. rewrite Hc.
    destruct c; congruence. }
  assert (Hsnoc : forall (a : list string) (b : string), a ++ [b] <> []).
  { intros a b H. apply app_eq_nil in H as [_ H]. discriminate. }
  apply (walk_ind fs f
           (fun l cur todo o => o = Found r -> walk fs l f cur (todo ++ [n]) = Found (r ++ [n])));
    clear l cur todo.
  - intros l cur [= <-]. cbn [app]. rewrite walk_unfold, Hn, Hk, walk_unfold. reflexivity.
  - intros l cur rest IH H. cbn [app]. rewrite walk_unfold. cbn [String.eqb Ascii.eqb Bool.eqb].
    auto.
  - intros l cur c rest Hc Hnone H. destruct rest; discriminate.
  - intros l cur c rest Hc Hd IH H. cbn [app]. rewrite walk_unfold, Hd.
    apply String.eqb_neq in Hc. rewrite Hc. auto.
  - intros l cur c rest x Hc Hfile H. destruct rest; [|discriminate]. injection H as <-.
    rewrite (Hnotdir _ _ (Hsnoc _ _) Hfile) in Hdir; discriminate.
  - intros l cur c rest t Hc Hlink Hf [= <-].
    rewrite (Hnotdir _ _ (Hsnoc _ _) Hlink) in Hdir; discriminate.
  - intros; discriminate.
  - intros l cur c rest t Hc Hlink Hf IH H. cbn [app]. rewrite walk_unfold, Hlink.
    apply String.eqb_neq in Hc. rewrite Hc. rewrite <- app_assoc in IH.
    destruct rest; cbn [app]; [|auto].
    destruct f; [auto|discriminate].
Qed.

End ListingFacts.

Section NormalFacts.
Import Fs.

Lemma normalize_go_proper (a : bool) (acc l : list string) :
  Forall proper l -> Path.normalize_go a acc l = rev acc ++ l.
Proof.
  intros H. revert acc. induction H as [|x l [[_ [H1 H2]] H3] _ IH]; intros acc.
  - simpl. rewrite app_nil_r. reflexivity.
  - apply String.eqb_neq in H1, H2, H3. cbn [Path.normalize_go]. rewrite H1, H2, H3.
    cbn [orb]. rewrite IH. cbn [rev]. rewrite <- app_assoc. reflexivity.
Qed.

(** Without leave to go above the root, what [normalizeString] keeps are
    names. *)
Lemma normalize_go_names (acc l : list string) :
  Forall proper acc -> Forall (fun x => Js.free_of Path.sep x = true) l ->
  Forall proper (Path.normalize_go false acc l).
Proof.
  intros Hacc H. revert acc Hacc. induction H as [|x l Hx _ IH]; intros acc Hacc.
  - simpl. apply Forall_rev, Hacc.
  - cbn [Path.normalize_go].
    destruct (String.eqb x "") eqn:H1; [apply IH, Hacc|].
    destruct (String.eqb x ".") eqn:H2; [apply IH, Hacc|]. cbn [orb].
    destruct (String.eqb x "..") eqn:H3.
    + destruct acc as [|last acc']; [apply IH, Hacc|].
      destruct (String.eqb last ".."); [apply IH, Hacc|].
      apply IH. apply Forall_cons in Hacc as [_ Hacc]. exact Hacc.
    + apply IH. constructor; [|exact Hacc].
      apply String.eqb_neq in H1, H2, H3. repeat split; assumption.
Qed.

Lemma join_nonempty (l : list string) (n : string) :
  n <> "" -> String.eqb (Js.join "/" (l ++ [n])) "" = false.
Proof.
  intros Hn. destruct l as [|x l]; [apply String.eqb_neq, Hn|].
  cbn [app]. destruct (l ++ [n]) eqn:E; [apply app_eq_nil in E as [_ E]; discriminate|].
  rewrite join_cons. destruct x; reflexivity.
Qed.

Lemma endsWith_free (n : string) : Js.free_of "/" n = true -> Js.endsWith n "/" = false.
Proof.
  induction n as [|c n IH]; [reflexivity|].
  cbn [Js.free_of Js.endsWith String.eqb]. intros [Hc Hn]%andb_prop.
  apply negb_true_iff in Hc. rewrite Hc, (IH Hn). reflexivity.
Qed.

Lemma endsWith_join (l : list string) (n : string) :
  proper n -> Js.endsWith (Js.join "/" (l ++ [n])) "/" = false.
Proof.
  intros Hn. assert (Hne : n <> "") by apply Hn.
  induction l as [|x l IH]; [apply endsWith_free, Hn|].
  cbn [app]. destruct (l ++ [n]) as [|y l'] eqn:E; [apply app_eq_nil in E as [_ E]; discriminate|].
  rewrite join_cons, !endsWith_app; [exact IH| |discriminate].
  rewrite <- E. intros H. apply String.eqb_eq in H. rewrite (join_nonempty _ _ Hne) in H.
  discriminate.
Qed.

Lemma render_nonempty (x : string) (l : list string) :
  render (x :: l) = "/" +:+ Js.join "/" (x :: l).
Proof. reflexivity. Qed.

Lemma render_snoc (l : list string) (n : string) :
  render (l ++ [n]) = "/" +:+ Js.join "/" (l ++ [n]).
Proof. destruct l; reflexivity. Qed.

Lemma segments_render_all (xs : list string) :
  Forall proper xs ->
  exists pre, Path.segments (render xs) = pre ++ xs
              /\ forall a acc l, Path.normalize_go a acc (pre ++ l) = Path.normalize_go a acc l.
Proof.
  intros H. destruct xs as [|x xs].
  - exists [""; ""]. split; [reflexivity|]. reflexivity.
  - exists [""]. split; [apply (segments_render _ _ H)|]. reflexivity.
Qed.

Lemma normalize_absolute_eq (p : string) (ys : list string) :
  Path.isAbsolute p = true ->
  Path.normalize_go false [] (Path.segments p) = ys ->
  String.eqb (Js.join "/" ys) "" = false ->
  Path.trailingSeparator p = false ->
  Path.normalize p = "/" +:+ Js.join "/" ys.
Proof.
  intros Habs Hys Hne Htrail. unfold Path.normalize, Path.normalizeString.
  rewrite Habs, Htrail. cbn [negb]. rewrite Hys, Hne.
  destruct (absolute_cons _ Habs) as [t ->]. reflexivity.
Qed.

(** Joining a name onto a rendered location renders the longer location. *)
Lemma join_render (xs : list string) (n : string) :
  Forall proper xs -> proper n -> Path.join [render xs; n] = render (xs ++ [n]).
Proof.
  intros Hxs Hn. assert (Hne : n <> "") by apply Hn.
  assert (Hfree : Js.free_of Path.sep n = true) by apply Hn.
  destruct (absolute_cons _ (render_absolute xs)) as [t Ht].
  assert (Hjoin : Path.join [render xs; n] = Path.normalize (render xs +:+ "/" +:+ n)).
  { unfold Path.join. cbn [List.filter]. rewrite Ht. cbn [String.eqb negb].
    apply String.eqb_neq in Hne. rewrite Hne. reflexivity. }
  rewrite Hjoin, render_snoc. apply normalize_absolute_eq.
  - rewrite Ht. unfold Path.isAbsolute. rewrite startsWith_app. apply cons_absolute.
  - rewrite segments_app.
    destruct (segments_render_all xs Hxs) as [pre [-> Hpre]].
    unfold Path.segments at 1. rewrite (split_free _ _ Hfree), <- app_assoc, Hpre.
    rewrite normalize_go_proper; [reflexivity|].
    apply Forall_app. split; [exact Hxs|]. constructor; [exact Hn|constructor].
  - apply join_nonempty, Hne.
  - unfold Path.trailingSeparator. rewrite <- append_assoc, (endsWith_app _ _ Hne).
    rewrite (endsWith_free _ Hfree). reflexivity.
Qed.

(** A rendered location is in normal form. *)
Lemma normalize_render (xs : list string) :
  Forall proper xs -> Path.normalize (render xs) = render xs.
Proof.
  intros Hxs. destruct xs as [|x xs _] using rev_ind; [reflexivity|].
  pose proof Hxs as Hxs'. apply Forall_app in Hxs' as [_ Hx]. apply Forall_cons in Hx as [Hx _].
  assert (Hne : x <> "") by apply Hx.
  rewrite render_snoc. rewrite <- render_snoc at 1. apply normalize_absolute_eq.
  - apply render_absolute.
  - destruct (segments_render_all _ Hxs) as [pre [-> Hpre]].
    rewrite Hpre, normalize_go_proper; [reflexivity|exact Hxs].
  - apply join_nonempty, Hne.
  - unfold Path.trailingSeparator. rewrite render_snoc, endsWith_app.
    + rewrite (endsWith_join _ _ Hx). reflexivity.
    + intros H. apply String.eqb_eq in H. rewrite (join_nonempty _ _ Hne) in H. discriminate.
Qed.

Lemma lower_append (a b : string) :
  Js.toLowerCase (a +:+ b) = Js.toLowerCase a +:+ Js.toLowerCase b.
Proof. induction a as [|c a IH]; [reflexivity|]. rewrite append_cons. simpl. rewrite IH. reflexivity. Qed.

Lemma lower_join (l : list string) :
  Js.toLowerCase (Js.join "/" l) = Js.join "/" (map Js.toLowerCase l).
Proof.
  induction l as [|x l IH]; [reflexivity|].
  destruct l as [|y l]; [reflexivity|].
  rewrite join_cons, !lower_append, IH. reflexivity.
Qed.

Lemma lower_ascii_separator (c : ascii) :
  Ascii.eqb (Js.lower_ascii c) "/" = Ascii.eqb c "/".
Proof. destruct c as [[] [] [] [] [] [] [] []]; reflexivity. Qed.

Lemma lower_ascii_dot (c : ascii) : Ascii.eqb (Js.lower_ascii c) "." = Ascii.eqb c ".".
Proof. destruct c as [[] [] [] [] [] [] [] []]; reflexivity. Qed.

Lemma lower_free (n : string) : Js.free_of "/" (Js.toLowerCase n) = Js.free_of "/" n.
Proof.
  induction n as [|c n IH]; [reflexivity|]. simpl. rewrite lower_ascii_separator, IH. reflexivity.
Qed.

Lemma lower_eqb_dot (n : string) : String.eqb (Js.toLowerCase n) "." = String.eqb n ".".
Proof.
  destruct n as [|c n]; [reflexivity|]. simpl. rewrite lower_ascii_dot, lower_empty. reflexivity.
Qed.

Lemma lower_eqb_dots (n : string) : String.eqb (Js.toLowerCase n) ".." = String.eqb n "..".
Proof.
  destruct n as [|c n]; [reflexivity|]. simpl. rewrite lower_ascii_dot.
  rewrite lower_eqb_dot. reflexivity.
Qed.

Lemma lower_proper (n : string) : proper n -> proper (Js.toLowerCase n).
Proof.
  intros [[Hfree [H1 H2]] H3].
  apply String.eqb_neq in H1, H2, H3.
  repeat split.
  - rewrite lower_free. exact Hfree.
  - apply String.eqb_neq. rewrite lower_empty. exact H1.
  - apply String.eqb_neq. rewrite lower_eqb_dot. exact H2.
  - apply String.eqb_neq. rewrite lower_eqb_dots. exact H3.
Qed.

Lemma lower_render (xs : list string) :
  Js.toLowerCase (render xs) = render (map Js.toLowerCase xs).
Proof.
  destruct xs as [|x xs]; [reflexivity|].
  rewrite render_nonempty, lower_append, lower_join. reflexivity.
Qed.

(** With an absolute current directory [path.resolve] answers a rendered
    location. *)
Lemma resolve_render (cwd : string) (args : list string) :
  Path.isAbsolute cwd = true ->
  exists ys, Forall proper ys /\ Path.resolve cwd args = render ys.
Proof.
  intros Hcwd. unfold Path.resolve. cbn [rev].
  pose proof (resolve_go_absolute_last cwd (rev args) "" Hcwd) as H.
  destruct (Path.resolve_go (rev args ++ [cwd]) "") as [rp ra]. cbn [snd] in H. subst ra.
  unfold Path.normalizeString. cbn [negb].
  exists (Path.normalize_go false [] (Path.segments rp)). split.
  - apply normalize_go_names; [constructor|apply split_pieces_free].
  - destruct (Path.normalize_go false [] (Path.segments rp)); reflexivity.
Qed.

(** The vault directory is a rendered location. *)
Lemma root_render (cwd homedir vaultArg : string) :
  Path.isAbsolute cwd = true ->
  exists zs, Forall proper zs /\ Server.vaultDirectory0 cwd homedir vaultArg = render zs.
Proof.
  intros Hcwd. unfold Server.vaultDirectory0, Server.vaultDirectories, Server.normalizePath.
  cbn [hd].
  destruct (resolve_render cwd [Server.expandHome homedir vaultArg] Hcwd) as [ys [Hys ->]].
  rewrite (normalize_render _ Hys), lower_render.
  eexists. split; [|reflexivity].
  apply Forall_forall. intros n Hn. apply list_elem_of_In, in_map_iff in Hn as [m [<- Hm]].
  apply lower_proper. rewrite Forall_forall in Hys. apply Hys, list_elem_of_In, Hm.
Qed.

End NormalFacts.

Section SearchFacts.
Import Fs Io.
Variables (cwd homedir vaultArg : string).
Variable RegExp_test : string -> string -> option bool.

Local Abbreviation visit := (Server.visit cwd homedir vaultArg RegExp_test).
Local Abbreviation search := (Server.search cwd homedir vaultArg RegExp_test).
Local Abbreviation root := (Server.vaultDirectory0 cwd homedir vaultArg).

Lemma run_readdir (fs : files) (p : string) :
  run (Server.fs_readdir cwd p) fs
  = (match readdir cwd fs p with
     | inr es => Ok es
     | inl e => Throw (sys_error e "scandir" p)
     end, fs).
Proof. unfold Server.fs_readdir. rewrite run_query. reflexivity. Qed.

(** The loop over the entries ends when the descents do. *)
Lemma visit_finishes (descend : string -> list string -> M Server.walked)
  (query basePath currentPath : string) (fs : files) (entries : list dirent) :
  (forall e results,
      In e entries -> isDirectory e = true ->
      exists w, run (descend (Path.join [currentPath; name e]) results) fs = (Ok w, fs)
                /\ w <> Server.Unfinished) ->
  forall results,
  exists w, run (visit descend query basePath currentPath entries results) fs = (Ok w, fs)
            /\ w <> Server.Unfinished.
Proof.
  induction entries as [|entry rest IH]; intros Hdescend results.
  - eexists. split; [reflexivity|discriminate].
  - assert (Hrest : forall results,
               exists w, run (visit descend query basePath currentPath rest results) fs = (Ok w, fs)
                         /\ w <> Server.Unfinished).
    { apply IH. intros e results' Hin. apply Hdescend. right. exact Hin. }
    cbn [Server.visit].
    rewrite run_bind, run_try_catch, run_bind, run_validatePath.
    destruct (validated cwd homedir vaultArg fs (Path.join [currentPath; name entry]))
      as [v|err]; rewrite ?run_ret; cbn [negb]; [|apply Hrest].
    destruct (isDirectory entry) eqn:Hdir; [|apply Hrest].
    rewrite run_bind.
    destruct (Hdescend entry
                (Server.push_match RegExp_test query basePath
                   (Path.join [currentPath; name entry]) (name entry) results)
                (or_introl eq_refl) Hdir) as [w [Hw Hne]].
    rewrite Hw. destruct w as [results'|e results'|]; [apply Hrest|apply Hrest|congruence].
Qed.

(** The walk ends within the depth bound: a directory entered lies one
    level below the one it was found in, and no node lies as deep as the
    bound. *)
Lemma search_finishes (query basePath : string) (fs : files) (depth : nat) :
  forall (xs : list string) (results : list string),
    Forall proper xs -> 1 <= depth ->
    (forall r, locate cwd fs true (render xs) = Found r ->
               Server.depth_bound fs <= depth + length r) ->
    exists w, run (search query depth basePath (render xs) results) fs = (Ok w, fs)
              /\ w <> Server.Unfinished.
Proof.
  induction depth as [|depth IH]; intros xs results Hxs Hpos Hbound; [lia|].
  cbn [Server.search].
  rewrite run_bind, run_try_catch, run_bind, run_readdir. unfold readdir.
  destruct (locate cwd fs true (render xs)) as [r|r|e] eqn:Hl;
    [|eexists; split; [reflexivity|discriminate]..].
  destruct (is_dir fs r) eqn:Hdir; [|eexists; split; [reflexivity|discriminate]].
  rewrite run_ret.
  apply visit_finishes. intros e results' Hin Hisdir.
  destruct (entries_spec _ _ _ Hin) as [Hname [nd [Hk Hnd]]].
  assert (Hd : fs !! (r ++ [name e]) = Some Dir).
  { rewrite Hisdir in Hnd. destruct nd; try discriminate. exact Hk. }
  pose proof (depth_bound_key _ _ _ Hd) as Hdeep. rewrite length_app in Hdeep. cbn in Hdeep.
  specialize (Hbound r eq_refl).
  rewrite (join_render _ _ Hxs Hname).
  assert (Hxs' : Forall proper (xs ++ [name e])).
  { apply Forall_app. split; [exact Hxs|]. constructor; [exact Hname|constructor]. }
  apply IH; [exact Hxs'|lia|].
  intros r' Hr'. rewrite (locate_render _ _ _ _ Hxs') in Hr'.
  rewrite (locate_render _ _ _ _ Hxs) in Hl.
  rewrite (walk_step_dir _ _ _ _ _ _ _ Hname Hd Hdir Hl) in Hr'.
  injection Hr' as <-. rewrite length_app. cbn. lia.
Qed.

(** [searchNotes] answers with results or rejects; the depth bound of the
    model is never reached. *)
Lemma searchNotes_finishes (query : string) (fs : files) :
  Path.isAbsolute cwd = true ->
  (exists results,
      run (Server.searchNotes cwd homedir vaultArg RegExp_test query) fs = (Ok (Some results), fs))
  \/ (exists e,
         run (Server.searchNotes cwd homedir vaultArg RegExp_test query) fs = (Throw e, fs)).
Proof.
  intros Hcwd.
  assert (Hrun : run (Server.searchNotes cwd homedir vaultArg RegExp_test query) fs
                 = run (Io.bind (search query (Server.depth_bound fs) root root [])
                          (fun w => match w with
                                    | Server.Walked results => Io.ret (Some results)
                                    | Server.Rejected e _ => Io.throw e
                                    | Server.Unfinished => Io.ret None
                                    end)) fs) by reflexivity.
  rewrite Hrun, run_bind.
  destruct (root_render cwd homedir vaultArg Hcwd) as [zs [Hzs Hroot]].
  destruct (search_finishes query root fs (Server.depth_bound fs) zs [] Hzs) as [w [Hw Hne]].
  - unfold Server.depth_bound. lia.
  - intros r _. lia.
  - rewrite <- Hroot in Hw. rewrite Hw.
    destruct w as [results|e results|]; [left|right|congruence]; eauto.
Qed.

End SearchFacts.

(** The reply of the tool handler to [search_notes]. *)
Lemma callTool_search_run
  (cwd homedir vaultArg : string) (RegExp_test : string -> string -> option bool)
  (query : string) (fs : Fs.files) :
  run (Server.callTool cwd homedir vaultArg RegExp_test (Server.SearchNotes query)) fs
  = match run (Server.searchNotes cwd homedir vaultArg RegExp_test query) fs with
    | (Io.Ok (Some results), fs') =>
        (Io.Ok (Some (Server.Response (Server.search_notes_text results) false)), fs')
    | (Io.Ok None, fs') => (Io.Ok None, fs')
    | (Io.Throw e, fs') =>
        (Io.Ok (Some (Server.Response ("Error: " +:+ Fs.message e) true)), fs')
    end.
Proof.
  unfold Server.callTool, Server.search_notes. rewrite run_try_catch, run_bind.
  destruct (run (Server.searchNotes cwd homedir vaultArg RegExp_test query) fs)
    as [[[results|]|e] fs']; reflexivity.
Qed.

(** C5. Every [search_notes] call is answered.  When the walk rejects, the
    reply is the error; otherwise it lists the first 200 collected results
    and no more, ends with a note that gives the exact number left out
    when more were collected, and is the text "No matches found" when none
    was. *)
Theorem search_reply_is_capped
  (cwd homedir vaultArg : string) (RegExp_test : string -> string -> option bool)
  (query : string) (fs : Fs.files) :
  Path.isAbsolute cwd = true ->
  exists reply,
    run (Server.callTool cwd homedir vaultArg RegExp_test (Server.SearchNotes query)) fs
    = (Io.Ok (Some reply), fs)
    /\ ((exists e,
            Io.value (Server.searchNotes cwd homedir vaultArg RegExp_test query fs) = Io.Throw e
            /\ reply = Server.Response ("Error: " +:+ Fs.message e) true)
        \/ (exists results listed note,
               Io.value (Server.searchNotes cwd homedir vaultArg RegExp_test query fs)
               = Io.Ok (Some results)
               /\ Server.SEARCH_LIMIT = 200
               /\ reply = Server.Response
                            ((match listed with
                              | [] => "No matches found"
                              | _ => Js.join nl listed
                              end) +:+ note) false
               /\ listed = firstn Server.SEARCH_LIMIT results
               /\ length listed <= Server.SEARCH_LIMIT
               /\ (length results <= Server.SEARCH_LIMIT -> listed = results /\ note = "")
               /\ (Server.SEARCH_LIMIT < length results ->
                   length listed = Server.SEARCH_LIMIT
                   /\ note = nl +:+ nl +:+ "... "
                             +:+ Js.of_nat (length results - Server.SEARCH_LIMIT)
                             +:+ " more results not shown.")
               /\ (results = [] -> listed = [] /\ note = ""))).
Proof.
  intros Hcwd. rewrite callTool_search_run.
  destruct (searchNotes_finishes cwd homedir vaultArg RegExp_test query fs Hcwd)
    as [[results Hrun]|[e Hrun]]; rewrite Hrun.
  2:{ eexists. split; [reflexivity|]. left. exists e. split; [|reflexivity].
      apply (run_inv _ _ _ _ Hrun). }
  eexists. split; [reflexivity|]. right.
  exists results, (firstn Server.SEARCH_LIMIT results),
    (if Server.SEARCH_LIMIT <? length results then
       nl +:+ nl +:+ "... " +:+ Js.of_nat (length results - Server.SEARCH_LIMIT)
       +:+ " more results not shown."
     else "").
  split; [apply (run_inv _ _ _ _ Hrun)|].
  split; [reflexivity|].
  generalize Server.SEARCH_LIMIT (search_notes_text_shape results).
  intros limit Hshape.
  split; [|split; [reflexivity|split; [|split; [|split]]]].
  - rewrite Hshape. destruct (firstn limit results); reflexivity.
  - rewrite length_firstn. lia.
  - intros Hle. split; [apply firstn_all2; exact Hle|].
    destruct (limit <? length results) eqn:E; [apply Nat.ltb_lt in E; lia|reflexivity].
  - intros Hlt. split; [rewrite length_firstn; lia|].
    destruct (limit <? length results) eqn:E; [reflexivity|apply Nat.ltb_ge in E; lia].
  - intros ->. split; [apply firstn_nil|destruct limit; reflexivity].
Qed.

Lemma search_reply_is_capped_witness :
  exists reply,
    run (Server.callTool "/" "/home/u" "/vault" Fragment.test (Server.SearchNotes "a*c"))
      wildcard_tree
    = (Io.Ok (Some reply), wildcard_tree)
    /\ Server.text reply = "/abc.md" +:+ nl +:+ "/axxxc.md"
    /\ Server.isError reply = false.
Proof.
  destruct (search_reply_is_capped "/" "/home/u" "/vault" Fragment.test "a*c" wildcard_tree
              eq_refl) as [reply [Hrun _]].
  exists reply. split; [exact Hrun|].
  apply run_inv in Hrun as [Hrun _].
  assert (Hvalue : Io.value (Server.callTool "/" "/home/u" "/vault" Fragment.test
                               (Server.SearchNotes "a*c") wildcard_tree)
                   = Io.Ok (Some (Server.Response ("/abc.md" +:+ nl +:+ "/axxxc.md") false)))
    by (vm_compute; reflexivity).
  rewrite Hvalue in Hrun. injection Hrun as <-. split; reflexivity.
Defined.

(** C8, as the code has it.  A [write_note] that succeeds, followed by
    [read_notes] of the same path, answers under the path as it was given
    with the content as UTF-8 holds it: the content written with every
    lone surrogate replaced by U+FFFD.  That is exactly the content
    written when it is a well-formed string. *)
Theorem write_then_read_round_trip
  (cwd homedir vaultArg : string) (RegExp_test : string -> string -> option bool)
  (p c : string) (createIfNotExists : option bool)
  (fs fs' : Fs.files) (reply : Server.response) (log : list Io.call) :
  Path.isAbsolute cwd = true ->
  Server.callTool cwd homedir vaultArg RegExp_test (Server.WriteNote p c createIfNotExists) fs
  = (Io.Ok (Some reply), fs', log) ->
  Server.isError reply = false ->
  Io.value (Server.callTool cwd homedir vaultArg RegExp_test (Server.ReadNotes [p]) fs')
  = Io.Ok (Some (Server.Response (p +:+ ":" +:+ nl +:+ Js.toWellFormed c +:+ nl) false))
  /\ (Js.isWellFormed c = true ->
      Io.value (Server.callTool cwd homedir vaultArg RegExp_test (Server.ReadNotes [p]) fs')
      = Io.Ok (Some (Server.Response (p +:+ ":" +:+ nl +:+ c +:+ nl) false))).
Proof.
  intros Hcwd Hwrite Hok.
  cut (Io.value (Server.callTool cwd homedir vaultArg RegExp_test (Server.ReadNotes [p]) fs')
       = Io.Ok (Some (Server.Response (p +:+ ":" +:+ nl +:+ Js.toWellFormed c +:+ nl) false))).
  { intros H. split; [exact H|]. intros Hwf. rewrite H, (toWellFormed_id c Hwf). reflexivity. }
  pose proof (callTool_write_run cwd homedir vaultArg RegExp_test fs p c createIfNotExists) as Hrun.
  unfold run in Hrun. rewrite Hwrite in Hrun. unfold Io.value, Io.tree in Hrun. cbn [fst snd] in Hrun.
  destruct (written cwd homedir vaultArg fs p c (default true createIfNotExists))
    as [[r|e] fs1] eqn:Hw.
  2:{ injection Hrun as Hr _. subst reply. discriminate. }
  injection Hrun as Hr Hfs. subst r fs1.
  destruct (written_ok _ _ _ _ _ _ _ _ _ Hw) as [v [Hv Hwf]].
  destruct (validated_write_read _ _ _ _ _ _ _ _ Hv Hwf) as [v' [Hv' Hread]].
  destruct (callTool_read_run cwd homedir vaultArg RegExp_test [p] fs')
    as [l Hl].
  rewrite Hl. unfold Io.value. cbn [fst map Js.join].
  unfold read_entry. rewrite (requested_validated _ _ _ _ _ Hcwd), Hv', Hread. reflexivity.
Qed.

Lemma write_then_read_round_trip_witness :
  Io.value (Server.callTool "/" "/home/u" "/vault" no_regexp (Server.ReadNotes ["/sub/new.md"])
              (Io.tree (Server.callTool "/" "/home/u" "/vault" no_regexp
                          (Server.WriteNote "/sub/new.md" "fresh" None) sample_tree)))
  = Io.Ok (Some (Server.Response ("/sub/new.md" +:+ ":" +:+ nl +:+ "fresh" +:+ nl) false)).
Proof.
  refine (proj2 (write_then_read_round_trip "/" "/home/u" "/vault" no_regexp "/sub/new.md"
                   "fresh" None sample_tree _
                   (Server.Response "Successfully created note: /sub/new.md" false)
                   (Io.calls (Server.callTool "/" "/home/u" "/vault" no_regexp
                                (Server.WriteNote "/sub/new.md" "fresh" None) sample_tree))
                   _ _ _) _).
  - reflexivity.
  - apply run_triple. vm_compute. reflexivity.
  - reflexivity.
  - reflexivity.
Defined.

(** C8 as stated fails for a content that is not a well-formed string: a
    lone surrogate is written as U+FFFD, and that is what is read back. *)
Lemma lone_surrogate_is_not_read_back :
  Js.isWellFormed lone_surrogate = false
  /\ Io.value (Server.callTool "/" "/home/u" "/vault" no_regexp
                 (Server.WriteNote "a.md" lone_surrogate None) note_tree)
     = Io.Ok (Some (Server.Response "Successfully updated note: a.md" false))
  /\ Io.tree (Server.callTool "/" "/home/u" "/vault" no_regexp
                (Server.WriteNote "a.md" lone_surrogate None) note_tree) !! ["vault"; "a.md"]
     = Some (Fs.File Js.REPLACEMENT)
  /\ Io.value (Server.callTool "/" "/home/u" "/vault" no_regexp (Server.ReadNotes ["a.md"])
                 (Io.tree (Server.callTool "/" "/home/u" "/vault" no_regexp
                             (Server.WriteNote "a.md" lone_surrogate None) note_tree)))
     = Io.Ok (Some (Server.Response ("a.md:" +:+ nl +:+ Js.REPLACEMENT +:+ nl) false))
  /\ Io.value (Server.callTool "/" "/home/u" "/vault" no_regexp (Server.ReadNotes ["a.md"])
                 (Io.tree (Server.callTool "/" "/home/u" "/vault" no_regexp
                             (Server.WriteNote "a.md" lone_surrogate None) note_tree)))
     <> Io.Ok (Some (Server.Response ("a.md:" +:+ nl +:+ lone_surrogate +:+ nl) false)).
Proof.
  split; [reflexivity|]. split; [vm_compute; reflexivity|]. split; [vm_compute; reflexivity|].
  split; [vm_compute; reflexivity|]. vm_compute. discriminate.
Qed.

Example round_trip_through_link :
  Io.value (Server.callTool "/" "/home/u" "/vault" no_regexp (Server.ReadNotes ["link"])
              (Io.tree (Server.callTool "/" "/home/u" "/vault" no_regexp
                          (Server.WriteNote "link" "changed" None) sample_tree)))
  = Io.Ok (Some (Server.Response ("link" +:+ ":" +:+ nl +:+ "changed" +:+ nl) false)).
Proof. vm_compute. reflexivity. Qed.

(** C7, as the code has it.  With [createIfNotExists = false], a
    validated path and no file under it, [write_note] fails and the tree
    stays as it was.  The failure is "File does not exist" when the
    directory of the validated path is a directory; when it is something
    else, the recursive [mkdir] that runs first fails and its error is
    reported. *)
Theorem write_absent_without_create
  (cwd homedir vaultArg : string) (RegExp_test : string -> string -> option bool)
  (p c v : string) (e : Fs.errno) (fs : Fs.files) :
  Io.value (Server.validatePath cwd homedir vaultArg
              (Path.join [Server.vaultDirectory0 cwd homedir vaultArg; p]) fs) = Io.Ok v ->
  Fs.access cwd fs v = inl e ->
  exists error,
    Io.value (Server.callTool cwd homedir vaultArg RegExp_test
                (Server.WriteNote p c (Some false)) fs)
    = Io.Ok (Some (Server.Response ("Error: Failed to write note: " +:+ Fs.message error) true))
    /\ Io.tree (Server.callTool cwd homedir vaultArg RegExp_test
                  (Server.WriteNote p c (Some false)) fs) = fs
    /\ match Fs.exists_as_dir cwd fs (Path.dirname v) with
       | None => error = Fs.Error ("File does not exist: " +:+ p) /\ NotFound error
       | Some en => error = Fs.sys_error en "mkdir" (Path.dirname v)
       end.
Proof.
  intros Hv Hacc. rewrite validatePath_value in Hv.
  pose proof (callTool_write_run cwd homedir vaultArg RegExp_test fs p c (Some false)) as Hrun.
  unfold run in Hrun. cbn [default] in Hrun.
  unfold written in Hrun. rewrite Hv, (validated_mkdirp _ _ _ _ _ _ Hv) in Hrun.
  destruct (Fs.exists_as_dir cwd fs (Path.dirname v)) as [en|].
  - injection Hrun as Hval Htree. exists (Fs.sys_error en "mkdir" (Path.dirname v)).
    split; [exact Hval|]. split; [exact Htree|reflexivity].
  - rewrite Hacc in Hrun. injection Hrun as Hval Htree.
    exists (Fs.Error ("File does not exist: " +:+ p)).
    split; [exact Hval|]. split; [exact Htree|]. split; reflexivity.
Qed.

Lemma write_absent_without_create_witness :
  exists error,
    Io.value (Server.callTool "/" "/home/u" "/vault" no_regexp
                (Server.WriteNote "sub/none.md" "C" (Some false)) sample_tree)
    = Io.Ok (Some (Server.Response ("Error: Failed to write note: " +:+ Fs.message error) true))
    /\ Io.tree (Server.callTool "/" "/home/u" "/vault" no_regexp
                  (Server.WriteNote "sub/none.md" "C" (Some false)) sample_tree) = sample_tree
    /\ match Fs.exists_as_dir "/" sample_tree (Path.dirname "/vault/sub/none.md") with
       | None => error = Fs.Error ("File does not exist: " +:+ "sub/none.md") /\ NotFound error
       | Some en => error = Fs.sys_error en "mkdir" (Path.dirname "/vault/sub/none.md")
       end.
Proof.
  apply (write_absent_without_create "/" "/home/u" "/vault" no_regexp "sub/none.md" "C"
           "/vault/sub/none.md" Fs.ENOENT sample_tree); vm_compute; reflexivity.
Defined.

(** C7 as stated fails where the directory of the validated path is a
    regular file: [a.md/b.md] passes validation, there is no such file,
    creation is not allowed, and the failure is the [EEXIST] of [mkdir],
    not "File does not exist". *)
Lemma write_absent_is_not_always_not_found :
  Io.value (Server.validatePath "/" "/home/u" "/vault" "/vault/a.md/b.md" note_tree)
  = Io.Ok "/vault/a.md/b.md"
  /\ Fs.access "/" note_tree "/vault/a.md/b.md" = inl Fs.ENOTDIR
  /\ Io.value (Server.callTool "/" "/home/u" "/vault" no_regexp
                 (Server.WriteNote "a.md/b.md" "C" (Some false)) note_tree)
     = Io.Ok (Some (Server.Response
          "Error: Failed to write note: EEXIST: file already exists, mkdir '/vault/a.md'" true))
  /\ ~ NotFound (Fs.sys_error Fs.EEXIST "mkdir" "/vault/a.md")
  /\ Js.includes "Error: Failed to write note: EEXIST: file already exists, mkdir '/vault/a.md'"
       "File does not exist" = false.
Proof.
  split; [vm_compute; reflexivity|]. split; [vm_compute; reflexivity|].
  split; [vm_compute; reflexivity|]. split; [|vm_compute; reflexivity].
  unfold NotFound. vm_compute. discriminate.
Qed.


(** * Further properties

    Properties of the validator, of the path normal form, of the note
    operations and of the search that go beyond the ones above. *)

(** ** The validator: its errors, its calls, its results *)

(** X1. An error that leaves [validatePath] is one of three: the
    hidden-entry refusal, the refusal of a path outside the vault (it names
    the absolute path and the vault directory), or "Parent directory does
    not exist" for the directory of the absolute path.  The last one also
    stands for a parent whose real path lies outside the vault. *)
Theorem validatePath_throws_three_errors
  (cwd homedir vaultArg : string) (fs : Fs.files) (p : string) (e : Fs.error) :
  Io.value (Server.validatePath cwd homedir vaultArg p fs) = Io.Throw e ->
  (Server.hiddenSegment p = true /\ e = hiddenError /\ AccessDenied e)
  \/ (Server.hiddenSegment p = false
      /\ Server.insideVault cwd homedir vaultArg
           (Server.normalizePath (Server.absoluteOf cwd homedir p)) = false
      /\ e = outsideError cwd homedir vaultArg (Server.absoluteOf cwd homedir p)
      /\ AccessDenied e)
  \/ (Server.hiddenSegment p = false
      /\ Server.insideVault cwd homedir vaultArg
           (Server.normalizePath (Server.absoluteOf cwd homedir p)) = true
      /\ e = parentMissingError (Server.absoluteOf cwd homedir p)
      /\ ParentMissing e
      /\ match Fs.realpath cwd fs (Path.dirname (Server.absoluteOf cwd homedir p)) with
         | inr realParent =>
             Server.insideVault cwd homedir vaultArg (Server.normalizePath realParent) = false
         | inl _ => True
         end).
Proof.
  rewrite validatePath_value. unfold validated, parentCheck.
  destruct (Server.hiddenSegment p).
  { intros [= <-]. left. repeat split. }
  destruct (Server.insideVault cwd homedir vaultArg
              (Server.normalizePath (Server.absoluteOf cwd homedir p))).
  2:{ intros [= <-]. right; left. repeat split. }
  intros H. right; right.
  assert (Hpm : forall a, ParentMissing (parentMissingError a)).
  { intros a. unfold ParentMissing, parentMissingError. cbn [Fs.message].
    exact (prefix_append "Parent directory does not exist" (": " +:+ Path.dirname a)). }
  assert (Hparent :
    match Fs.realpath cwd fs (Path.dirname (Server.absoluteOf cwd homedir p)) with
    | inl _ => Io.Throw (parentMissingError (Server.absoluteOf cwd homedir p))
    | inr realParentPath =>
        if Server.insideVault cwd homedir vaultArg (Server.normalizePath realParentPath)
        then Io.Ok (Server.absoluteOf cwd homedir p)
        else Io.Throw (parentMissingError (Server.absoluteOf cwd homedir p))
    end = Io.Throw e ->
    e = parentMissingError (Server.absoluteOf cwd homedir p)
    /\ match Fs.realpath cwd fs (Path.dirname (Server.absoluteOf cwd homedir p)) with
       | inr realParent =>
           Server.insideVault cwd homedir vaultArg (Server.normalizePath realParent) = false
       | inl _ => True
       end).
  { destruct (Fs.realpath cwd fs (Path.dirname (Server.absoluteOf cwd homedir p))) as [en|rpp].
    - intros [= <-]. split; [reflexivity|exact I].
    - destruct (Server.insideVault cwd homedir vaultArg (Server.normalizePath rpp));
        [discriminate|]. intros [= <-]. split; reflexivity. }
  destruct (Fs.realpath cwd fs (Server.absoluteOf cwd homedir p)) as [en|rp].
  - destruct (Hparent H) as [-> Hp]. do 3 (split; [reflexivity|]). split; [apply Hpm|exact Hp].
  - destruct (Server.insideVault cwd homedir vaultArg (Server.normalizePath rp)); [discriminate|].
    destruct (Hparent H) as [-> Hp]. do 3 (split; [reflexivity|]). split; [apply Hpm|exact Hp].
Qed.

Lemma validatePath_throws_three_errors_witness :
  Server.insideVault "/" "/home/u" "/vault"
    (Server.normalizePath (Server.absoluteOf "/" "/home/u" "/vault/new/x.md")) = true
  /\ ParentMissing (parentMissingError "/vault/new/x.md").
Proof.
  destruct (validatePath_throws_three_errors "/" "/home/u" "/vault" sample_tree
              "/vault/new/x.md" (parentMissingError "/vault/new/x.md"))
    as [(H & _)|[(_ & H & _)|(_ & Hin & _ & Hpm & _)]].
  - vm_compute. reflexivity.
  - discriminate H.
  - discriminate H.
  - split; [exact Hin|exact Hpm].
Defined.

(** X2. [validatePath] changes nothing, and the only calls it makes are
    [realpath] of the absolute path and then, when that fails or leads
    outside the vault, [realpath] of its directory; after a lexical refusal
    it makes none. *)
Theorem validatePath_only_resolves
  (cwd homedir vaultArg : string) (fs : Fs.files) (p : string) :
  let absolute := Server.absoluteOf cwd homedir p in
  Io.tree (Server.validatePath cwd homedir vaultArg p fs) = fs
  /\ Io.calls (Server.validatePath cwd homedir vaultArg p fs)
     = if Server.hiddenSegment p
          || negb (Server.insideVault cwd homedir vaultArg (Server.normalizePath absolute))
       then []
       else
         match Fs.realpath cwd fs absolute with
         | inr realPath =>
             if Server.insideVault cwd homedir vaultArg (Server.normalizePath realPath)
             then [Io.Realpath absolute]
             else [Io.Realpath absolute; Io.Realpath (Path.dirname absolute)]
         | inl _ => [Io.Realpath absolute; Io.Realpath (Path.dirname absolute)]
         end.
Proof.
  intros absolute. split; [apply validatePath_tree|].
  unfold Server.validatePath. fold absolute.
  destruct (Server.hiddenSegment p); [reflexivity|].
  destruct (Server.insideVault cwd homedir vaultArg (Server.normalizePath absolute));
    simpl; [|reflexivity].
  unfold Io.try_catch, Io.bind, Server.fs_realpath, Io.query, Io.throw, Io.ret.
  destruct (Fs.realpath cwd fs absolute) as [e|rp]; simpl.
  - destruct (Fs.realpath cwd fs (Path.dirname absolute)) as [e'|rpp]; simpl; [reflexivity|].
    destruct (Server.insideVault cwd homedir vaultArg (Server.normalizePath rpp)); reflexivity.
  - destruct (Server.insideVault cwd homedir vaultArg (Server.normalizePath rp));
      simpl; [reflexivity|].
    destruct (Fs.realpath cwd fs (Path.dirname absolute)) as [e'|rpp]; simpl; [reflexivity|].
    destruct (Server.insideVault cwd homedir vaultArg (Server.normalizePath rpp)); reflexivity.
Qed.

(** X3. A path [validatePath] returns is absolute and, normalized, begins
    with the vault directory; it is the real path of the requested path, or
    the absolute form of the requested path, and then the real path of its
    directory begins with the vault directory. *)
Theorem validatePath_result_is_inside
  (cwd homedir vaultArg : string) (fs : Fs.files) (p v : string) :
  Path.isAbsolute cwd = true ->
  Io.value (Server.validatePath cwd homedir vaultArg p fs) = Io.Ok v ->
  Server.insideVault cwd homedir vaultArg (Server.normalizePath v) = true
  /\ Path.isAbsolute v = true
  /\ Server.hiddenSegment p = false
  /\ (Fs.realpath cwd fs (Server.absoluteOf cwd homedir p) = inr v
      \/ (v = Server.absoluteOf cwd homedir p
          /\ exists realParent,
               Fs.realpath cwd fs (Path.dirname v) = inr realParent
               /\ Server.insideVault cwd homedir vaultArg (Server.normalizePath realParent)
                  = true)).
Proof.
  intros Hcwd. rewrite validatePath_value. unfold validated, parentCheck.
  destruct (Server.hiddenSegment p); [discriminate|].
  destruct (Server.insideVault cwd homedir vaultArg
              (Server.normalizePath (Server.absoluteOf cwd homedir p))) eqn:Hin; [|discriminate].
  assert (Habs : Path.isAbsolute (Server.absoluteOf cwd homedir p) = true).
  { unfold Server.absoluteOf.
    destruct (Path.isAbsolute (Server.expandHome homedir p));
      match goal with
      | |- Path.isAbsolute (Path.resolve cwd ?a) = true =>
          destruct (resolve_absolute cwd a Hcwd) as [t ->]; apply cons_absolute
      end. }
  assert (Hparent :
    match Fs.realpath cwd fs (Path.dirname (Server.absoluteOf cwd homedir p)) with
    | inl _ => Io.Throw (parentMissingError (Server.absoluteOf cwd homedir p))
    | inr realParentPath =>
        if Server.insideVault cwd homedir vaultArg (Server.normalizePath realParentPath)
        then Io.Ok (Server.absoluteOf cwd homedir p)
        else Io.Throw (parentMissingError (Server.absoluteOf cwd homedir p))
    end = Io.Ok v ->
    v = Server.absoluteOf cwd homedir p
    /\ exists realParent,
         Fs.realpath cwd fs (Path.dirname v) = inr realParent
         /\ Server.insideVault cwd homedir vaultArg (Server.normalizePath realParent) = true).
  { destruct (Fs.realpath cwd fs (Path.dirname (Server.absoluteOf cwd homedir p)))
      as [en|rpp] eqn:Hpar; [discriminate|].
    destruct (Server.insideVault cwd homedir vaultArg (Server.normalizePath rpp)) eqn:Hin';
      [|discriminate].
    intros [= <-]. split; [reflexivity|]. exists rpp. split; [exact Hpar|exact Hin']. }
  destruct (Fs.realpath cwd fs (Server.absoluteOf cwd homedir p)) as [en|rp] eqn:Hreal.
  - intros H. destruct (Hparent H) as [-> Hex].
    split; [exact Hin|]. split; [exact Habs|]. split; [reflexivity|]. right. split; [reflexivity|exact Hex].
  - destruct (Server.insideVault cwd homedir vaultArg (Server.normalizePath rp)) eqn:Hin'.
    + intros [= <-]. split; [exact Hin'|]. split; [|split; [reflexivity|left; reflexivity]].
      apply realpath_inr in Hreal as [r [_ ->]]. apply render_absolute.
    + intros H. destruct (Hparent H) as [-> Hex].
      split; [exact Hin|]. split; [exact Habs|]. split; [reflexivity|]. right.
      split; [reflexivity|exact Hex].
Qed.

Lemma validatePath_result_is_inside_witness :
  Server.insideVault "/" "/home/u" "/vault" (Server.normalizePath "/vault/sub/b.md") = true
  /\ Path.isAbsolute "/vault/sub/b.md" = true
  /\ Server.hiddenSegment "/vault//sub/b.md" = false
  /\ (Fs.realpath "/" sample_tree (Server.absoluteOf "/" "/home/u" "/vault//sub/b.md")
      = inr "/vault/sub/b.md"
      \/ ("/vault/sub/b.md" = Server.absoluteOf "/" "/home/u" "/vault//sub/b.md"
          /\ exists realParent,
               Fs.realpath "/" sample_tree (Path.dirname "/vault/sub/b.md") = inr realParent
               /\ Server.insideVault "/" "/home/u" "/vault" (Server.normalizePath realParent)
                  = true)).
Proof.
  apply (validatePath_result_is_inside "/" "/home/u" "/vault" sample_tree
           "/vault//sub/b.md" "/vault/sub/b.md").
  - reflexivity.
  - vm_compute. reflexivity.
Defined.

(** ** The normal form of paths *)

Section NormalizeFacts.
Import Fs.

Lemma lower_ascii_idem (c : ascii) : Js.lower_ascii (Js.lower_ascii c) = Js.lower_ascii c.
Proof. destruct c as [[] [] [] [] [] [] [] []]; reflexivity. Qed.

Lemma lower_idem (s : string) : Js.toLowerCase (Js.toLowerCase s) = Js.toLowerCase s.
Proof. induction s as [|c s IH]; simpl; [reflexivity|]. rewrite lower_ascii_idem, IH. reflexivity. Qed.

Lemma split_lower (s : string) :
  Js.split "/" (Js.toLowerCase s) = map Js.toLowerCase (Js.split "/" s).
Proof.
  induction s as [|c s IH]; simpl; [reflexivity|].
  rewrite lower_ascii_separator. destruct (Ascii.eqb c "/").
  - rewrite IH. reflexivity.
  - rewrite IH. destruct (Js.split "/" s); reflexivity.
Qed.

Lemma normalize_go_lower (a : bool) (l acc : list string) :
  Path.normalize_go a (map Js.toLowerCase acc) (map Js.toLowerCase l)
  = map Js.toLowerCase (Path.normalize_go a acc l).
Proof.
  revert acc. induction l as [|s l IH]; intros acc; simpl.
  - rewrite map_rev. reflexivity.
  - rewrite lower_empty, lower_eqb_dot, lower_eqb_dots.
    destruct (String.eqb s "" || String.eqb s "."); [apply IH|].
    destruct (String.eqb s "..").
    + destruct acc as [|last res]; simpl.
      * destruct a; [apply (IH [".."])|apply (IH [])].
      * rewrite lower_eqb_dots. destruct (String.eqb last "..").
        -- destruct a; [apply (IH (".." :: last :: res))|apply (IH (last :: res))].
        -- apply IH.
    + apply (IH (s :: acc)).
Qed.

Lemma isAbsolute_cons (c : ascii) (p : string) :
  Path.isAbsolute (String c p) = Ascii.eqb c "/".
Proof.
  unfold Path.isAbsolute, Js.startsWith. cbn [String.prefix].
  destruct (ascii_dec "/" c) as [<-|Hne].
  - rewrite prefix_nil. reflexivity.
  - symmetry. apply Ascii.eqb_neq. congruence.
Qed.

Lemma isAbsolute_lower (p : string) : Path.isAbsolute (Js.toLowerCase p) = Path.isAbsolute p.
Proof.
  destruct p as [|c p]; [reflexivity|]. cbn [Js.toLowerCase].
  rewrite !isAbsolute_cons. apply lower_ascii_separator.
Qed.

Lemma endsWith_separator_lower (p : string) :
  Js.endsWith (Js.toLowerCase p) "/" = Js.endsWith p "/".
Proof.
  induction p as [|c p IH]; [reflexivity|].
  cbn [Js.toLowerCase Js.endsWith]. rewrite IH. f_equal.
  destruct p as [|d p]; simpl.
  - destruct c as [[] [] [] [] [] [] [] []]; reflexivity.
  - destruct (Ascii.eqb (Js.lower_ascii c) "/"), (Ascii.eqb c "/"); reflexivity.
Qed.

Lemma trailingSeparator_lower (p : string) :
  Path.trailingSeparator (Js.toLowerCase p) = Path.trailingSeparator p.
Proof.
  unfold Path.trailingSeparator. rewrite endsWith_separator_lower, lower_empty. reflexivity.
Qed.

Lemma normalizeString_lower (p : string) (a : bool) :
  Path.normalizeString (Js.toLowerCase p) a = Js.toLowerCase (Path.normalizeString p a).
Proof.
  unfold Path.normalizeString, Path.segments, Path.sep.
  rewrite split_lower, lower_join, <- normalize_go_lower. reflexivity.
Qed.

Lemma normalize_lower (p : string) :
  Path.normalize (Js.toLowerCase p) = Js.toLowerCase (Path.normalize p).
Proof.
  unfold Path.normalize. rewrite lower_empty.
  destruct (String.eqb p ""); [reflexivity|].
  rewrite isAbsolute_lower, trailingSeparator_lower, normalizeString_lower, lower_empty.
  destruct (String.eqb (Path.normalizeString p _) "").
  - destruct (Path.isAbsolute p); [reflexivity|]. destruct (Path.trailingSeparator p); reflexivity.
  - destruct (Path.trailingSeparator p), (Path.isAbsolute p);
      rewrite ?lower_append; reflexivity.
Qed.


(** *** The shape of a normalized path *)

Lemma repeat_snoc {A : Type} (x : A) (k : nat) : repeat x k ++ [x] = repeat x (S k).
Proof. induction k as [|k IH]; simpl; [reflexivity|]. rewrite IH. reflexivity. Qed.

Lemma normal_nil (a : bool) : normal a [].
Proof. exists 0, []. split; [reflexivity|]. split; [constructor|reflexivity]. Qed.

Lemma normal_push (a : bool) (l : list string) (s : string) :
  normal a l -> proper s -> normal a (l ++ [s]).
Proof.
  intros (k & names & -> & Hn & Hk) Hs. exists k, (names ++ [s]).
  split; [rewrite app_assoc; reflexivity|]. split; [|exact Hk].
  apply Forall_app. split; [exact Hn|]. constructor; [exact Hs|constructor].
Qed.

Lemma normal_dots (l : list string) : normal true (l ++ [".."]) -> normal true (l ++ [".."; ".."]).
Proof.
  intros (k & names & Heq & Hn & _).
  induction names as [|x names' _] using rev_ind.
  - rewrite app_nil_r in Heq. exists (S k), []. split; [|split; [constructor|discriminate]].
    rewrite app_nil_r, <- repeat_snoc, <- Heq, <- app_assoc. reflexivity.
  - rewrite app_assoc in Heq. apply app_inj_tail in Heq as [_ <-].
    apply Forall_app in Hn as [_ Hx]. apply Forall_cons in Hx as [[_ Hx] _]. congruence.
Qed.

Lemma normal_pop (a : bool) (l : list string) (s : string) :
  normal a (l ++ [s]) -> s <> ".." -> normal a l.
Proof.
  intros (k & names & Heq & Hn & Hk) Hs.
  induction names as [|x names' _] using rev_ind.
  - rewrite app_nil_r in Heq. destruct k as [|k]; [destruct l; discriminate|].
    rewrite <- repeat_snoc in Heq. apply app_inj_tail in Heq as [_ ->]. congruence.
  - rewrite app_assoc in Heq. apply app_inj_tail in Heq as [-> _].
    exists k, names'. split; [reflexivity|]. split; [|exact Hk].
    apply Forall_app in Hn as [Hn _]. exact Hn.
Qed.

Lemma normal_false_no_dots (l : list string) : normal false (l ++ [".."]) -> False.
Proof.
  intros (k & names & Heq & Hn & Hk). rewrite (Hk eq_refl) in Heq. simpl in Heq. subst names.
  apply Forall_app in Hn as [_ Hx]. apply Forall_cons in Hx as [[_ Hx] _]. congruence.
Qed.

Lemma normalize_go_normal (a : bool) (segs acc : list string) :
  Forall (fun x => Js.free_of Path.sep x = true) segs ->
  normal a (rev acc) -> normal a (Path.normalize_go a acc segs).
Proof.
  revert acc. induction segs as [|s segs IH]; intros acc Hfree Hacc; simpl; [exact Hacc|].
  apply Forall_cons in Hfree as [Hs Hfree].
  destruct (String.eqb s "") eqn:E1; simpl; [apply IH; assumption|].
  destruct (String.eqb s ".") eqn:E2; simpl; [apply IH; assumption|].
  destruct (String.eqb s "..") eqn:E3.
  - destruct acc as [|last res].
    + apply IH; [exact Hfree|]. destruct a; [|apply normal_nil].
      exists 1, []. split; [reflexivity|]. split; [constructor|discriminate].
    + simpl in Hacc. destruct (String.eqb last "..") eqn:E4.
      * apply String.eqb_eq in E4. subst last. apply IH; [exact Hfree|].
        destruct a; [|exact Hacc]. cbn [rev]. rewrite <- app_assoc. apply normal_dots, Hacc.
      * apply IH; [exact Hfree|]. eapply normal_pop; [exact Hacc|].
        intros ->. discriminate.
  - apply IH; [exact Hfree|]. cbn [rev]. apply normal_push; [exact Hacc|].
    apply String.eqb_neq in E1, E2, E3. repeat split; assumption.
Qed.

Lemma normalize_go_dots (k j : nat) (names : list string) :
  Forall proper names ->
  Path.normalize_go true (repeat ".." j) (repeat ".." k ++ names) = repeat ".." (j + k) ++ names.
Proof.
  intros Hn. revert j. induction k as [|k IH]; intros j.
  - simpl. rewrite (normalize_go_proper true _ _ Hn), Nat.add_0_r.
    f_equal. clear. induction j as [|j IH]; [reflexivity|].
    cbn [repeat rev]. rewrite IH. apply repeat_snoc.
  - destruct j as [|j].
    + change (Path.normalize_go true (repeat ".." 0) (repeat ".." (S k) ++ names))
        with (Path.normalize_go true (repeat ".." 1) (repeat ".." k ++ names)).
      rewrite (IH 1). reflexivity.
    + change (Path.normalize_go true (repeat ".." (S j)) (repeat ".." (S k) ++ names))
        with (Path.normalize_go true (repeat ".." (S (S j))) (repeat ".." k ++ names)).
      rewrite (IH (S (S j))).
      replace (S j + S k) with (S (S j) + k) by lia. reflexivity.
Qed.

Lemma normalize_go_fixed (a : bool) (l : list string) :
  normal a l -> Path.normalize_go a [] l = l.
Proof.
  intros (k & names & -> & Hn & Hk). destruct a.
  - apply (normalize_go_dots k 0 names Hn).
  - rewrite (Hk eq_refl). simpl. apply (normalize_go_proper false [] names Hn).
Qed.

Lemma normal_free (a : bool) (l : list string) :
  normal a l -> Forall (fun x => Js.free_of Path.sep x = true /\ x <> "") l.
Proof.
  intros (k & names & -> & Hn & _). apply Forall_app. split.
  - clear. induction k as [|k IH]; constructor; [split; [reflexivity|discriminate]|exact IH].
  - eapply Forall_impl; [exact Hn|]. intros x [[Hf [Hne _]] _]. split; assumption.
Qed.


Lemma join_first (x : string) (l : list string) :
  exists t, Js.join "/" (x :: l) = x +:+ t.
Proof.
  destruct l as [|y l]; [exists ""; symmetry; apply append_nil_r|].
  rewrite join_cons. eauto.
Qed.

Lemma free_cons (x : string) :
  Js.free_of "/" x = true -> x <> "" -> exists c t, x = String c t /\ Ascii.eqb c "/" = false.
Proof.
  destruct x as [|c t]; [congruence|]. cbn [Js.free_of]. intros [Hc _]%andb_prop _.
  exists c, t. split; [reflexivity|]. apply negb_true_iff, Hc.
Qed.

Lemma endsWith_join_free (l : list string) (n : string) :
  Js.free_of "/" n = true -> n <> "" -> Js.endsWith (Js.join "/" (l ++ [n])) "/" = false.
Proof.
  intros Hn Hne.
  induction l as [|x l IH]; [apply endsWith_free, Hn|].
  cbn [app]. destruct (l ++ [n]) as [|y l'] eqn:E; [apply app_eq_nil in E as [_ E]; discriminate|].
  rewrite join_cons, !endsWith_app; [exact IH| |discriminate].
  rewrite <- E. intros H. apply String.eqb_eq in H. rewrite (join_nonempty _ _ Hne) in H.
  discriminate.
Qed.

(** A string put together from a normal list of segments is a fixed point
    of [path.normalize]. *)
Lemma normalize_normal_string (a tr : bool) (out : list string) :
  normal (negb a) out -> out <> [] ->
  Path.normalize ((if a then "/" else "") +:+ Js.join "/" out +:+ (if tr then "/" else ""))
  = (if a then "/" else "") +:+ Js.join "/" out +:+ (if tr then "/" else "").
Proof.
  intros Hnormal Hout.
  pose proof (normal_free _ _ Hnormal) as Hfree.
  destruct out as [|x out]; [congruence|]. clear Hout.
  assert (Hx : Js.free_of "/" x = true /\ x <> "").
  { apply Forall_cons in Hfree as [Hx _]. exact Hx. }
  destruct (free_cons x (proj1 Hx) (proj2 Hx)) as (c & t & Ex & Ec).
  destruct (join_first x out) as [rest Erest].
  assert (Hbody : String.eqb (Js.join "/" (x :: out)) "" = false).
  { rewrite Erest, Ex. reflexivity. }
  assert (Hlast : Js.endsWith (Js.join "/" (x :: out)) "/" = false).
  { destruct (exists_last (l := x :: out)) as (l' & n & E); [discriminate|].
    rewrite E in Hfree |- *.
    apply Forall_app in Hfree as [_ Hn]. apply Forall_cons in Hn as [[Hn Hne] _].
    apply endsWith_join_free; assumption. }
  assert (Hsegs : Path.segments (Js.join "/" (x :: out)) = x :: out).
  { apply (split_join "/"); [discriminate|].
    eapply Forall_impl; [exact Hfree|]. intros y [Hy _]. exact Hy. }
  set (body := Js.join "/" (x :: out)) in *.
  set (q := (if a then "/" else "") +:+ body +:+ (if tr then "/" else "")).
  assert (Hq : String.eqb q "" = false).
  { unfold q. destruct a; [reflexivity|]. rewrite append_nil_l.
    apply append_nonempty. intros H. rewrite H in Hbody. discriminate. }
  assert (Habs : Path.isAbsolute q = a).
  { unfold q. destruct a; [exact (cons_absolute _)|]. rewrite append_nil_l.
    rewrite Erest, Ex, !append_cons. rewrite isAbsolute_cons. exact Ec. }
  assert (Htr : Path.trailingSeparator q = tr).
  { unfold Path.trailingSeparator. rewrite Hq. cbn [negb]. rewrite andb_true_r.
    unfold q. destruct tr.
    - rewrite <- append_assoc, endsWith_app; [reflexivity|discriminate].
    - rewrite append_nil_r. destruct a; [|rewrite append_nil_l; exact Hlast].
      rewrite endsWith_app; [exact Hlast|]. intros H. rewrite H in Hbody. discriminate. }
  assert (Hgo : Path.normalize_go (negb a) [] (Path.segments q) = x :: out).
  { assert (Path.segments q
            = (if a then [""] else []) ++ (x :: out) ++ (if tr then [""] else [])) as ->.
    { unfold q. destruct tr.
      - rewrite <- append_assoc, segments_trailing. destruct a.
        + change (Path.segments ("/" +:+ body)) with ("" :: Path.segments body).
          rewrite Hsegs. reflexivity.
        + rewrite append_nil_l, Hsegs. reflexivity.
      - rewrite append_nil_r, app_nil_r. destruct a.
        + change (Path.segments ("/" +:+ body)) with ("" :: Path.segments body).
          rewrite Hsegs. reflexivity.
        + rewrite append_nil_l, Hsegs. reflexivity. }
    assert (Hskip : forall l, Path.normalize_go (negb a) [] ((if a then [""] else []) ++ l)
                              = Path.normalize_go (negb a) [] l) by (intros l; destruct a; reflexivity).
    rewrite Hskip. destruct tr.
    - rewrite (normalize_go_skip_empty _ _ (x :: out) []), app_nil_r.
      apply normalize_go_fixed, Hnormal.
    - rewrite app_nil_r. apply normalize_go_fixed, Hnormal. }
  unfold Path.normalize, Path.normalizeString. rewrite Hq, Habs, Htr, Hgo.
  fold body. rewrite Hbody. unfold q. destruct tr, a; rewrite ?append_nil_l, ?append_nil_r; reflexivity.
Qed.

Lemma normalize_idem (p : string) : Path.normalize (Path.normalize p) = Path.normalize p.
Proof.
  unfold Path.normalize at 2 3. destruct (String.eqb p ""); [reflexivity|].
  unfold Path.normalizeString.
  assert (Hnormal : normal (negb (Path.isAbsolute p))
                      (Path.normalize_go (negb (Path.isAbsolute p)) [] (Path.segments p))).
  { apply normalize_go_normal; [apply split_pieces_free|apply normal_nil]. }
  destruct (String.eqb (Js.join "/" _) "") eqn:Hbody.
  - destruct (Path.isAbsolute p); [reflexivity|]. destruct (Path.trailingSeparator p); reflexivity.
  - set (out := Path.normalize_go _ _ _) in *.
    assert (Hout : out <> []) by (intros H; rewrite H in Hbody; discriminate).
    pose proof (normalize_normal_string (Path.isAbsolute p) (Path.trailingSeparator p) out
                  Hnormal Hout) as H.
    destruct (Path.trailingSeparator p), (Path.isAbsolute p);
      rewrite ?append_nil_l, ?append_nil_r in H; rewrite ?append_assoc; exact H.
Qed.


(** *** Redundant separators and dot segments *)

Lemma normalize_go_skip_dot (a : bool) (res l1 l2 : list string) :
  Path.normalize_go a res (l1 ++ "." :: l2) = Path.normalize_go a res (l1 ++ l2).
Proof.
  revert res. induction l1 as [|s l1 IH]; intros res; [reflexivity|].
  cbn [app Path.normalize_go].
  destruct (String.eqb s "" || String.eqb s "."); [apply IH|].
  destruct (String.eqb s "..").
  - destruct res as [|last res']; [apply IH|]. destruct (String.eqb last ".."); apply IH.
  - apply IH.
Qed.

Lemma append_separator_nonempty (a b : string) : String.eqb (a +:+ "/" +:+ b) "" = false.
Proof. destruct a; reflexivity. Qed.

Lemma isAbsolute_append_separator (a b : string) :
  Path.isAbsolute (a +:+ "/" +:+ b) = Path.isAbsolute (a +:+ "/").
Proof.
  destruct a as [|c a].
  - rewrite !append_nil_l. exact (eq_trans (cons_absolute _) (eq_sym (cons_absolute _))).
  - unfold Path.isAbsolute. rewrite !startsWith_app. reflexivity.
Qed.

Lemma endsWith_separator (a : string) : Js.endsWith (a +:+ "/") "/" = true.
Proof. rewrite endsWith_app; [reflexivity|discriminate]. Qed.

Lemma trailingSeparator_append (a b : string) :
  Path.trailingSeparator (a +:+ "/" +:+ b)
  = if String.eqb b "" then true else Js.endsWith b "/".
Proof.
  unfold Path.trailingSeparator. rewrite append_separator_nonempty. cbn [negb].
  rewrite andb_true_r. destruct (String.eqb b "") eqn:E.
  - apply String.eqb_eq in E. subst b. rewrite append_nil_r. apply endsWith_separator.
  - apply String.eqb_neq in E. rewrite <- append_assoc. apply endsWith_app, E.
Qed.

Lemma normalize_skip_segment (seg a b : string) :
  seg = "" \/ seg = "." ->
  Path.normalize (a +:+ "/" +:+ seg +:+ "/" +:+ b) = Path.normalize (a +:+ "/" +:+ b).
Proof.
  intros Hseg. unfold Path.normalize.
  rewrite !append_separator_nonempty.
  rewrite (isAbsolute_append_separator a (seg +:+ "/" +:+ b)), (isAbsolute_append_separator a b).
  assert (Htr : Path.trailingSeparator (a +:+ "/" +:+ seg +:+ "/" +:+ b)
                = Path.trailingSeparator (a +:+ "/" +:+ b)).
  { replace (a +:+ "/" +:+ seg +:+ "/" +:+ b) with ((a +:+ "/" +:+ seg) +:+ "/" +:+ b)
      by (rewrite !append_assoc; reflexivity).
    rewrite !trailingSeparator_append. reflexivity. }
  assert (Hbody : forall x, Path.normalizeString (a +:+ "/" +:+ seg +:+ "/" +:+ b) x
                            = Path.normalizeString (a +:+ "/" +:+ b) x).
  { intros x. unfold Path.normalizeString. rewrite !segments_app.
    destruct Hseg as [-> | ->].
    - change (Path.segments "") with [""]. cbn [app]. rewrite normalize_go_skip_empty. reflexivity.
    - change (Path.segments ".") with ["."]. cbn [app]. rewrite normalize_go_skip_dot. reflexivity. }
  rewrite Htr, !Hbody. reflexivity.
Qed.

(** *** [path.resolve] of a canonical path *)

Lemma resolve_canonical (cwd : string) (r : list string) :
  Forall proper r -> Path.resolve cwd [render r] = render r.
Proof.
  intros Hr. unfold Path.resolve. cbn [rev app Path.resolve_go].
  destruct (absolute_cons _ (render_absolute r)) as [t Ht].
  assert (E : String.eqb (render r) "" = false) by (rewrite Ht; reflexivity).
  rewrite E, (render_absolute r). cbn [negb].
  unfold Path.normalizeString. rewrite segments_app.
  destruct (segments_render_all r Hr) as [pre [-> Hpre]].
  rewrite <- app_assoc, Hpre. change (Path.segments "") with [""].
  rewrite (normalize_go_skip_empty false [] r []), app_nil_r.
  rewrite (normalize_go_proper false [] r Hr). destruct r; reflexivity.
Qed.

End NormalizeFacts.

(** X4. [normalizePath] is idempotent; its result is in lower case and a
    fixed point of [path.normalize]. *)
Theorem normalizePath_is_a_normal_form (p : string) :
  Server.normalizePath (Server.normalizePath p) = Server.normalizePath p
  /\ Js.toLowerCase (Server.normalizePath p) = Server.normalizePath p
  /\ Path.normalize (Server.normalizePath p) = Server.normalizePath p.
Proof.
  unfold Server.normalizePath.
  assert (H : Path.normalize (Js.toLowerCase (Path.normalize p))
              = Js.toLowerCase (Path.normalize p)).
  { rewrite normalize_lower, normalize_idem. reflexivity. }
  split; [rewrite H; apply lower_idem|]. split; [apply lower_idem|exact H].
Qed.

Lemma normalize_go_skip_parent (a : bool) (x : string) (res l1 l2 : list string) :
  proper x ->
  Path.normalize_go a res (l1 ++ x :: ".." :: l2) = Path.normalize_go a res (l1 ++ l2).
Proof.
  intros [[_ [H1 H2]] H3]. apply String.eqb_neq in H1, H2, H3.
  revert res. induction l1 as [|s l1 IH]; intros res.
  - cbn [app Path.normalize_go]. rewrite H1, H2, H3. cbn [orb].
    change (String.eqb ".." "") with false. change (String.eqb ".." ".") with false.
    change (String.eqb ".." "..") with true. cbn [orb]. reflexivity.
  - cbn [app Path.normalize_go].
    destruct (String.eqb s "" || String.eqb s "."); [apply IH|].
    destruct (String.eqb s "..").
    + destruct res as [|last res']; [apply IH|]. destruct (String.eqb last ".."); apply IH.
    + apply IH.
Qed.

Lemma normalize_skip_parent (x a b : string) :
  proper x ->
  Path.normalize (a +:+ "/" +:+ x +:+ "/" +:+ ".." +:+ "/" +:+ b) = Path.normalize (a +:+ "/" +:+ b).
Proof.
  intros Hx. unfold Path.normalize.
  rewrite !append_separator_nonempty.
  rewrite (isAbsolute_append_separator a (x +:+ "/" +:+ ".." +:+ "/" +:+ b)),
    (isAbsolute_append_separator a b).
  assert (Htr : Path.trailingSeparator (a +:+ "/" +:+ x +:+ "/" +:+ ".." +:+ "/" +:+ b)
                = Path.trailingSeparator (a +:+ "/" +:+ b)).
  { replace (a +:+ "/" +:+ x +:+ "/" +:+ ".." +:+ "/" +:+ b)
      with ((a +:+ "/" +:+ x +:+ "/" +:+ "..") +:+ "/" +:+ b)
      by (rewrite !append_assoc; reflexivity).
    rewrite !trailingSeparator_append. reflexivity. }
  assert (Hbody : forall y, Path.normalizeString (a +:+ "/" +:+ x +:+ "/" +:+ ".." +:+ "/" +:+ b) y
                            = Path.normalizeString (a +:+ "/" +:+ b) y).
  { intros y. unfold Path.normalizeString. rewrite !segments_app.
    change (Path.segments "..") with [".."].
    unfold Path.segments at 2. rewrite (split_free _ _ (proper_free _ Hx)). cbn [app].
    rewrite (normalize_go_skip_parent _ _ _ _ _ Hx). reflexivity. }
  rewrite Htr, !Hbody. reflexivity.
Qed.

(** X5. [normalizePath] does not tell apart paths that differ in case,
    in a doubled separator, in a ["."] segment, or in a name followed by
    [".."]. *)
Theorem normalizePath_lexical_equivalences (a b x : string) :
  proper x ->
  Server.normalizePath (Js.toLowerCase a) = Server.normalizePath a
  /\ Server.normalizePath (a +:+ "//" +:+ b) = Server.normalizePath (a +:+ "/" +:+ b)
  /\ Server.normalizePath (a +:+ "/./" +:+ b) = Server.normalizePath (a +:+ "/" +:+ b)
  /\ Server.normalizePath (a +:+ "/" +:+ x +:+ "/../" +:+ b)
     = Server.normalizePath (a +:+ "/" +:+ b).
Proof.
  intros Hx. unfold Server.normalizePath. split; [|split; [|split]].
  - rewrite normalize_lower. apply lower_idem.
  - f_equal. exact (normalize_skip_segment "" a b (or_introl eq_refl)).
  - f_equal. exact (normalize_skip_segment "." a b (or_intror eq_refl)).
  - f_equal. exact (normalize_skip_parent x a b Hx).
Qed.

Lemma normalizePath_lexical_equivalences_witness :
  Server.normalizePath (Js.toLowerCase "/Vault/Sub") = Server.normalizePath "/Vault/Sub"
  /\ Server.normalizePath ("/Vault/Sub" +:+ "//" +:+ "A.md")
     = Server.normalizePath ("/Vault/Sub" +:+ "/" +:+ "A.md")
  /\ Server.normalizePath ("/Vault/Sub" +:+ "/./" +:+ "A.md")
     = Server.normalizePath ("/Vault/Sub" +:+ "/" +:+ "A.md")
  /\ Server.normalizePath ("/Vault/Sub" +:+ "/" +:+ "tmp" +:+ "/../" +:+ "A.md")
     = Server.normalizePath ("/Vault/Sub" +:+ "/" +:+ "A.md").
Proof.
  apply (normalizePath_lexical_equivalences "/Vault/Sub" "A.md" "tmp").
  repeat split; (reflexivity || discriminate).
Defined.

Section RootFacts.
Import Fs Io.
Variables (cwd homedir vaultArg : string).
Local Abbreviation root := (Server.vaultDirectory0 cwd homedir vaultArg).

Lemma render_no_trailing (zs : list string) :
  Forall proper zs -> render zs = "/" \/ Js.endsWith (render zs) "/" = false.
Proof.
  intros Hzs. destruct zs as [|z zs _] using rev_ind; [left; reflexivity|right].
  apply Forall_app in Hzs as [_ Hz]. apply Forall_cons in Hz as [Hz _].
  rewrite render_snoc, endsWith_app; [apply endsWith_join, Hz|].
  intros H. apply String.eqb_eq in H. rewrite join_nonempty in H; [discriminate|apply Hz].
Qed.

Lemma absoluteOf_canonical (r : list string) :
  Forall proper r -> Server.absoluteOf cwd homedir (render r) = render r.
Proof.
  intros Hr. unfold Server.absoluteOf, Server.expandHome.
  destruct (absolute_cons _ (render_absolute r)) as [t Ht].
  assert (E : Js.startsWith (render r) "~/" || String.eqb (render r) "~" = false).
  { rewrite Ht. reflexivity. }
  rewrite E, (render_absolute r). apply resolve_canonical, Hr.
Qed.

End RootFacts.

(** X6. The vault directory stored at start is absolute, a fixed point of
    [normalizePath] (so in lower case), and has no trailing separator
    unless it is the root. *)
Theorem vault_directory_is_normalized (cwd homedir vaultArg : string) :
  Path.isAbsolute cwd = true ->
  Server.vaultDirectories cwd homedir vaultArg = [Server.vaultDirectory0 cwd homedir vaultArg]
  /\ Path.isAbsolute (Server.vaultDirectory0 cwd homedir vaultArg) = true
  /\ Server.normalizePath (Server.vaultDirectory0 cwd homedir vaultArg)
     = Server.vaultDirectory0 cwd homedir vaultArg
  /\ (Server.vaultDirectory0 cwd homedir vaultArg = "/"
      \/ Js.endsWith (Server.vaultDirectory0 cwd homedir vaultArg) "/" = false).
Proof.
  intros Hcwd. split; [reflexivity|].
  destruct (root_render cwd homedir vaultArg Hcwd) as (zs & Hzs & E).
  split; [rewrite E; apply render_absolute|].
  split; [|rewrite E; apply render_no_trailing, Hzs].
  clear E. unfold Server.normalizePath.
  change (Server.vaultDirectory0 cwd homedir vaultArg)
    with (Js.toLowerCase (Path.normalize
            (Path.resolve cwd [Server.expandHome homedir vaultArg]))).
  rewrite normalize_lower, normalize_idem. apply lower_idem.
Qed.

Lemma vault_directory_is_normalized_witness :
  Server.vaultDirectories "/srv" "/home/u" "~/Notes//Work/"
  = [Server.vaultDirectory0 "/srv" "/home/u" "~/Notes//Work/"]
  /\ Path.isAbsolute (Server.vaultDirectory0 "/srv" "/home/u" "~/Notes//Work/") = true
  /\ Server.normalizePath (Server.vaultDirectory0 "/srv" "/home/u" "~/Notes//Work/")
     = Server.vaultDirectory0 "/srv" "/home/u" "~/Notes//Work/"
  /\ (Server.vaultDirectory0 "/srv" "/home/u" "~/Notes//Work/" = "/"
      \/ Js.endsWith (Server.vaultDirectory0 "/srv" "/home/u" "~/Notes//Work/") "/" = false).
Proof.
  apply (vault_directory_is_normalized "/srv" "/home/u" "~/Notes//Work/"). reflexivity.
Defined.

(** ** Dot segments *)

Section HiddenFacts.
Import Fs Io.

Lemma dotted_app (l1 l2 : list string) : dotted (l1 ++ l2) = dotted l1 || dotted l2.
Proof. apply existsb_app. Qed.

Lemma dotted_In (l : list string) :
  dotted l = true <-> exists x, In x l /\ Js.startsWith x "." = true.
Proof. apply existsb_exists. Qed.

Lemma startsWith_dot_append (x t : string) :
  Js.startsWith x "." = true -> Js.startsWith (x +:+ t) "." = true.
Proof.
  destruct x as [|c x]; [discriminate|]. unfold Js.startsWith. rewrite append_cons.
  cbn [String.prefix]. destruct (ascii_dec "." c); [|discriminate].
  intros _. apply prefix_nil.
Qed.

(** The pieces of [a +:+ b]: those of [a], the last of them continued by
    the first piece of [b], then the other pieces of [b]. *)
Lemma split_append (sep : ascii) (a b : string) :
  exists la x hb tb,
    Js.split sep a = la ++ [x] /\ Js.split sep b = hb :: tb
    /\ Js.split sep (a +:+ b) = la ++ [x +:+ hb] ++ tb.
Proof.
  induction a as [|c a IH].
  - pose proof (split_nonempty sep b) as Hne.
    destruct (Js.split sep b) as [|hb tb] eqn:E; [congruence|].
    exists [], "", hb, tb. rewrite append_nil_l, E. split; [reflexivity|]. split; reflexivity.
  - destruct IH as (la & x & hb & tb & Ea & Eb & Eab).
    rewrite append_cons. cbn [Js.split]. destruct (Ascii.eqb c sep).
    + exists ("" :: la), x, hb, tb. rewrite Ea, Eab. split; [reflexivity|]. split; [exact Eb|reflexivity].
    + rewrite Ea, Eab. destruct la as [|y la]; cbn [app].
      * exists [], (String c x), hb, tb. split; [reflexivity|]. split; [exact Eb|reflexivity].
      * exists (String c y :: la), x, hb, tb. split; [reflexivity|]. split; [exact Eb|reflexivity].
Qed.

Lemma hiddenSegment_append (d t : string) :
  Server.hiddenSegment d = true -> Server.hiddenSegment (d +:+ t) = true.
Proof.
  unfold Server.hiddenSegment. fold (dotted (Js.split Path.sep d)).
  fold (dotted (Js.split Path.sep (d +:+ t))).
  destruct (split_append Path.sep d t) as (la & x & hb & tb & -> & _ & ->).
  rewrite !dotted_app. cbn [dotted existsb]. rewrite !orb_false_r.
  intros [H|H]%orb_prop; [rewrite H; reflexivity|].
  rewrite (startsWith_dot_append _ _ H). rewrite orb_true_r. reflexivity.
Qed.

Lemma startsWith_dot_cons (c : ascii) (x : string) :
  Js.startsWith (String c x) "." = Ascii.eqb c ".".
Proof.
  unfold Js.startsWith. cbn [String.prefix].
  destruct (ascii_dec "." c) as [<-|Hne].
  - rewrite prefix_nil. reflexivity.
  - symmetry. apply Ascii.eqb_neq. congruence.
Qed.

Lemma lower_startsWith_dot (x : string) :
  Js.startsWith (Js.toLowerCase x) "." = Js.startsWith x ".".
Proof.
  destruct x as [|c x]; [reflexivity|]. cbn [Js.toLowerCase].
  rewrite !startsWith_dot_cons. apply lower_ascii_dot.
Qed.

Lemma hiddenSegment_lower (s : string) :
  Server.hiddenSegment (Js.toLowerCase s) = Server.hiddenSegment s.
Proof.
  unfold Server.hiddenSegment, Path.sep. rewrite split_lower, existsb_map_compose.
  induction (Js.split "/" s) as [|x l IH]; [reflexivity|].
  cbn [existsb]. rewrite lower_startsWith_dot, IH. reflexivity.
Qed.

(** Without leave to climb, [normalizeString] only keeps segments it was
    given. *)
Lemma normalize_go_keeps (segs acc : list string) (x : string) :
  In x (Path.normalize_go false acc segs) -> In x acc \/ In x segs.
Proof.
  revert acc. induction segs as [|s segs IH]; intros acc; cbn [Path.normalize_go].
  - rewrite <- in_rev. auto.
  - destruct (String.eqb s "" || String.eqb s ".").
    { intros H. destruct (IH _ H); [left|right; right]; assumption. }
    destruct (String.eqb s "..").
    + destruct acc as [|last res].
      * intros H. destruct (IH _ H); [left|right; right]; assumption.
      * destruct (String.eqb last "..").
        -- intros H. destruct (IH _ H); [left|right; right]; assumption.
        -- intros H. destruct (IH _ H); [left; right|right; right]; assumption.
    + intros H. destruct (IH _ H) as [[<-|H']|H'].
      * right; left; reflexivity.
      * left; exact H'.
      * right; right; exact H'.
Qed.

Lemma hidden_absolute_join (out : list string) (tr : bool) :
  out <> [] ->
  Forall (fun x => Js.free_of Path.sep x = true) out ->
  Server.hiddenSegment ("/" +:+ Js.join "/" out +:+ (if tr then "/" else "")) = dotted out.
Proof.
  intros Hne Hfree. unfold Server.hiddenSegment. unfold Path.sep in *.
  assert (E : Js.split "/" ("/" +:+ Js.join "/" out +:+ (if tr then "/" else ""))
              = "" :: out ++ (if tr then [""] else [])).
  { change (Js.split "/" ("/" +:+ ?s)) with ("" :: Js.split "/" s).
    f_equal. destruct tr.
    - pose proof (segments_trailing (Js.join "/" out)) as Ht. unfold Path.segments, Path.sep in Ht.
      rewrite Ht, (split_join "/" out Hne Hfree). reflexivity.
    - rewrite append_nil_r, app_nil_r. apply (split_join "/" out Hne Hfree). }
  rewrite E. fold (dotted ("" :: out ++ (if tr then [""] else []))).
  change (dotted ("" :: ?l)) with (dotted l). rewrite dotted_app.
  destruct tr; apply orb_false_r.
Qed.

Lemma normalize_go_free (a : bool) (segs acc : list string) :
  Forall (fun x => Js.free_of Path.sep x = true) segs ->
  Forall (fun x => Js.free_of Path.sep x = true) acc ->
  Forall (fun x => Js.free_of Path.sep x = true) (Path.normalize_go a acc segs).
Proof.
  revert acc. induction segs as [|s segs IH]; intros acc Hs Hacc; cbn [Path.normalize_go].
  - apply Forall_rev, Hacc.
  - apply Forall_cons in Hs as [Hs Hsegs].
    destruct (String.eqb s "" || String.eqb s "."); [apply IH; assumption|].
    destruct (String.eqb s "..").
    + destruct acc as [|last res].
      * apply IH; [assumption|]. destruct a; repeat constructor.
      * apply Forall_cons in Hacc as [Hl Hres].
        destruct (String.eqb last "..").
        -- apply IH; [assumption|]. destruct a; repeat constructor; assumption.
        -- apply IH; assumption.
    + apply IH; [assumption|]. constructor; assumption.
Qed.

(** [path.normalize] brings no dot segment into an absolute path. *)
Lemma hiddenSegment_normalize (t : string) :
  Server.hiddenSegment (Path.normalize (String "/" t)) = true ->
  Server.hiddenSegment (String "/" t) = true.
Proof.
  unfold Path.normalize. cbn [String.eqb]. rewrite (cons_absolute t). cbn [negb].
  unfold Path.normalizeString.
  set (out := Path.normalize_go false [] (Path.segments (String "/" t))).
  assert (Hfree : Forall (fun x => Js.free_of Path.sep x = true) out).
  { apply normalize_go_free; [apply split_pieces_free|constructor]. }
  assert (Hkeep : dotted out = true -> Server.hiddenSegment (String "/" t) = true).
  { intros [x [Hin Hx]]%dotted_In. apply normalize_go_keeps in Hin as [[]|Hin].
    apply dotted_In. exists x. split; assumption. }
  destruct (String.eqb (Js.join "/" out) "") eqn:Hbody; [discriminate|].
  assert (Hout : out <> []) by (intros H; rewrite H in Hbody; discriminate).
  intros H. apply Hkeep. rewrite <- H.
  destruct (Path.trailingSeparator (String "/" t)).
  - symmetry. apply (hidden_absolute_join out true Hout Hfree).
  - symmetry. rewrite <- (append_nil_r (Js.join "/" out)).
    apply (hidden_absolute_join out false Hout Hfree).
Qed.

(** Nor does [path.resolve], into an absolute path. *)
Lemma hiddenSegment_resolve (cwd t : string) :
  Server.hiddenSegment (Path.resolve cwd [String "/" t]) = true ->
  Server.hiddenSegment (String "/" t) = true.
Proof.
  unfold Path.resolve. cbn [rev app Path.resolve_go String.eqb]. rewrite (cons_absolute t).
  cbn [negb]. unfold Path.normalizeString. rewrite segments_app.
  change (Path.segments "") with [""].
  rewrite (normalize_go_skip_empty false [] _ []), app_nil_r.
  set (out := Path.normalize_go false [] (Path.segments (String "/" t))).
  assert (Hfree : Forall (fun x => Js.free_of Path.sep x = true) out).
  { apply normalize_go_free; [apply split_pieces_free|constructor]. }
  destruct out as [|x out'] eqn:E; [discriminate|].
  rewrite <- (append_nil_r (Js.join "/" (x :: out'))).
  rewrite (hidden_absolute_join (x :: out') false); [|discriminate|exact Hfree].
  intros [y [Hin Hy]]%dotted_In. rewrite <- E in Hin. apply normalize_go_keeps in Hin as [[]|Hin].
  apply dotted_In. exists y. split; assumption.
Qed.

End HiddenFacts.

Section HiddenVault.
Import Fs Io.
Variables (cwd homedir vaultArg : string).
Variable RegExp_test : string -> string -> option bool.
Local Abbreviation root := (Server.vaultDirectory0 cwd homedir vaultArg).
Local Abbreviation validatePath := (Server.validatePath cwd homedir vaultArg).

Lemma join_absolute (t p : string) : exists u, Path.join [String "/" t; p] = String "/" u.
Proof.
  unfold Path.join. cbn [List.filter String.eqb negb].
  destruct (negb (String.eqb p "")).
  - cbn [Js.join]. rewrite append_cons. apply normalize_absolute.
  - cbn [Js.join]. apply normalize_absolute.
Qed.

Lemma absoluteOf_absolute (t : string) :
  Server.absoluteOf cwd homedir (String "/" t) = Path.resolve cwd [String "/" t].
Proof.
  unfold Server.absoluteOf, Server.expandHome.
  assert (E : Js.startsWith (String "/" t) "~/" || String.eqb (String "/" t) "~" = false)
    by reflexivity.
  rewrite E, (cons_absolute t). reflexivity.
Qed.

Lemma insideVault_split (s : string) :
  Server.insideVault cwd homedir vaultArg s = true -> exists t, s = root +:+ t.
Proof.
  unfold Server.insideVault, Server.vaultDirectories. cbn [existsb]. rewrite orb_false_r.
  apply startsWith_split.
Qed.

Lemma hidden_vault_outside (t : string) :
  Path.isAbsolute cwd = true ->
  Server.hiddenSegment root = true ->
  Server.hiddenSegment (String "/" t) = false ->
  Server.insideVault cwd homedir vaultArg
    (Server.normalizePath (Server.absoluteOf cwd homedir (String "/" t))) = false.
Proof.
  intros Hcwd Hroot Hq.
  destruct (Server.insideVault _ _ _ _) eqn:Hin; [|reflexivity].
  apply insideVault_split in Hin as [s Hs].
  pose proof (hiddenSegment_append _ s Hroot) as Hh. rewrite <- Hs in Hh.
  unfold Server.normalizePath in Hh. rewrite hiddenSegment_lower in Hh.
  rewrite absoluteOf_absolute in Hh.
  destruct (resolve_absolute cwd [String "/" t] Hcwd) as [u Hu].
  rewrite Hu in Hh. apply hiddenSegment_normalize in Hh. rewrite <- Hu in Hh.
  apply hiddenSegment_resolve in Hh. congruence.
Qed.

Lemma hidden_vault_validatePath (fs : files) (p : string) :
  Path.isAbsolute cwd = true ->
  Server.hiddenSegment root = true ->
  exists e, validatePath (Path.join [root; p]) fs = (Throw e, fs, []) /\ AccessDenied e.
Proof.
  intros Hcwd Hroot.
  destruct (root_absolute cwd homedir vaultArg Hcwd) as [t Ht]. rewrite Ht.
  destruct (join_absolute t p) as [u ->].
  unfold Server.validatePath.
  destruct (Server.hiddenSegment (String "/" u)) eqn:Hq.
  - eexists. split; reflexivity.
  - rewrite (hidden_vault_outside u Hcwd Hroot Hq). cbn [negb].
    eexists. split; reflexivity.
Qed.

End HiddenVault.

(** ** Parent directories *)

Section ParentFacts.
Import Fs Io.

(** Where a path leads somewhere, the path without its last name leads to
    a directory. *)
Lemma walk_parent (fs : files) (c : string) (l : nat) (cur todo : list string) :
  dirpath fs cur -> Forall okname todo ->
  reaches (walk fs l true cur (todo ++ [c])) ->
  exists r', walk fs l true cur todo = Found r' /\ dirpath fs r'.
Proof.
  apply (walk_ind fs true
           (fun l cur todo o => dirpath fs cur -> Forall okname todo ->
                                reaches (walk fs l true cur (todo ++ [c])) ->
                                exists r', o = Found r' /\ dirpath fs r'));
    clear l cur todo.
  - intros l cur Hd _ _. eauto.
  - intros l cur rest IH Hd Hok H. apply Forall_cons in Hok as [Hokc Hokr].
    cbn [app] in H. rewrite walk_unfold in H. cbn [String.eqb Ascii.eqb Bool.eqb] in H.
    apply IH; eauto using dirpath_removelast.
  - intros l cur c0 rest Hc Hk Hd Hok H. exfalso.
    cbn [app] in H. rewrite walk_unfold, Hk in H. apply String.eqb_neq in Hc. rewrite Hc in H.
    destruct rest; exact H.
  - intros l cur c0 rest Hc Hk IH Hd Hok H. apply Forall_cons in Hok as [Hokc Hokr].
    cbn [app] in H. rewrite walk_unfold, Hk in H. pose proof Hc as Hc'.
    apply String.eqb_neq in Hc'. rewrite Hc' in H.
    apply IH; auto. constructor; [exact Hd|split; assumption|exact Hk].
  - intros l cur c0 rest x Hc Hk Hd Hok H. exfalso.
    cbn [app] in H. rewrite walk_unfold, Hk in H. apply String.eqb_neq in Hc. rewrite Hc in H.
    destruct rest; exact H.
  - intros l cur c0 rest t Hc Hk Hf. destruct rest; discriminate.
  - intros cur c0 rest t Hc Hk Hf Hd Hok H. exfalso.
    cbn [app] in H. rewrite walk_unfold, Hk in H. apply String.eqb_neq in Hc. rewrite Hc in H.
    destruct rest; exact H.
  - intros l cur c0 rest t Hc Hk Hf IH Hd Hok H. apply Forall_cons in Hok as [Hokc Hokr].
    cbn [app] in H. rewrite walk_unfold, Hk in H. apply String.eqb_neq in Hc. rewrite Hc in H.
    assert (H' : reaches (walk fs l true (start cur t) ((names t ++ rest) ++ [c]))).
    { rewrite <- app_assoc. destruct rest; exact H. }
    apply IH; auto using dirpath_start.
    apply Forall_app. split; [apply names_okname|assumption].
Qed.

Lemma dirpath_is_dir (fs : files) (r : list string) : dirpath fs r -> is_dir fs r = true.
Proof. intros [|d c Hd Hc Hk]; [reflexivity|]. unfold is_dir. rewrite Hk. destruct d; reflexivity. Qed.

Variable cwd : string.

(** The directory of a canonical path that leads somewhere is a
    directory. *)
Lemma parent_is_dir (fs : files) (ys : list string) :
  Forall proper ys ->
  reaches (locate cwd fs true (render ys)) ->
  exists_as_dir cwd fs (Path.dirname (render ys)) = None.
Proof.
  intros Hys H. unfold exists_as_dir.
  destruct ys as [|y ys' _] using rev_ind.
  - rewrite locate_eq. reflexivity.
  - rewrite (dirname_render _ _ Hys).
    pose proof Hys as Hys'. apply Forall_app in Hys' as [Hys' _].
    rewrite (locate_render _ _ _ _ Hys) in H. rewrite (locate_render _ _ _ _ Hys').
    destruct (walk_parent fs y MAXSYMLINKS [] ys') as (r' & Hr' & Hd); [constructor| |exact H|].
    + eapply Forall_impl; [exact Hys'|]. intros x Hx. apply Hx.
    + rewrite Hr', (dirpath_is_dir _ _ Hd). reflexivity.
Qed.

End ParentFacts.

(** ** Writing *)

Section WriteFacts.
Import Fs Io.
Variables (cwd homedir vaultArg : string).
Local Abbreviation root := (Server.vaultDirectory0 cwd homedir vaultArg).

(** What validation returns is the path of a canonical list of names. *)
Lemma validated_render (fs : files) (p v : string) :
  Path.isAbsolute cwd = true ->
  validated cwd homedir vaultArg fs p = Ok v ->
  exists ys, Forall proper ys /\ v = render ys.
Proof.
  intros Hcwd. unfold validated, parentCheck.
  destruct (Server.hiddenSegment p); [discriminate|].
  destruct (Server.insideVault _ _ _ _); [|discriminate].
  assert (Habs : exists ys, Forall proper ys /\ Server.absoluteOf cwd homedir p = render ys).
  { unfold Server.absoluteOf. destruct (Path.isAbsolute (Server.expandHome homedir p));
      apply resolve_render, Hcwd. }
  assert (Hparent :
            match realpath cwd fs (Path.dirname (Server.absoluteOf cwd homedir p)) with
            | inl _ => Throw (parentMissingError (Server.absoluteOf cwd homedir p))
            | inr realParentPath =>
                if Server.insideVault cwd homedir vaultArg (Server.normalizePath realParentPath)
                then Ok (Server.absoluteOf cwd homedir p)
                else Throw (parentMissingError (Server.absoluteOf cwd homedir p))
            end = Ok v ->
            exists ys, Forall proper ys /\ v = render ys).
  { destruct (realpath cwd fs (Path.dirname (Server.absoluteOf cwd homedir p))); [discriminate|].
    destruct (Server.insideVault _ _ _ _); [|discriminate].
    intros [= <-]. exact Habs. }
  destruct (realpath cwd fs (Server.absoluteOf cwd homedir p)) as [e|rp] eqn:Hreal;
    [exact Hparent|].
  destruct (Server.insideVault _ _ _ _); [|exact Hparent].
  intros [= <-]. apply realpath_inr in Hreal as [r [Hr ->]].
  exists r. split; [|reflexivity]. eapply settled_proper, locate_settled, Hr.
Qed.

Lemma validated_parent_dir (fs : files) (p v : string) :
  Path.isAbsolute cwd = true ->
  validated cwd homedir vaultArg fs p = Ok v ->
  reaches (locate cwd fs true v) ->
  mkdirp cwd fs (Path.dirname v) = (None, fs).
Proof.
  intros Hcwd Hv Hreach. rewrite (validated_mkdirp _ _ _ _ _ _ Hv).
  destruct (validated_render _ _ _ Hcwd Hv) as (ys & Hys & ->).
  rewrite (parent_is_dir _ _ _ Hys Hreach). reflexivity.
Qed.

Lemma readFile_inr (fs : files) (v c : string) :
  readFile cwd fs v = inr c ->
  exists r, locate cwd fs true v = Found r /\ r <> [] /\ fs !! r = Some (File c).
Proof.
  unfold readFile. destruct (locate cwd fs true v) as [r|r|e]; [|discriminate..].
  destruct r as [|x r]; [discriminate|].
  destruct (fs !! (x :: r)) as [[c0| |t]|] eqn:Hk; try discriminate.
  intros [= <-]. exists (x :: r). split; [reflexivity|]. split; [discriminate|exact Hk].
Qed.

Lemma access_found (fs : files) (v : string) (r : list string) :
  locate cwd fs true v = Found r -> access cwd fs v = inr tt.
Proof. unfold access. intros ->. reflexivity. Qed.

Lemma writeFile_file (fs : files) (v c0 c : string) (r : list string) :
  locate cwd fs true v = Found r -> r <> [] -> fs !! r = Some (File c0) ->
  writeFile cwd fs v c = inr (<[r := File (Js.toWellFormed c)]> fs).
Proof.
  unfold writeFile. intros -> Hne Hk. destruct r; [congruence|]. rewrite Hk. reflexivity.
Qed.

(** The three ways [write_note] can end. *)
Lemma written_cases (fs : files) (p c : string) (flag : bool) :
  (exists e, written cwd homedir vaultArg fs p c flag = (Throw (failedToWrite e), fs))
  \/ (exists r c0, fs !! r = Some (File c0)
                   /\ written cwd homedir vaultArg fs p c flag
                      = (Ok (successfully true p), <[r := File (Js.toWellFormed c)]> fs))
  \/ (exists r, fs !! r = None /\ flag = true
                /\ written cwd homedir vaultArg fs p c flag
                   = (Ok (successfully false p), <[r := File (Js.toWellFormed c)]> fs)).
Proof.
  unfold written.
  destruct (validated cwd homedir vaultArg fs (Path.join [root; p])) as [v|err] eqn:Hv;
    [|left; eauto].
  rewrite (validated_mkdirp _ _ _ _ _ _ Hv).
  destruct (exists_as_dir cwd fs (Path.dirname v)); [left; eauto|].
  unfold stored, access, writeFile.
  destruct (locate cwd fs true v) as [r|r|e] eqn:Hl.
  - destruct r as [|x r]; [left; eauto|].
    destruct (fs !! (x :: r)) as [[c0| |t]|] eqn:Hk; try (left; eauto; fail).
    right; left. exists (x :: r), c0. split; [exact Hk|reflexivity].
  - destruct flag; [|left; eauto].
    destruct (refused v r); [left; eauto|]. right; right. exists r.
    split; [|split; reflexivity]. apply (locate_absent_slot _ _ _ _ _ Hl).
  - destruct flag; left; eauto.
Qed.

End WriteFacts.




(** X7. [write_note] ends in one of three ways: an error reply with the
    tree as it was; "updated", with the content of one existing regular
    file replaced; or "created", with one regular file added where there
    was none (only when creation is allowed).  The file holds the content
    as UTF-8 stores it.  No directory is ever made. *)
Theorem write_note_changes_one_file_or_nothing
  (cwd homedir vaultArg : string) (RegExp_test : string -> string -> option bool)
  (p c : string) (createIfNotExists : option bool) (fs : Fs.files) :
  (exists e,
      run (Server.callTool cwd homedir vaultArg RegExp_test
             (Server.WriteNote p c createIfNotExists)) fs
      = (Io.Ok (Some (Server.Response ("Error: Failed to write note: " +:+ Fs.message e) true)),
         fs))
  \/ (exists r c0,
         fs !! r = Some (Fs.File c0)
         /\ run (Server.callTool cwd homedir vaultArg RegExp_test
                   (Server.WriteNote p c createIfNotExists)) fs
            = (Io.Ok (Some (Server.Response ("Successfully updated note: " +:+ p) false)),
               <[r := Fs.File (Js.toWellFormed c)]> fs))
  \/ (exists r,
         fs !! r = None /\ createIfNotExists <> Some false
         /\ run (Server.callTool cwd homedir vaultArg RegExp_test
                   (Server.WriteNote p c createIfNotExists)) fs
            = (Io.Ok (Some (Server.Response ("Successfully created note: " +:+ p) false)),
               <[r := Fs.File (Js.toWellFormed c)]> fs)).
Proof.
  rewrite callTool_write_run.
  destruct (written_cases cwd homedir vaultArg fs p c (default true createIfNotExists))
    as [[e ->]|[(r & c0 & Hk & ->)|(r & Hk & Hflag & ->)]].
  - left. exists e. reflexivity.
  - right; left. exists r, c0. split; [exact Hk|reflexivity].
  - right; right. exists r. split; [exact Hk|]. split; [|reflexivity].
    intros ->. discriminate.
Qed.

Lemma writeFile_dir (cwd : string) (fs : Fs.files) (v c : string) (r : list string) :
  Fs.locate cwd fs true v = Fs.Found r -> Fs.is_dir fs r = true ->
  Fs.writeFile cwd fs v c = inl Fs.EISDIR.
Proof.
  unfold Fs.writeFile, Fs.is_dir. intros -> H. destruct r as [|x r]; [reflexivity|].
  destruct (fs !! (x :: r)) as [[| |]|]; try discriminate; reflexivity.
Qed.

Lemma exists_as_dir_none (cwd : string) (fs : Fs.files) (v : string) :
  Fs.exists_as_dir cwd fs v = None ->
  exists r, Fs.locate cwd fs true v = Fs.Found r /\ Fs.is_dir fs r = true.
Proof.
  unfold Fs.exists_as_dir. destruct (Fs.locate cwd fs true v) as [r|r|e]; [|discriminate..].
  destruct (Fs.is_dir fs r) eqn:E; [|discriminate]. intros _. exists r. split; [reflexivity|exact E].
Qed.

(** X8. [write_note] on a path that validates to a directory is answered
    with the [EISDIR] error of the write, and changes nothing. *)
Theorem write_note_on_a_directory_fails
  (cwd homedir vaultArg : string) (RegExp_test : string -> string -> option bool)
  (p c v : string) (createIfNotExists : option bool) (fs : Fs.files) :
  Path.isAbsolute cwd = true ->
  Io.value (Server.validatePath cwd homedir vaultArg
              (Path.join [Server.vaultDirectory0 cwd homedir vaultArg; p]) fs) = Io.Ok v ->
  Fs.exists_as_dir cwd fs v = None ->
  run (Server.callTool cwd homedir vaultArg RegExp_test
         (Server.WriteNote p c createIfNotExists)) fs
  = (Io.Ok (Some (Server.Response
                    ("Error: Failed to write note: EISDIR: illegal operation on a directory, open '"
                     +:+ v +:+ "'") true)), fs).
Proof.
  intros Hcwd Hv Hdir. rewrite validatePath_value in Hv.
  rewrite callTool_write_run. unfold written. rewrite Hv.
  destruct (exists_as_dir_none cwd fs v Hdir) as (r & Hl & Hisdir).
  rewrite (validated_parent_dir cwd homedir vaultArg fs _ v Hcwd Hv); [|rewrite Hl; exact I].
  rewrite (access_found cwd fs v r Hl).
  unfold stored. rewrite (writeFile_dir cwd fs v c r Hl Hisdir). reflexivity.
Qed.

Lemma write_note_on_a_directory_fails_witness :
  run (Server.callTool "/" "/home/u" "/vault" no_regexp (Server.WriteNote "sub" "C" None))
    sample_tree
  = (Io.Ok (Some (Server.Response
                    ("Error: Failed to write note: EISDIR: illegal operation on a directory, open '"
                     +:+ "/vault/sub" +:+ "'") true)), sample_tree).
Proof.
  apply (write_note_on_a_directory_fails "/" "/home/u" "/vault" no_regexp "sub" "C" "/vault/sub"
           None sample_tree).
  - reflexivity.
  - vm_compute. reflexivity.
  - vm_compute. reflexivity.
Defined.

(** X9. After a [write_note] that succeeded, a second one on the same
    path succeeds whatever its flag, replaces the content (each content as
    UTF-8 stores it) and reports "updated". *)
Theorem write_note_again_updates
  (cwd homedir vaultArg : string) (RegExp_test : string -> string -> option bool)
  (p c1 c2 : string) (flag1 flag2 : option bool)
  (fs fs1 : Fs.files) (reply : Server.response) :
  Path.isAbsolute cwd = true ->
  run (Server.callTool cwd homedir vaultArg RegExp_test (Server.WriteNote p c1 flag1)) fs
  = (Io.Ok (Some reply), fs1) ->
  Server.isError reply = false ->
  exists r,
    fs1 !! r = Some (Fs.File (Js.toWellFormed c1))
    /\ run (Server.callTool cwd homedir vaultArg RegExp_test (Server.WriteNote p c2 flag2)) fs1
       = (Io.Ok (Some (Server.Response ("Successfully updated note: " +:+ p) false)),
          <[r := Fs.File (Js.toWellFormed c2)]> fs1).
Proof.
  intros Hcwd Hwrite Hok. rewrite callTool_write_run in Hwrite.
  destruct (written cwd homedir vaultArg fs p c1 (default true flag1)) as [[resp|e] fs'] eqn:Hw.
  2:{ injection Hwrite as <- _. discriminate. }
  injection Hwrite as _ <-.
  destruct (written_ok _ _ _ _ _ _ _ _ _ Hw) as [v [Hv Hwf]].
  destruct (validated_write_read _ _ _ _ _ _ _ _ Hv Hwf) as [v' [Hv' Hread]].
  destruct (readFile_inr _ _ _ _ Hread) as (r & Hl & Hne & Hk).
  exists r. split; [exact Hk|].
  rewrite callTool_write_run. unfold written. rewrite Hv'.
  rewrite (validated_parent_dir cwd homedir vaultArg fs' _ v' Hcwd Hv'); [|rewrite Hl; exact I].
  rewrite (access_found cwd fs' v' r Hl).
  unfold stored. rewrite (writeFile_file cwd fs' v' _ c2 r Hl Hne Hk). reflexivity.
Qed.

Lemma write_note_again_updates_witness :
  exists r,
    Io.tree (Server.callTool "/" "/home/u" "/vault" no_regexp
               (Server.WriteNote "sub/new.md" "one" None) sample_tree) !! r
    = Some (Fs.File "one")
    /\ run (Server.callTool "/" "/home/u" "/vault" no_regexp
              (Server.WriteNote "sub/new.md" "two" (Some false)))
         (Io.tree (Server.callTool "/" "/home/u" "/vault" no_regexp
                     (Server.WriteNote "sub/new.md" "one" None) sample_tree))
       = (Io.Ok (Some (Server.Response ("Successfully updated note: " +:+ "sub/new.md") false)),
          <[r := Fs.File "two"]>
            (Io.tree (Server.callTool "/" "/home/u" "/vault" no_regexp
                        (Server.WriteNote "sub/new.md" "one" None) sample_tree))).
Proof.
  apply (write_note_again_updates "/" "/home/u" "/vault" no_regexp "sub/new.md" "one" "two"
           None (Some false) sample_tree _
           (Server.Response "Successfully created note: sub/new.md" false)).
  - reflexivity.
  - unfold run. apply (f_equal2 pair); [vm_compute; reflexivity|reflexivity].
  - reflexivity.
Defined.

(** ** The tool handler *)

(** X10. The tool handler answers every request: no error leaves it.  A
    reply flagged as an error begins with ["Error: "], only [write_note]
    can change the tree, and a tool it does not know is answered "Unknown
    tool" without any call. *)
Theorem callTool_always_answers
  (cwd homedir vaultArg : string) (RegExp_test : string -> string -> option bool)
  (req : Server.request) (fs : Fs.files) :
  Path.isAbsolute cwd = true ->
  exists reply fs',
    run (Server.callTool cwd homedir vaultArg RegExp_test req) fs = (Io.Ok (Some reply), fs')
    /\ (Server.isError reply = true -> Js.startsWith (Server.text reply) "Error: " = true)
    /\ ((forall p c flag, req <> Server.WriteNote p c flag) -> fs' = fs)
    /\ (forall name, req = Server.OtherTool name ->
          reply = Server.Response ("Error: Unknown tool: " +:+ name) true
          /\ Io.calls (Server.callTool cwd homedir vaultArg RegExp_test req fs) = []).
Proof.
  intros Hcwd. destruct req as [paths|query|p c flag|name].
  - destruct (callTool_read_run cwd homedir vaultArg RegExp_test paths fs) as [log Hrun].
    eexists _, fs. unfold run. rewrite Hrun. split; [reflexivity|].
    split; [discriminate|]. split; [reflexivity|discriminate].
  - rewrite callTool_search_run.
    destruct (searchNotes_finishes cwd homedir vaultArg RegExp_test query fs Hcwd)
      as [[results ->]|[e ->]].
    + eexists _, fs. split; [reflexivity|]. split; [discriminate|].
      split; [reflexivity|discriminate].
    + eexists _, fs. split; [reflexivity|].
      split; [intros _; exact (prefix_append "Error: " (Fs.message e))|].
      split; [reflexivity|discriminate].
  - rewrite callTool_write_run.
    destruct (written cwd homedir vaultArg fs p c (default true flag)) as [[r|e] fs'] eqn:Hw.
    + eexists _, fs'. split; [reflexivity|]. split.
      * unfold written in Hw. intros Herr.
        assert (Hs : forall fs0 v b x, stored cwd fs0 p v c b = (Io.Ok r, x) ->
                                       Server.isError r = false).
        { intros fs0 v b x. unfold stored. destruct (Fs.writeFile cwd fs0 v c); [discriminate|].
          intros [= <- _]. reflexivity. }
        destruct (validated _ _ _ _ _) as [v|]; [|discriminate].
        destruct (Fs.mkdirp cwd fs (Path.dirname v)) as [[en|] fs1]; [discriminate|].
        destruct (Fs.access cwd fs1 v).
        -- destruct (default true flag); [|discriminate].
           rewrite (Hs _ _ _ _ Hw) in Herr. discriminate.
        -- rewrite (Hs _ _ _ _ Hw) in Herr. discriminate.
      * split; [intros H; destruct (H p c flag eq_refl)|discriminate].
    + eexists _, fs'. split; [reflexivity|].
      split; [intros _; exact (prefix_append "Error: " (Fs.message e))|].
      split; [intros H; destruct (H p c flag eq_refl)|discriminate].
  - eexists _, fs. split; [reflexivity|]. split; [reflexivity|]. split; [reflexivity|].
    intros name' [= <-]. split; reflexivity.
Qed.

Lemma callTool_always_answers_witness :
  exists reply fs',
    run (Server.callTool "/" "/home/u" "/vault" no_regexp (Server.OtherTool "delete_note"))
      sample_tree = (Io.Ok (Some reply), fs')
    /\ reply = Server.Response ("Error: Unknown tool: " +:+ "delete_note") true
    /\ fs' = sample_tree.
Proof.
  destruct (callTool_always_answers "/" "/home/u" "/vault" no_regexp
              (Server.OtherTool "delete_note") sample_tree eq_refl)
    as (reply & fs' & Hrun & _ & Hsame & Hother).
  exists reply, fs'. split; [exact Hrun|]. split.
  - exact (proj1 (Hother "delete_note" eq_refl)).
  - apply Hsame. discriminate.
Defined.

(** ** The search: its calls and its results *)

Section MonadFacts.
Import Fs Io.

Lemma bind_triple {A B : Type} (m : M A) (k : A -> M B) (fs fs1 fs2 : files) (a : A)
  (r : result B) (l1 l2 : list call) :
  m fs = (Ok a, fs1, l1) -> k a fs1 = (r, fs2, l2) -> bind m k fs = (r, fs2, l1 ++ l2).
Proof. intros Hm Hk. unfold bind. rewrite Hm, Hk. reflexivity. Qed.

Lemma guard_triple {A : Type} (m : M A) (fs : files) (r : result A) (l : list call) :
  m fs = (r, fs, l) ->
  try_catch (bind m (fun _ => ret true)) (fun _ => ret false) fs
  = (Ok (match r with Ok _ => true | Throw _ => false end), fs, l ++ []).
Proof. intros Hm. unfold try_catch, bind. rewrite Hm. destruct r; reflexivity. Qed.

Lemma extends_refl (Q : string -> Prop) (results : list string) : extends Q results results.
Proof. exists []. split; [symmetry; apply app_nil_r|constructor]. Qed.

Lemma extends_trans (Q : string -> Prop) (a b c : list string) :
  extends Q a b -> extends Q b c -> extends Q a c.
Proof.
  intros (x & -> & Hx) (y & -> & Hy). exists (x ++ y).
  split; [symmetry; apply app_assoc|apply Forall_app; split; assumption].
Qed.


End MonadFacts.

Section VisitFacts.
Import Fs Io.
Variables (cwd homedir vaultArg : string).
Variable RegExp_test : string -> string -> option bool.
Local Abbreviation visit := (Server.visit cwd homedir vaultArg RegExp_test).
Local Abbreviation search := (Server.search cwd homedir vaultArg RegExp_test).
Local Abbreviation root := (Server.vaultDirectory0 cwd homedir vaultArg).

Lemma validatePath_lookups (fs : files) (p : string) :
  exists l, Server.validatePath cwd homedir vaultArg p fs
            = (validated cwd homedir vaultArg fs p, fs, l)
            /\ Forall (fun c => lookup_call c = true) l.
Proof.
  unfold validated, Server.validatePath, parentCheck, parentMissingError.
  destruct (Server.hiddenSegment p); [exists []; split; [reflexivity|constructor]|].
  destruct (Server.insideVault cwd homedir vaultArg
              (Server.normalizePath (Server.absoluteOf cwd homedir p))); simpl;
    [|exists []; split; [reflexivity|constructor]].
  unfold try_catch, bind, Server.fs_realpath, query, throw, ret.
  destruct (realpath cwd fs (Server.absoluteOf cwd homedir p)) as [e|rp]; simpl.
  - destruct (realpath cwd fs (Path.dirname (Server.absoluteOf cwd homedir p))) as [e'|rpp]; simpl.
    + eexists. split; [reflexivity|repeat constructor].
    + destruct (Server.insideVault cwd homedir vaultArg (Server.normalizePath rpp));
        (eexists; split; [reflexivity|repeat constructor]).
  - destruct (Server.insideVault cwd homedir vaultArg (Server.normalizePath rp)); simpl.
    + eexists. split; [reflexivity|repeat constructor].
    + destruct (realpath cwd fs (Path.dirname (Server.absoluteOf cwd homedir p))) as [e'|rpp];
        simpl.
      * eexists. split; [reflexivity|repeat constructor].
      * destruct (Server.insideVault cwd homedir vaultArg (Server.normalizePath rpp));
          (eexists; split; [reflexivity|repeat constructor]).
Qed.

(** The loop over the entries: what it pushes, and the calls it makes,
    given what the descents do. *)
Lemma visit_spec (Q : string -> Prop) (descend : string -> list string -> M Server.walked)
  (query basePath currentPath : string) (fs : files) (entries : list dirent) :
  (forall e results,
      In e entries -> isDirectory e = true ->
      (exists v, validated cwd homedir vaultArg fs (Path.join [currentPath; name e]) = Ok v) ->
      exists w l, descend (Path.join [currentPath; name e]) results fs = (Ok w, fs, l)
                  /\ Forall (fun c => lookup_call c = true) l
                  /\ (w <> Server.Unfinished -> extends Q results (results_of w))) ->
  (forall e,
      In e entries ->
      (exists v, validated cwd homedir vaultArg fs (Path.join [currentPath; name e]) = Ok v) ->
      Js.endsWith (name e) ".md" = true ->
      Server.entry_matches RegExp_test query (name e) = true ->
      Q (Js.remove_first (Path.join [currentPath; name e]) basePath)) ->
  forall results,
  exists w l, visit descend query basePath currentPath entries results fs = (Ok w, fs, l)
              /\ Forall (fun c => lookup_call c = true) l
              /\ (w <> Server.Unfinished -> extends Q results (results_of w)).
Proof.
  induction entries as [|entry rest IH]; intros Hdescend Hpush results.
  - exists (Server.Walked results), []. split; [reflexivity|]. split; [constructor|].
    intros _. apply extends_refl.
  - assert (Hrest : forall results,
               exists w l, visit descend query basePath currentPath rest results fs = (Ok w, fs, l)
                           /\ Forall (fun c => lookup_call c = true) l
                           /\ (w <> Server.Unfinished -> extends Q results (results_of w))).
    { apply IH.
      - intros e results' Hin. apply Hdescend. right. exact Hin.
      - intros e Hin. apply Hpush. right. exact Hin. }
    cbn [Server.visit].
    destruct (validatePath_lookups fs (Path.join [currentPath; name entry])) as (l0 & Hv & Hl0).
    pose proof (guard_triple _ _ _ _ Hv) as Hguard.
    destruct (validated cwd homedir vaultArg fs (Path.join [currentPath; name entry]))
      as [v|err] eqn:Hval.
    2:{ destruct (Hrest results) as (w & l & Hw & Hl & Hext).
        exists w, ((l0 ++ []) ++ l). split; [exact (bind_triple _ _ _ _ _ _ _ _ _ Hguard Hw)|].
        split; [|exact Hext]. rewrite app_nil_r. apply Forall_app. split; assumption. }
    set (results1 := Server.push_match RegExp_test query basePath
                       (Path.join [currentPath; name entry]) (name entry) results).
    assert (Hpushed : extends Q results results1).
    { unfold results1, Server.push_match.
      destruct (Js.endsWith (name entry) ".md") eqn:Hmd; [|apply extends_refl].
      destruct (Server.entry_matches RegExp_test query (name entry)) eqn:Hm;
        [|apply extends_refl].
      exists [Js.remove_first (Path.join [currentPath; name entry]) basePath].
      split; [reflexivity|]. constructor; [|constructor].
      apply Hpush; eauto. left. reflexivity. }
    destruct (isDirectory entry) eqn:Hdir.
    + destruct (Hdescend entry results1 (or_introl eq_refl) Hdir (ex_intro _ v Hval))
        as (w1 & l1 & Hw1 & Hl1 & Hext1).
      destruct w1 as [results2|e results2|].
      * destruct (Hrest results2) as (w & l & Hw & Hl & Hext).
        exists w, ((l0 ++ []) ++ (l1 ++ l)). split.
        -- apply (bind_triple _ _ _ _ _ _ _ _ _ Hguard). cbn [negb]. fold results1.
           apply (bind_triple _ _ _ _ _ _ _ _ _ Hw1). exact Hw.
        -- split; [rewrite app_nil_r; repeat (apply Forall_app; split); assumption|].
           intros Hne. eapply extends_trans; [exact Hpushed|].
           eapply extends_trans; [apply Hext1; discriminate|]. apply Hext, Hne.
      * destruct (Hrest results2) as (w & l & Hw & Hl & Hext).
        exists w, ((l0 ++ []) ++ (l1 ++ l)). split.
        -- apply (bind_triple _ _ _ _ _ _ _ _ _ Hguard). cbn [negb]. fold results1.
           apply (bind_triple _ _ _ _ _ _ _ _ _ Hw1). exact Hw.
        -- split; [rewrite app_nil_r; repeat (apply Forall_app; split); assumption|].
           intros Hne. eapply extends_trans; [exact Hpushed|].
           eapply extends_trans; [apply Hext1; discriminate|]. apply Hext, Hne.
      * exists Server.Unfinished, ((l0 ++ []) ++ (l1 ++ [])). split.
        -- apply (bind_triple _ _ _ _ _ _ _ _ _ Hguard). cbn [negb]. fold results1.
           apply (bind_triple _ _ _ _ _ _ _ _ _ Hw1). reflexivity.
        -- split; [rewrite !app_nil_r; apply Forall_app; split; assumption|congruence].
    + destruct (Hrest results1) as (w & l & Hw & Hl & Hext).
      exists w, ((l0 ++ []) ++ l). split.
      * apply (bind_triple _ _ _ _ _ _ _ _ _ Hguard). cbn [negb]. fold results1.
        exact Hw.
      * split; [rewrite app_nil_r; apply Forall_app; split; assumption|].
        intros Hne. eapply extends_trans; [exact Hpushed|]. apply Hext, Hne.
Qed.

Lemma readdir_triple (fs : files) (p : string) :
  try_catch (let! entries := Server.fs_readdir cwd p in ret (inr entries))
    (fun e => ret (inl e)) fs
  = (Ok (match readdir cwd fs p with
         | inr es => inr es
         | inl e => inl (sys_error e "scandir" p)
         end), fs, [Readdir p] ++ []).
Proof.
  unfold try_catch, bind, Server.fs_readdir, query, ret.
  destruct (readdir cwd fs p); reflexivity.
Qed.

(** [search] only looks paths up, whatever the tree. *)
Lemma search_lookups (query basePath : string) (fs : files) (depth : nat) :
  forall (currentPath : string) (results : list string),
  exists w l, search query depth basePath currentPath results fs = (Ok w, fs, l)
              /\ Forall (fun c => lookup_call c = true) l
              /\ (w <> Server.Unfinished -> extends (fun _ => True) results (results_of w)).
Proof.
  induction depth as [|depth IH]; intros currentPath results.
  - exists Server.Unfinished, []. split; [reflexivity|]. split; [constructor|congruence].
  - cbn [Server.search].
    destruct (readdir cwd fs currentPath) as [e|es] eqn:Hrd.
    + exists (Server.Rejected (sys_error e "scandir" currentPath) results),
        (([Readdir currentPath] ++ []) ++ []).
      split.
      * eapply bind_triple; [apply readdir_triple|]. rewrite Hrd. reflexivity.
      * split; [repeat constructor|]. intros _. apply extends_refl.
    + destruct (visit_spec (fun _ => True) (search query depth basePath) query basePath
                  currentPath fs es) with (results := results) as (w & l & Hw & Hl & Hext).
      * intros e results' _ _ _. apply IH.
      * intros; exact I.
      * exists w, (([Readdir currentPath] ++ []) ++ l). split.
        -- eapply bind_triple; [apply readdir_triple|]. rewrite Hrd. exact Hw.
        -- split; [|exact Hext]. apply Forall_app. split; [repeat constructor|exact Hl].
Qed.

End VisitFacts.

Section SearchSoundness.
Import Fs Io.
Variables (cwd homedir vaultArg : string).
Variable RegExp_test : string -> string -> option bool.
Local Abbreviation visit := (Server.visit cwd homedir vaultArg RegExp_test).
Local Abbreviation search := (Server.search cwd homedir vaultArg RegExp_test).
Local Abbreviation root := (Server.vaultDirectory0 cwd homedir vaultArg).

Lemma join_app (a b : list string) :
  a <> [] -> b <> [] -> Js.join "/" (a ++ b) = Js.join "/" a +:+ "/" +:+ Js.join "/" b.
Proof.
  intros Ha Hb. induction a as [|x a IH]; [congruence|]. clear Ha.
  destruct a as [|y a].
  - destruct b as [|z b]; [congruence|]. apply join_cons.
  - cbn [app] in *. rewrite !join_cons, IH by discriminate.
    rewrite !append_assoc. reflexivity.
Qed.

Lemma render_prefix (zs l : list string) : exists t, render (zs ++ l) = render zs +:+ t.
Proof.
  destruct l as [|x l]; [exists ""; rewrite app_nil_r; symmetry; apply append_nil_r|].
  destruct zs as [|z zs].
  - exists (Js.join "/" (x :: l)). reflexivity.
  - exists ("/" +:+ Js.join "/" (x :: l)).
    change ((z :: zs) ++ x :: l) with (z :: (zs ++ x :: l)).
    rewrite !render_nonempty. change (z :: zs ++ x :: l) with ((z :: zs) ++ x :: l).
    rewrite join_app by discriminate. rewrite !append_assoc. reflexivity.
Qed.

Lemma remove_first_prefix (a t : string) : Js.remove_first (a +:+ t) a = t.
Proof.
  assert (Hdrop : Js.drop (String.length a) (a +:+ t) = t).
  { induction a as [|c a IH]; [destruct t; reflexivity|]. rewrite append_cons. exact IH. }
  pose proof (prefix_append a t) as Hp.
  destruct (a +:+ t) as [|c s] eqn:E; cbn [Js.remove_first]; rewrite Hp; exact Hdrop.
Qed.

Lemma readdir_inr (fs : files) (p : string) (es : list dirent) :
  readdir cwd fs p = inr es ->
  exists r, locate cwd fs true p = Found r /\ is_dir fs r = true /\ es = entries fs r.
Proof.
  unfold readdir. destruct (locate cwd fs true p) as [r|r|e]; [|discriminate..].
  destruct (is_dir fs r) eqn:E; [|discriminate]. intros [= <-]. exists r.
  split; [reflexivity|]. split; [exact E|reflexivity].
Qed.

(** What [search] pushes are notes found below the vault directory. *)
Lemma search_sound (query : string) (zs r0 : list string) (fs : files) (depth : nat) :
  forall (ds : list string) (results : list string),
    Forall proper (zs ++ ds) ->
    (forall r, locate cwd fs true (render (zs ++ ds)) = Found r -> r = r0 ++ ds) ->
    (forall k, is_dir fs (r0 ++ take k ds) = true) ->
    exists w l, search query depth (render zs) (render (zs ++ ds)) results fs = (Ok w, fs, l)
                /\ Forall (fun c => lookup_call c = true) l
                /\ (w <> Server.Unfinished ->
                    extends (listed cwd homedir vaultArg RegExp_test fs query zs r0)
                      results (results_of w)).
Proof.
  induction depth as [|depth IH]; intros ds results Hxs Hat Hreal.
  - exists Server.Unfinished, []. split; [reflexivity|]. split; [constructor|congruence].
  - cbn [Server.search].
    destruct (readdir cwd fs (render (zs ++ ds))) as [e|es] eqn:Hrd.
    + exists (Server.Rejected (sys_error e "scandir" (render (zs ++ ds))) results),
        (([Readdir (render (zs ++ ds))] ++ []) ++ []).
      split.
      * eapply bind_triple; [apply readdir_triple|]. rewrite Hrd. reflexivity.
      * split; [repeat constructor|]. intros _. apply extends_refl.
    + destruct (readdir_inr _ _ _ Hrd) as (r & Hl & Hdir & ->).
      pose proof (Hat r Hl) as Hr. subst r.
      destruct (visit_spec cwd homedir vaultArg RegExp_test
                  (listed cwd homedir vaultArg RegExp_test fs query zs r0)
                  (search query depth (render zs)) query (render zs)
                  (render (zs ++ ds)) fs (entries fs (r0 ++ ds))) with (results := results)
        as (w & l & Hw & Hlog & Hext).
      * intros e results' Hin Hisdir _.
        destruct (entries_spec _ _ _ Hin) as [Hname (nd & Hk & Hnd)].
        assert (Hd : fs !! ((r0 ++ ds) ++ [name e]) = Some Dir).
        { rewrite Hisdir in Hnd. destruct nd; try discriminate. exact Hk. }
        assert (Hxs' : Forall proper ((zs ++ ds) ++ [name e])).
        { apply Forall_app. split; [exact Hxs|]. constructor; [exact Hname|constructor]. }
        rewrite (join_render _ _ Hxs Hname), <- app_assoc. apply IH.
        -- rewrite app_assoc. exact Hxs'.
        -- intros r' Hr'. rewrite app_assoc in Hr'.
           rewrite (locate_render _ _ _ _ Hxs') in Hr'.
           rewrite (locate_render _ _ _ _ Hxs) in Hl.
           rewrite (walk_step_dir _ _ _ _ _ _ _ Hname Hd Hdir Hl) in Hr'.
           injection Hr' as <-. rewrite <- app_assoc. reflexivity.
        -- intros k. destruct (Nat.le_gt_cases k (length ds)) as [Hk'|Hk'].
           ++ rewrite (take_app_le ds [name e] k Hk'). apply Hreal.
           ++ rewrite take_ge by (rewrite length_app; cbn [length]; lia).
              rewrite app_assoc. unfold is_dir. rewrite Hd.
              destruct (r0 ++ ds); reflexivity.
      * intros e Hin Hval Hmd Hmatch.
        destruct (entries_spec _ _ _ Hin) as [Hname (nd & Hk & _)].
        rewrite (join_render _ _ Hxs Hname), <- app_assoc in Hval |- *.
        destruct (render_prefix zs (ds ++ [name e])) as [t Ht].
        rewrite Ht, remove_first_prefix.
        exists ds, (name e), nd. rewrite <- Ht.
        split; [reflexivity|]. split.
        { apply Forall_app. split; [|constructor; [exact Hname|constructor]].
          apply Forall_app in Hxs as [_ Hds]. exact Hds. }
        split; [exact Hmd|]. split; [exact Hmatch|]. split; [exact Hval|].
        split; [exact Hl|]. split; [exact Hdir|].
        split; [rewrite <- app_assoc in Hk; exact Hk|exact Hreal].
      * exists w, (([Readdir (render (zs ++ ds))] ++ []) ++ l). split.
        -- eapply bind_triple; [apply readdir_triple|]. rewrite Hrd. exact Hw.
        -- split; [|exact Hext]. apply Forall_app. split; [repeat constructor|exact Hlog].
Qed.

End SearchSoundness.

Section EntryFacts.
Import Fs Io.
Variables (cwd homedir vaultArg : string).
Variable RegExp_test : string -> string -> option bool.
Local Abbreviation visit := (Server.visit cwd homedir vaultArg RegExp_test).
Local Abbreviation search := (Server.search cwd homedir vaultArg RegExp_test).
Local Abbreviation root := (Server.vaultDirectory0 cwd homedir vaultArg).

Lemma run_of_triple {A : Type} (m : M A) (fs fs' : files) (r : result A) (l : list call) :
  m fs = (r, fs', l) -> run m fs = (r, fs').
Proof. intros H. unfold run. rewrite H. reflexivity. Qed.






Lemma hiddenSegment_render (xs : list string) :
  Forall proper xs -> Server.hiddenSegment (render xs) = dotted xs.
Proof.
  intros Hxs. destruct xs as [|x xs]; [reflexivity|].
  unfold Server.hiddenSegment. fold (Path.segments (render (x :: xs))).
  rewrite (segments_render _ _ Hxs). reflexivity.
Qed.

Lemma validated_not_hidden (fs : files) (p v : string) :
  validated cwd homedir vaultArg fs p = Ok v -> Server.hiddenSegment p = false.
Proof. unfold validated. destruct (Server.hiddenSegment p); [discriminate|reflexivity]. Qed.

(** A canonical path that is not hidden and lies in the vault is validated
    to itself. *)
Lemma validated_canonical (fs : files) (r : list string) :
  settled fs r -> dotted r = false ->
  Server.insideVault cwd homedir vaultArg (Server.normalizePath (render r)) = true ->
  validated cwd homedir vaultArg fs (render r) = Ok (render r).
Proof.
  intros Hr Hdot Hin. pose proof (settled_proper _ _ Hr) as Hp.
  unfold validated. rewrite (hiddenSegment_render _ Hp), Hdot.
  rewrite (absoluteOf_canonical cwd homedir r Hp), Hin.
  rewrite (realpath_found _ _ _ _ (locate_render_settled cwd fs true r Hr)), Hin. reflexivity.
Qed.

(** Below the vault directory every canonical path is in the vault. *)
Lemma below_root_inside (zs l : list string) :
  Forall proper (zs ++ l) ->
  root = render zs ->
  Server.insideVault cwd homedir vaultArg (Server.normalizePath (render (zs ++ l))) = true.
Proof.
  intros Hp Hroot. unfold Server.normalizePath.
  rewrite (normalize_render _ Hp), lower_render, map_app.
  destruct (render_prefix (map Js.toLowerCase zs) (map Js.toLowerCase l)) as [t ->].
  rewrite <- lower_render, <- Hroot.
  assert (Hlow : Js.toLowerCase root = root).
  { change root with (Js.toLowerCase (Path.normalize
                        (Path.resolve cwd [Server.expandHome homedir vaultArg]))).
    apply lower_idem. }
  rewrite Hlow. unfold Server.insideVault, Server.vaultDirectories. cbn [existsb].
  rewrite orb_false_r. apply prefix_append.
Qed.

End EntryFacts.

Section VisitCompleteness.
Import Fs Io.
Variables (cwd homedir vaultArg : string).
Variable RegExp_test : string -> string -> option bool.
Local Abbreviation visit := (Server.visit cwd homedir vaultArg RegExp_test).
Local Abbreviation search := (Server.search cwd homedir vaultArg RegExp_test).
Local Abbreviation root := (Server.vaultDirectory0 cwd homedir vaultArg).



End VisitCompleteness.

Section SearchCompleteness.
Import Fs Io.
Variables (cwd homedir vaultArg : string).
Variable RegExp_test : string -> string -> option bool.
Local Abbreviation visit := (Server.visit cwd homedir vaultArg RegExp_test).
Local Abbreviation search := (Server.search cwd homedir vaultArg RegExp_test).
Local Abbreviation root := (Server.vaultDirectory0 cwd homedir vaultArg).







Lemma search_run_step (query basePath currentPath : string) (results : list string)
  (fs : files) (depth : nat) :
  run (search query (S depth) basePath currentPath results) fs
  = match readdir cwd fs currentPath with
    | inl e => (Ok (Server.Rejected (sys_error e "scandir" currentPath) results), fs)
    | inr es => run (visit (search query depth basePath) query basePath currentPath es results) fs
    end.
Proof.
  cbn [Server.search]. rewrite run_bind, run_try_catch, run_bind, run_readdir.
  destruct (readdir cwd fs currentPath); rewrite !run_ret; reflexivity.
Qed.


Lemma searchNotes_triple (query : string) (fs : files) :
  Server.searchNotes cwd homedir vaultArg RegExp_test query fs
  = Io.bind (search query (Server.depth_bound fs) root root [])
      (fun w => match w with
                | Server.Walked results => Io.ret (Some results)
                | Server.Rejected e _ => Io.throw e
                | Server.Unfinished => Io.ret None
                end) fs.
Proof. reflexivity. Qed.

End SearchCompleteness.

Section SearchResults.
Import Fs Io.
Variables (cwd homedir vaultArg : string).
Variable RegExp_test : string -> string -> option bool.
Local Abbreviation search := (Server.search cwd homedir vaultArg RegExp_test).
Local Abbreviation root := (Server.vaultDirectory0 cwd homedir vaultArg).

(** [searchNotes] and the handler, from what the walk from the vault
    directory does. *)
Lemma searchNotes_of_walk (query : string) (fs : files) (w : Server.walked) (l : list call) :
  search query (Server.depth_bound fs) root root [] fs = (Ok w, fs, l) ->
  Server.searchNotes cwd homedir vaultArg RegExp_test query fs
  = (match w with
     | Server.Walked results => Ok (Some results)
     | Server.Rejected e _ => Throw e
     | Server.Unfinished => Ok None
     end, fs, l ++ []).
Proof.
  intros Hw. rewrite searchNotes_triple.
  apply (bind_triple _ _ _ _ _ _ _ _ _ Hw). destruct w; reflexivity.
Qed.

Lemma callTool_search_calls (query : string) (fs : files) (w : Server.walked) (l : list call) :
  search query (Server.depth_bound fs) root root [] fs = (Ok w, fs, l) ->
  calls (Server.callTool cwd homedir vaultArg RegExp_test (Server.SearchNotes query) fs) = l.
Proof.
  intros Hw. pose proof (searchNotes_of_walk _ _ _ _ Hw) as Hs.
  unfold Server.callTool, Server.search_notes, try_catch, bind. rewrite Hs.
  destruct w as [results|e results|]; cbn; rewrite ?app_nil_r; reflexivity.
Qed.

End SearchResults.

(** X11. [search_notes] changes nothing and only lists directories and
    resolves paths: it never opens a note. *)
Theorem search_notes_only_lists_and_resolves
  (cwd homedir vaultArg : string) (RegExp_test : string -> string -> option bool)
  (query : string) (fs : Fs.files) :
  Io.tree (Server.callTool cwd homedir vaultArg RegExp_test (Server.SearchNotes query) fs) = fs
  /\ forall c,
       In c (Io.calls (Server.callTool cwd homedir vaultArg RegExp_test
                         (Server.SearchNotes query) fs)) ->
       (exists p, c = Io.Readdir p) \/ (exists p, c = Io.Realpath p).
Proof.
  destruct (search_lookups cwd homedir vaultArg RegExp_test query
              (Server.vaultDirectory0 cwd homedir vaultArg) fs (Server.depth_bound fs)
              (Server.vaultDirectory0 cwd homedir vaultArg) []) as (w & l & Hw & Hl & _).
  split.
  - pose proof (searchNotes_of_walk cwd homedir vaultArg RegExp_test _ _ _ _ Hw) as Hs.
    unfold Server.callTool, Server.search_notes, Io.try_catch, Io.bind. rewrite Hs.
    destruct w; reflexivity.
  - rewrite (callTool_search_calls cwd homedir vaultArg RegExp_test _ _ _ _ Hw).
    intros c Hc. apply list_elem_of_In in Hc.
    rewrite Forall_forall in Hl. specialize (Hl c Hc).
    destruct c; try discriminate; eauto.
Qed.

(** Where the results of [searchNotes] come from. *)
Lemma searchNotes_listed
  (cwd homedir vaultArg : string) (RegExp_test : string -> string -> option bool)
  (query : string) (fs : Fs.files) (results : list string) (res : string) :
  Path.isAbsolute cwd = true ->
  Io.value (Server.searchNotes cwd homedir vaultArg RegExp_test query fs)
  = Io.Ok (Some results) ->
  In res results ->
  exists zs r0,
    Forall proper zs
    /\ Server.vaultDirectory0 cwd homedir vaultArg = Fs.render zs
    /\ Fs.locate cwd fs true (Fs.render zs) = Fs.Found r0
    /\ listed cwd homedir vaultArg RegExp_test fs query zs r0 res.
Proof.
  intros Hcwd Hval Hin.
  destruct (root_render cwd homedir vaultArg Hcwd) as (zs & Hzs & Hroot).
  destruct (Fs.readdir cwd fs (Fs.render zs)) as [en|es] eqn:Hrd.
  { (* the vault directory cannot be listed: the search is rejected *)
    exfalso.
    destruct (search_lookups cwd homedir vaultArg RegExp_test query
                (Fs.render zs) fs (Server.depth_bound fs) (Fs.render zs) [])
      as (w & l & Hw & _ & _).
    pose proof (run_of_triple _ _ _ _ _ Hw) as Hrun.
    change (Server.depth_bound fs) with (S (Nat.pred (Server.depth_bound fs))) in Hrun.
    rewrite search_run_step, Hrd in Hrun. injection Hrun as <-.
    rewrite <- Hroot in Hw.
    rewrite (searchNotes_of_walk cwd homedir vaultArg RegExp_test _ _ _ _ Hw) in Hval.
    discriminate. }
  destruct (readdir_inr _ _ _ _ Hrd) as (r0 & Hl0 & Hd0 & _).
  destruct (search_sound cwd homedir vaultArg RegExp_test query zs r0 fs (Server.depth_bound fs)
              [] []) as (w & l & Hw & _ & Hext).
  { rewrite app_nil_r. exact Hzs. }
  { rewrite !app_nil_r. intros r Hr. congruence. }
  { intros k. rewrite take_nil, app_nil_r. exact Hd0. }
  rewrite app_nil_r, <- Hroot in Hw.
  rewrite (searchNotes_of_walk cwd homedir vaultArg RegExp_test _ _ _ _ Hw) in Hval.
  unfold Io.value in Hval. cbn [fst] in Hval.
  destruct w as [results'|e results'|]; try discriminate.
  injection Hval as ->.
  destruct Hext as (added & E & Hadded); [discriminate|].
  cbn [results_of app] in E. subst added.
  rewrite Forall_forall in Hadded. apply list_elem_of_In in Hin.
  exists zs, r0. split; [exact Hzs|]. split; [exact Hroot|]. split; [exact Hl0|].
  exact (Hadded _ Hin).
Qed.

(** X12. Every result of [searchNotes] is the path, relative to the vault
    directory, of a node of the tree below the real location of the vault
    directory, whose name ends in [.md] and matches the query; no segment
    of its full path begins with a dot, and the full path passes
    validation. *)
Theorem search_results_are_matching_notes
  (cwd homedir vaultArg : string) (RegExp_test : string -> string -> option bool)
  (query : string) (fs : Fs.files) (results : list string) (res : string) :
  Path.isAbsolute cwd = true ->
  Io.value (Server.searchNotes cwd homedir vaultArg RegExp_test query fs)
  = Io.Ok (Some results) ->
  In res results ->
  exists zs r0 ds name nd,
    Server.vaultDirectory0 cwd homedir vaultArg = Fs.render zs
    /\ Fs.locate cwd fs true (Server.vaultDirectory0 cwd homedir vaultArg) = Fs.Found r0
    /\ Server.vaultDirectory0 cwd homedir vaultArg +:+ res = Fs.render (zs ++ ds ++ [name])
    /\ fs !! (r0 ++ ds ++ [name]) = Some nd
    /\ Js.endsWith name ".md" = true
    /\ Js.startsWith name "." = false
    /\ Server.entry_matches RegExp_test query name = true
    /\ Server.hiddenSegment (Server.vaultDirectory0 cwd homedir vaultArg +:+ res) = false
    /\ (exists v,
           Io.value (Server.validatePath cwd homedir vaultArg
                       (Server.vaultDirectory0 cwd homedir vaultArg +:+ res) fs) = Io.Ok v).
Proof.
  intros Hcwd Hval Hin.
  destruct (searchNotes_listed _ _ _ _ _ _ _ _ Hcwd Hval Hin)
    as (zs & r0 & Hzs & Hroot & Hl0 & Hlisted).
  destruct Hlisted as (ds & n & nd & Hres & Hp & Hmd & Hmatch & [v Hv] & _ & _ & Hk & _).
  exists zs, r0, ds, n, nd. rewrite Hroot, Hres.
  split; [reflexivity|]. split; [exact Hl0|]. split; [reflexivity|]. split; [exact Hk|].
  split; [exact Hmd|]. split.
  - pose proof (validated_not_hidden _ _ _ _ _ _ Hv) as Hh.
    rewrite hiddenSegment_render in Hh.
    + rewrite !dotted_app in Hh. apply orb_false_elim in Hh as [_ Hh].
      apply orb_false_elim in Hh as [_ Hh]. cbn [dotted existsb] in Hh.
      rewrite orb_false_r in Hh. exact Hh.
    + apply Forall_app. split; assumption.
  - split; [exact Hmatch|]. split; [exact (validated_not_hidden _ _ _ _ _ _ Hv)|].
    exists v. rewrite validatePath_value. exact Hv.
Qed.

Lemma search_results_are_matching_notes_witness :
  exists zs r0 ds name nd,
    Server.vaultDirectory0 "/" "/home/u" "/vault" = Fs.render zs
    /\ Fs.locate "/" wildcard_tree true (Server.vaultDirectory0 "/" "/home/u" "/vault")
       = Fs.Found r0
    /\ Server.vaultDirectory0 "/" "/home/u" "/vault" +:+ "/axxxc.md"
       = Fs.render (zs ++ ds ++ [name])
    /\ wildcard_tree !! (r0 ++ ds ++ [name]) = Some nd
    /\ Js.endsWith name ".md" = true
    /\ Js.startsWith name "." = false
    /\ Server.entry_matches Fragment.test "a*c" name = true
    /\ Server.hiddenSegment (Server.vaultDirectory0 "/" "/home/u" "/vault" +:+ "/axxxc.md") = false
    /\ (exists v,
           Io.value (Server.validatePath "/" "/home/u" "/vault"
                       (Server.vaultDirectory0 "/" "/home/u" "/vault" +:+ "/axxxc.md")
                       wildcard_tree) = Io.Ok v).
Proof.
  apply (search_results_are_matching_notes "/" "/home/u" "/vault" Fragment.test "a*c"
           wildcard_tree ["/abc.md"; "/axxxc.md"] "/axxxc.md").
  - reflexivity.
  - vm_compute. reflexivity.
  - right. left. reflexivity.
Defined.








(** ** A vault below a dot directory *)

Section RefusedEntries.
Import Fs Io.
Variables (cwd homedir vaultArg : string).
Variable RegExp_test : string -> string -> option bool.
Local Abbreviation visit := (Server.visit cwd homedir vaultArg RegExp_test).

(** Where no entry passes validation the loop pushes nothing. *)
Lemma visit_all_refused (descend : string -> list string -> M Server.walked)
  (query basePath currentPath : string) (fs : files) (entries : list dirent)
  (results : list string) :
  (forall e, exists err,
      validated cwd homedir vaultArg fs (Path.join [currentPath; name e]) = Throw err) ->
  run (visit descend query basePath currentPath entries results) fs
  = (Ok (Server.Walked results), fs).
Proof.
  intros Hrefused. induction entries as [|entry rest IH]; [reflexivity|].
  cbn [Server.visit]. rewrite run_bind, run_try_catch, run_bind, run_validatePath.
  destruct (Hrefused entry) as [err ->]. rewrite run_ret. cbn [negb]. exact IH.
Qed.

End RefusedEntries.

(** X15. When a segment of the vault directory itself begins with a dot,
    no request gets through: every path joined onto the vault directory is
    refused with an access-denied error before any call, every
    [read_notes] entry and every [write_note] is that error, and
    [search_notes] finds nothing. *)
Theorem hidden_vault_is_unusable
  (cwd homedir vaultArg : string) (RegExp_test : string -> string -> option bool)
  (fs : Fs.files) :
  Path.isAbsolute cwd = true ->
  Server.hiddenSegment (Server.vaultDirectory0 cwd homedir vaultArg) = true ->
  (forall p, exists e,
      AccessDenied e
      /\ Server.validatePath cwd homedir vaultArg
           (Path.join [Server.vaultDirectory0 cwd homedir vaultArg; p]) fs
         = (Io.Throw e, fs, []))
  /\ (forall p, exists e,
         AccessDenied e
         /\ Io.value (Server.read_note cwd homedir vaultArg p fs)
            = Io.Ok (p +:+ ": Error - " +:+ Fs.message e))
  /\ (forall p c flag, exists e,
         AccessDenied e
         /\ run (Server.callTool cwd homedir vaultArg RegExp_test (Server.WriteNote p c flag)) fs
            = (Io.Ok (Some (Server.Response
                              ("Error: Failed to write note: " +:+ Fs.message e) true)), fs))
  /\ (forall query,
         run (Server.callTool cwd homedir vaultArg RegExp_test (Server.SearchNotes query)) fs
         = (Io.Ok (Some (Server.Response "No matches found" false)), fs)
         \/ exists en,
              Fs.readdir cwd fs (Server.vaultDirectory0 cwd homedir vaultArg) = inl en
              /\ run (Server.callTool cwd homedir vaultArg RegExp_test
                        (Server.SearchNotes query)) fs
                 = (Io.Ok (Some (Server.Response
                                   ("Error: " +:+ Fs.message
                                      (Fs.sys_error en "scandir"
                                         (Server.vaultDirectory0 cwd homedir vaultArg)))
                                   true)), fs)).
Proof.
  intros Hcwd Hroot.
  assert (Hv : forall p, exists e,
             AccessDenied e
             /\ Server.validatePath cwd homedir vaultArg
                  (Path.join [Server.vaultDirectory0 cwd homedir vaultArg; p]) fs
                = (Io.Throw e, fs, [])).
  { intros p. destruct (hidden_vault_validatePath cwd homedir vaultArg fs p Hcwd Hroot)
      as (e & He & Hd). eauto. }
  assert (Hval : forall p, exists e,
             AccessDenied e
             /\ validated cwd homedir vaultArg fs
                  (Path.join [Server.vaultDirectory0 cwd homedir vaultArg; p]) = Io.Throw e).
  { intros p. destruct (Hv p) as (e & Hd & He). exists e. split; [exact Hd|].
    rewrite <- validatePath_value, He. reflexivity. }
  split; [exact Hv|]. split; [|split].
  - intros p. destruct (read_note_run cwd homedir vaultArg fs p) as [l Hr].
    rewrite Hr. unfold Io.value. cbn [fst]. unfold read_entry, requested.
    destruct (Hval (if Js.startsWith p "/" then Js.slice1 p else p)) as (e & Hd & ->).
    exists e. split; [exact Hd|reflexivity].
  - intros p c flag. rewrite callTool_write_run. unfold written.
    destruct (Hval p) as (e & Hd & ->). exists e. split; [exact Hd|reflexivity].
  - intros query. rewrite callTool_search_run.
    assert (Hrun : run (Server.searchNotes cwd homedir vaultArg RegExp_test query) fs
                   = run (Io.bind (Server.search cwd homedir vaultArg RegExp_test query
                                     (Server.depth_bound fs)
                                     (Server.vaultDirectory0 cwd homedir vaultArg)
                                     (Server.vaultDirectory0 cwd homedir vaultArg) [])
                            (fun w => match w with
                                      | Server.Walked results => Io.ret (Some results)
                                      | Server.Rejected e _ => Io.throw e
                                      | Server.Unfinished => Io.ret None
                                      end)) fs) by reflexivity.
    rewrite Hrun, run_bind.
    change (Server.depth_bound fs) with (S (Nat.pred (Server.depth_bound fs))).
    rewrite search_run_step.
    destruct (Fs.readdir cwd fs (Server.vaultDirectory0 cwd homedir vaultArg)) as [en|es].
    + right. exists en. split; reflexivity.
    + left. rewrite visit_all_refused; [reflexivity|].
      intros e. destruct (Hval (Fs.name e)) as (err & _ & He). eauto.
Qed.

Lemma hidden_vault_is_unusable_witness :
  (exists e,
      AccessDenied e
      /\ Io.value (Server.read_note "/" "/home/u" "~/.notes" "a.md" sample_tree)
         = Io.Ok ("a.md" +:+ ": Error - " +:+ Fs.message e))
  /\ (run (Server.callTool "/" "/home/u" "~/.notes" no_regexp (Server.SearchNotes "a")) sample_tree
      = (Io.Ok (Some (Server.Response "No matches found" false)), sample_tree)
      \/ exists en,
           Fs.readdir "/" sample_tree (Server.vaultDirectory0 "/" "/home/u" "~/.notes") = inl en
           /\ run (Server.callTool "/" "/home/u" "~/.notes" no_regexp (Server.SearchNotes "a"))
                sample_tree
              = (Io.Ok (Some (Server.Response
                                ("Error: " +:+ Fs.message
                                   (Fs.sys_error en "scandir"
                                      (Server.vaultDirectory0 "/" "/home/u" "~/.notes")))
                                true)), sample_tree)).
Proof.
  destruct (hidden_vault_is_unusable "/" "/home/u" "~/.notes" no_regexp sample_tree)
    as (_ & Hread & _ & Hsearch).
  - reflexivity.
  - reflexivity.
  - split; [exact (Hread "a.md")|exact (Hsearch "a")].
Defined.

(** ** Canonical paths *)



(** ** Leading separators *)

(** X17. [read_notes] treats a path with a leading separator as the path
    without it: the two entries differ in the echoed path only. *)
Theorem read_notes_leading_separator
  (cwd homedir vaultArg : string) (fs : Fs.files) (p : string) :
  Path.isAbsolute cwd = true ->
  exists entry,
    Io.value (Server.read_note cwd homedir vaultArg p fs) = Io.Ok entry
    /\ Io.value (Server.read_note cwd homedir vaultArg ("/" +:+ p) fs) = Io.Ok ("/" +:+ entry).
Proof.
  intros Hcwd.
  destruct (read_note_run cwd homedir vaultArg fs p) as [l Hr].
  destruct (read_note_run cwd homedir vaultArg fs ("/" +:+ p)) as [l' Hr'].
  exists (read_entry cwd homedir vaultArg fs p). rewrite Hr, Hr'. split; [reflexivity|].
  unfold Io.value. cbn [fst]. f_equal. unfold read_entry.
  rewrite (requested_validated cwd homedir vaultArg fs p Hcwd).
  assert (E : requested cwd homedir vaultArg ("/" +:+ p)
              = Path.join [Server.vaultDirectory0 cwd homedir vaultArg; p]).
  { unfold requested. pose proof (cons_absolute p) as H. unfold Path.isAbsolute in H.
    change ("/" +:+ p) with (String "/" p). rewrite H. reflexivity. }
  rewrite E.
  destruct (validated cwd homedir vaultArg fs
              (Path.join [Server.vaultDirectory0 cwd homedir vaultArg; p])) as [v|e].
  - destruct (Fs.readFile cwd fs v); reflexivity.
  - reflexivity.
Qed.

Lemma read_notes_leading_separator_witness :
  exists entry,
    Io.value (Server.read_note "/" "/home/u" "/vault" "a.md" sample_tree) = Io.Ok entry
    /\ Io.value (Server.read_note "/" "/home/u" "/vault" ("/" +:+ "a.md") sample_tree)
       = Io.Ok ("/" +:+ entry).
Proof.
  apply (read_notes_leading_separator "/" "/home/u" "/vault" sample_tree "a.md"). reflexivity.
Defined.

(** ** Reading what the search found *)

Section ReadResults.
Import Fs Io.
Variables (cwd homedir vaultArg : string).
Variable RegExp_test : string -> string -> option bool.
Local Abbreviation root := (Server.vaultDirectory0 cwd homedir vaultArg).




End ReadResults.

Section ReadValidated.
Import Fs Io.
Variables (cwd homedir vaultArg : string).



End ReadValidated.



(** ** A vault directory that does not resolve *)

Section UnresolvedVault.
Import Fs Io.
Variables (cwd homedir vaultArg : string).
Local Abbreviation root := (Server.vaultDirectory0 cwd homedir vaultArg).

(** What is found below a path is found through it. *)
Lemma walk_prefix_found (fs : files) (l : nat) (zs names : list string) :
  Forall proper (zs ++ names) ->
  (exists r, walk fs l true [] (zs ++ names) = Found r) ->
  exists r, walk fs l true [] zs = Found r.
Proof.
  induction names as [|x names IH] using rev_ind; intros Hp [r Hr].
  - rewrite app_nil_r in Hr. eauto.
  - rewrite app_assoc in Hp, Hr. apply Forall_app in Hp as [Hp _]. apply IH; [exact Hp|].
    destruct (walk_parent fs x l [] (zs ++ names)) as (r' & Hr' & _).
    + constructor.
    + eapply Forall_impl; [exact Hp|]. intros y Hy. apply Hy.
    + rewrite Hr. exact I.
    + eauto.
Qed.

Lemma realpath_below (fs : files) (zs names : list string) (en : errno) :
  Forall proper (zs ++ names) ->
  realpath cwd fs (render zs) = inl en ->
  exists en', realpath cwd fs (render (zs ++ names)) = inl en'.
Proof.
  intros Hp Hroot.
  destruct (realpath cwd fs (render (zs ++ names))) as [en'|s] eqn:Hreal; [eauto|].
  exfalso. apply realpath_inr in Hreal as (r & Hr & _).
  rewrite (locate_render _ _ _ _ Hp) in Hr.
  destruct (walk_prefix_found fs MAXSYMLINKS zs names Hp (ex_intro _ r Hr)) as [r' Hr'].
  pose proof Hp as Hzs. apply Forall_app in Hzs as [Hzs _].
  rewrite <- (locate_render cwd _ _ _ Hzs) in Hr'.
  rewrite (realpath_found _ _ _ _ Hr') in Hroot. discriminate.
Qed.

(** Joining names onto a canonical path. *)
Lemma join_names (zs names : list string) :
  Forall proper (zs ++ names) -> names <> [] ->
  Path.join [render zs; Js.join "/" names] = render (zs ++ names).
Proof.
  intros Hp Hne.
  destruct (absolute_cons _ (render_absolute zs)) as [t Ht].
  destruct names as [|x names]; [congruence|]. clear Hne.
  assert (Hx : Js.join "/" (x :: names) <> "").
  { pose proof Hp as Hx. apply Forall_app in Hx as [_ Hx]. apply Forall_cons in Hx as [Hx _].
    destruct (join_first x names) as [u ->]. destruct x; [destruct Hx as [[_ [Hx _]] _]; congruence|].
    discriminate. }
  assert (Hjoin : Path.join [render zs; Js.join "/" (x :: names)]
                  = Path.normalize (render zs +:+ "/" +:+ Js.join "/" (x :: names))).
  { unfold Path.join. cbn [List.filter]. rewrite Ht. cbn [String.eqb negb].
    apply String.eqb_neq in Hx. rewrite Hx. reflexivity. }
  rewrite Hjoin, <- (normalize_render _ Hp).
  destruct zs as [|z zs].
  - change (render []) with "/". cbn [app].
    exact (normalize_skip_segment "" "" (Js.join "/" (x :: names)) (or_introl eq_refl)).
  - f_equal. change ((z :: zs) ++ x :: names) with (z :: (zs ++ x :: names)).
    rewrite !render_nonempty. change (z :: zs ++ x :: names) with ((z :: zs) ++ x :: names).
    rewrite join_app by discriminate. rewrite !append_assoc. reflexivity.
Qed.

(** Below a vault directory that does not resolve nothing validates. *)
Lemma validated_unresolved (fs : files) (zs names : list string) (en : errno) :
  root = render zs ->
  realpath cwd fs root = inl en ->
  Forall proper (zs ++ names) -> names <> [] ->
  dotted (zs ++ names) = false ->
  validated cwd homedir vaultArg fs (render (zs ++ names))
  = Throw (parentMissingError (render (zs ++ names))).
Proof.
  intros Hroot Hreal Hp Hne Hdot. rewrite Hroot in Hreal.
  unfold validated, parentCheck.
  rewrite (hiddenSegment_render _ Hp), Hdot, (absoluteOf_canonical cwd homedir _ Hp).
  rewrite (below_root_inside cwd homedir vaultArg zs names Hp Hroot).
  destruct (realpath_below fs zs names en Hp Hreal) as [en1 ->].
  destruct names as [|x names _] using rev_ind; [congruence|].
  rewrite app_assoc in Hp |- *. rewrite (dirname_render _ _ Hp).
  apply Forall_app in Hp as [Hp _].
  destruct (realpath_below fs zs names en Hp Hreal) as [en2 ->]. reflexivity.
Qed.

End UnresolvedVault.

(** X19. The vault directory is kept and used in lower case.  When that
    path does not resolve (on a file system that tells case apart, a vault
    whose path has a capital letter), no note below it can be read or
    written, the reply being "Parent directory does not exist", and every
    search is answered with the error of listing the vault directory. *)
Theorem unresolved_vault_cannot_be_used
  (cwd homedir vaultArg : string) (RegExp_test : string -> string -> option bool)
  (fs : Fs.files) (zs names : list string) (en : Fs.errno) :
  Path.isAbsolute cwd = true ->
  Server.vaultDirectory0 cwd homedir vaultArg = Fs.render zs ->
  Fs.realpath cwd fs (Server.vaultDirectory0 cwd homedir vaultArg) = inl en ->
  Forall proper (zs ++ names) -> names <> [] ->
  dotted (zs ++ names) = false ->
  Io.value (Server.read_note cwd homedir vaultArg (Js.join "/" names) fs)
  = Io.Ok (Js.join "/" names +:+ ": Error - Parent directory does not exist: "
           +:+ Path.dirname (Fs.render (zs ++ names)))
  /\ (forall c flag,
         run (Server.callTool cwd homedir vaultArg RegExp_test
                (Server.WriteNote (Js.join "/" names) c flag)) fs
         = (Io.Ok (Some (Server.Response
                           ("Error: Failed to write note: Parent directory does not exist: "
                            +:+ Path.dirname (Fs.render (zs ++ names))) true)), fs))
  /\ (forall query, exists en',
         Fs.readdir cwd fs (Server.vaultDirectory0 cwd homedir vaultArg) = inl en'
         /\ run (Server.callTool cwd homedir vaultArg RegExp_test (Server.SearchNotes query)) fs
            = (Io.Ok (Some (Server.Response
                              ("Error: " +:+ Fs.message
                                 (Fs.sys_error en' "scandir"
                                    (Server.vaultDirectory0 cwd homedir vaultArg)))
                              true)), fs)).
Proof.
  intros Hcwd Hroot Hreal Hp Hne Hdot.
  pose proof (validated_unresolved cwd homedir vaultArg fs zs names en Hroot Hreal Hp Hne Hdot)
    as Hv.
  rewrite <- (join_names zs names Hp Hne), <- Hroot in Hv.
  split; [|split].
  - destruct (read_note_run cwd homedir vaultArg fs (Js.join "/" names)) as [l Hr].
    rewrite Hr. unfold Io.value. cbn [fst]. f_equal. unfold read_entry.
    rewrite (requested_validated cwd homedir vaultArg fs _ Hcwd), Hv.
    rewrite Hroot, (join_names zs names Hp Hne). reflexivity.
  - intros c flag. rewrite callTool_write_run. unfold written. rewrite Hv.
    rewrite Hroot, (join_names zs names Hp Hne). reflexivity.
  - intros query.
    assert (Hrd : exists en', Fs.readdir cwd fs (Server.vaultDirectory0 cwd homedir vaultArg)
                              = inl en').
    { destruct (Fs.readdir cwd fs (Server.vaultDirectory0 cwd homedir vaultArg)) as [en'|es] eqn:Hrd;
        [eauto|].
      destruct (readdir_inr _ _ _ _ Hrd) as (r & Hl & _ & _).
      rewrite (realpath_found _ _ _ _ Hl) in Hreal. discriminate. }
    destruct Hrd as [en' Hrd]. exists en'. split; [exact Hrd|].
    rewrite callTool_search_run.
    assert (Hrun : run (Server.searchNotes cwd homedir vaultArg RegExp_test query) fs
                   = run (Io.bind (Server.search cwd homedir vaultArg RegExp_test query
                                     (Server.depth_bound fs)
                                     (Server.vaultDirectory0 cwd homedir vaultArg)
                                     (Server.vaultDirectory0 cwd homedir vaultArg) [])
                            (fun w => match w with
                                      | Server.Walked results => Io.ret (Some results)
                                      | Server.Rejected e _ => Io.throw e
                                      | Server.Unfinished => Io.ret None
                                      end)) fs) by reflexivity.
    rewrite Hrun, run_bind.
    change (Server.depth_bound fs) with (S (Nat.pred (Server.depth_bound fs))).
    rewrite search_run_step, Hrd. reflexivity.
Qed.

Lemma unresolved_vault_cannot_be_used_witness :
  Server.vaultDirectory0 "/" "/home/u" "/Vault" = "/vault"
  /\ Io.value (Server.read_note "/" "/home/u" "/Vault" (Js.join "/" ["a.md"]) capital_tree)
     = Io.Ok (Js.join "/" ["a.md"] +:+ ": Error - Parent directory does not exist: "
              +:+ Path.dirname (Fs.render (["vault"] ++ ["a.md"])))
  /\ exists en',
       Fs.readdir "/" capital_tree (Server.vaultDirectory0 "/" "/home/u" "/Vault") = inl en'
       /\ run (Server.callTool "/" "/home/u" "/Vault" no_regexp (Server.SearchNotes "a"))
            capital_tree
          = (Io.Ok (Some (Server.Response
                            ("Error: " +:+ Fs.message
                               (Fs.sys_error en' "scandir"
                                  (Server.vaultDirectory0 "/" "/home/u" "/Vault")))
                            true)), capital_tree).
Proof.
  destruct (unresolved_vault_cannot_be_used "/" "/home/u" "/Vault" no_regexp capital_tree
              ["vault"] ["a.md"] Fs.ENOENT) as (Hread & _ & Hsearch).
  - reflexivity.
  - reflexivity.
  - vm_compute. reflexivity.
  - repeat constructor; discriminate.
  - discriminate.
  - reflexivity.
  - split; [reflexivity|]. split; [exact Hread|exact (Hsearch "a")].
Defined.


(** ** Notes that are there, and notes just written *)

Section PositiveFacts.
Import Fs Io.
Variables (cwd homedir vaultArg : string).
Local Abbreviation root := (Server.vaultDirectory0 cwd homedir vaultArg).

Lemma locate_free_name (fs : files) (f : bool) (d : list string) (n : string) :
  dirpath fs d -> proper n -> fs !! (d ++ [n]) = None ->
  locate cwd fs f (render (d ++ [n])) = Absent (d ++ [n]).
Proof.
  intros Hd Hn Hk.
  assert (Hp : Forall proper (d ++ [n])).
  { apply Forall_app. split; [apply (dirpath_proper _ _ Hd)|constructor; [exact Hn|constructor]]. }
  rewrite (locate_render _ _ _ _ Hp), (walk_along _ _ _ _ _ Hd), walk_unfold, Hk.
  destruct Hn as [_ Hn]. apply String.eqb_neq in Hn. rewrite Hn. reflexivity.
Qed.


(** What validation answers for a name in a directory of the vault that is
    free or holds a regular file: the path itself. *)
Lemma validated_note (fs : files) (zs ds : list string) (n : string) :
  root = render zs ->
  dirpath fs (zs ++ ds) -> proper n ->
  dotted (zs ++ ds ++ [n]) = false ->
  fs !! (zs ++ ds ++ [n]) = None \/ (exists c0, fs !! (zs ++ ds ++ [n]) = Some (File c0)) ->
  validated cwd homedir vaultArg fs (render (zs ++ ds ++ [n])) = Ok (render (zs ++ ds ++ [n])).
Proof.
  intros Hroot Hd Hn Hdot Hk.
  assert (Hp : Forall proper (zs ++ ds ++ [n])).
  { rewrite app_assoc. apply Forall_app.
    split; [apply (dirpath_proper _ _ Hd)|constructor; [exact Hn|constructor]]. }
  pose proof (below_root_inside cwd homedir vaultArg zs (ds ++ [n]) Hp Hroot) as Hin.
  destruct Hk as [Hk|[c0 Hk]].
  - unfold validated, parentCheck.
    rewrite (hiddenSegment_render _ Hp), Hdot, (absoluteOf_canonical cwd homedir _ Hp), Hin.
    rewrite app_assoc in Hk, Hp |- *.
    assert (Hreal : exists e, realpath cwd fs (render ((zs ++ ds) ++ [n])) = inl e).
    { unfold realpath. rewrite (locate_free_name fs true _ _ Hd Hn Hk). eauto. }
    destruct Hreal as [e Hreal]. rewrite Hreal, (dirname_render _ _ Hp).
    rewrite (realpath_found _ _ _ _ (locate_render_settled cwd fs true _ (or_introl Hd))).
    rewrite <- (app_nil_r (zs ++ ds)), <- app_assoc.
    rewrite (below_root_inside cwd homedir vaultArg zs (ds ++ []));
      [reflexivity|rewrite app_nil_r; apply (dirpath_proper _ _ Hd)|exact Hroot].
  - apply validated_canonical; [|exact Hdot|exact Hin].
    right. exists (zs ++ ds), n, c0. rewrite <- app_assoc. auto.
Qed.

Lemma access_absent (fs : files) (v : string) (r : list string) :
  locate cwd fs true v = Absent r -> exists e, access cwd fs v = inl e.
Proof. unfold access. intros ->. eauto. Qed.


Lemma writeFile_refused (fs : files) (v c : string) (r : list string) (e : errno) :
  locate cwd fs true v = Absent r -> refused v r = Some e -> writeFile cwd fs v c = inl e.
Proof. unfold writeFile. intros -> ->. reflexivity. Qed.

(** What [write_note] does for a free name that cannot be a file name. *)
Lemma written_refused (fs : files) (zs ds : list string) (n c : string) (flag : bool)
  (e : errno) :
  Path.isAbsolute cwd = true ->
  root = render zs ->
  dirpath fs (zs ++ ds) -> proper n ->
  dotted (zs ++ ds ++ [n]) = false ->
  fs !! (zs ++ ds ++ [n]) = None ->
  refused (render (zs ++ ds ++ [n])) (zs ++ ds ++ [n]) = Some e ->
  written cwd homedir vaultArg fs (Js.join "/" (ds ++ [n])) c flag
  = (Throw (failedToWrite
              (if flag then sys_error e "open" (render (zs ++ ds ++ [n]))
               else Error ("File does not exist: " +:+ Js.join "/" (ds ++ [n])))), fs).
Proof.
  intros Hcwd Hroot Hd Hn Hdot Hk Href.
  assert (Hp : Forall proper (zs ++ ds ++ [n])).
  { rewrite app_assoc. apply Forall_app.
    split; [apply (dirpath_proper _ _ Hd)|constructor; [exact Hn|constructor]]. }
  assert (Hv : validated cwd homedir vaultArg fs (render (zs ++ ds ++ [n]))
               = Ok (render (zs ++ ds ++ [n]))).
  { apply validated_note; auto. }
  unfold written.
  rewrite Hroot, (join_names zs (ds ++ [n]) Hp) by (destruct ds; discriminate).
  rewrite Hv.
  assert (Hl : locate cwd fs true (render (zs ++ ds ++ [n])) = Absent (zs ++ ds ++ [n])).
  { rewrite app_assoc in Hk |- *. apply locate_free_name; assumption. }
  rewrite (validated_parent_dir cwd homedir vaultArg fs _ _ Hcwd Hv); [|rewrite Hl; exact I].
  destruct (access_absent _ _ _ Hl) as [e0 ->].
  destruct flag; [|reflexivity].
  unfold stored. rewrite (writeFile_refused _ _ c _ e Hl Href). reflexivity.
Qed.


End PositiveFacts.





(** ** Home expansion *)

(** X22. The paths the handlers pass to [validatePath] are joined onto the
    vault directory, hence absolute: [expandHome] leaves them as they are,
    and a note path that begins with [~] is not taken to the home
    directory. *)
Theorem note_paths_are_never_home_expanded
  (cwd homedir vaultArg : string) (p : string) :
  Path.isAbsolute cwd = true ->
  Server.expandHome homedir (Path.join [Server.vaultDirectory0 cwd homedir vaultArg; p])
  = Path.join [Server.vaultDirectory0 cwd homedir vaultArg; p]
  /\ Server.expandHome homedir (requested cwd homedir vaultArg p)
     = requested cwd homedir vaultArg p
  /\ Server.absoluteOf cwd homedir (Path.join [Server.vaultDirectory0 cwd homedir vaultArg; p])
     = Path.resolve cwd [Path.join [Server.vaultDirectory0 cwd homedir vaultArg; p]].
Proof.
  intros Hcwd. destruct (root_absolute cwd homedir vaultArg Hcwd) as [t Ht].
  assert (H : forall q, Server.expandHome homedir
                          (Path.join [Server.vaultDirectory0 cwd homedir vaultArg; q])
                        = Path.join [Server.vaultDirectory0 cwd homedir vaultArg; q]).
  { intros q. rewrite Ht. destruct (join_absolute t q) as [u ->]. reflexivity. }
  split; [apply H|]. split; [apply H|].
  rewrite Ht. destruct (join_absolute t p) as [u ->]. apply absoluteOf_absolute.
Qed.

Lemma note_paths_are_never_home_expanded_witness :
  Server.expandHome "/home/u" (Path.join [Server.vaultDirectory0 "/" "/home/u" "/vault"; "~/x.md"])
  = Path.join [Server.vaultDirectory0 "/" "/home/u" "/vault"; "~/x.md"]
  /\ Server.expandHome "/home/u" (requested "/" "/home/u" "/vault" "~/x.md")
     = requested "/" "/home/u" "/vault" "~/x.md"
  /\ Server.absoluteOf "/" "/home/u"
       (Path.join [Server.vaultDirectory0 "/" "/home/u" "/vault"; "~/x.md"])
     = Path.resolve "/" [Path.join [Server.vaultDirectory0 "/" "/home/u" "/vault"; "~/x.md"]].
Proof.
  apply (note_paths_are_never_home_expanded "/" "/home/u" "/vault" "~/x.md"). reflexivity.
Defined.

(** ** Directories reached through links *)

(** X23. [searchNotes] goes down into directories only, never through a
    symbolic link: for every result, each directory on the way from the
    real location of the vault directory down to the result is a directory
    of the tree. *)
Theorem search_does_not_follow_directory_links
  (cwd homedir vaultArg : string) (RegExp_test : string -> string -> option bool)
  (query : string) (fs : Fs.files) (results : list string) (res : string) :
  Path.isAbsolute cwd = true ->
  Io.value (Server.searchNotes cwd homedir vaultArg RegExp_test query fs)
  = Io.Ok (Some results) ->
  In res results ->
  exists zs r0 ds name,
    Server.vaultDirectory0 cwd homedir vaultArg = Fs.render zs
    /\ Fs.locate cwd fs true (Server.vaultDirectory0 cwd homedir vaultArg) = Fs.Found r0
    /\ Server.vaultDirectory0 cwd homedir vaultArg +:+ res = Fs.render (zs ++ ds ++ [name])
    /\ (forall k, Fs.is_dir fs (r0 ++ take k ds) = true)
    /\ (forall k target,
           k < length ds -> fs !! (r0 ++ take (S k) ds) <> Some (Fs.Symlink target)).
Proof.
  intros Hcwd Hval Hin.
  destruct (searchNotes_listed _ _ _ _ _ _ _ _ Hcwd Hval Hin)
    as (zs & r0 & Hzs & Hroot & Hl0 & Hlisted).
  destruct Hlisted as (ds & n & nd & Hres & _ & _ & _ & _ & _ & _ & _ & Hreal).
  exists zs, r0, ds, n. rewrite Hroot.
  split; [reflexivity|]. split; [exact Hl0|]. split; [exact Hres|]. split; [exact Hreal|].
  intros k target Hlt Hk. specialize (Hreal (S k)). unfold Fs.is_dir in Hreal.
  rewrite Hk in Hreal. destruct (r0 ++ take (S k) ds) eqn:E; [|discriminate].
  apply app_eq_nil in E as [_ E]. destruct ds; [cbn [length] in Hlt; lia|discriminate].
Qed.

Lemma search_does_not_follow_directory_links_witness :
  exists zs r0 ds name,
    Server.vaultDirectory0 "/" "/home/u" "/vault" = Fs.render zs
    /\ Fs.locate "/" sample_tree true (Server.vaultDirectory0 "/" "/home/u" "/vault")
       = Fs.Found r0
    /\ Server.vaultDirectory0 "/" "/home/u" "/vault" +:+ "/sub/b.md"
       = Fs.render (zs ++ ds ++ [name])
    /\ (forall k, Fs.is_dir sample_tree (r0 ++ take k ds) = true)
    /\ (forall k target,
           k < length ds -> sample_tree !! (r0 ++ take (S k) ds) <> Some (Fs.Symlink target)).
Proof.
  apply (search_does_not_follow_directory_links "/" "/home/u" "/vault" no_regexp ""
           sample_tree
           (match Io.value (Server.searchNotes "/" "/home/u" "/vault" no_regexp "" sample_tree)
            with Io.Ok (Some results) => results | _ => [] end) "/sub/b.md").
  - reflexivity.
  - vm_compute. reflexivity.
  - vm_compute. auto.
Defined.

(** ** Names that cannot be file names *)

(** X24. A note is not created under a name that cannot be a file name:
    for a free name in a directory below the vault directory whose path
    holds a NUL byte, has a name of more than [NAME_MAX] bytes or has
    [PATH_MAX] bytes or more, [write_note] answers with an error reply and
    the tree stays as it was.  For a name that is too long, when creation
    is allowed, the error is that of the write: "ENAMETOOLONG: name too
    long, open" with the path. *)
Theorem unnameable_note_is_refused
  (cwd homedir vaultArg : string) (RegExp_test : string -> string -> option bool)
  (fs : Fs.files) (zs ds : list string) (name c : string) (flag : option bool) (e : Fs.errno) :
  Path.isAbsolute cwd = true ->
  Server.vaultDirectory0 cwd homedir vaultArg = Fs.render zs ->
  dirpath fs (zs ++ ds) -> proper name ->
  String.length (Fs.render (zs ++ ds)) < Fs.PATH_MAX ->
  dotted (zs ++ ds ++ [name]) = false ->
  fs !! (zs ++ ds ++ [name]) = None ->
  Fs.refused (Fs.render (zs ++ ds ++ [name])) (zs ++ ds ++ [name]) = Some e ->
  (e = Fs.ERR_INVALID_ARG_VALUE \/ e = Fs.ENAMETOOLONG)
  /\ (exists error,
         run (Server.callTool cwd homedir vaultArg RegExp_test
                (Server.WriteNote (Js.join "/" (ds ++ [name])) c flag)) fs
         = (Io.Ok (Some (Server.Response ("Error: Failed to write note: " +:+ Fs.message error)
                           true)), fs)
         /\ (flag <> Some false -> e = Fs.ENAMETOOLONG ->
             Fs.message error
             = "ENAMETOOLONG: name too long, open '" +:+ Fs.render (zs ++ ds ++ [name]) +:+ "'")).
Proof.
  intros Hcwd Hroot Hd Hn _ Hdot Hk Href. split.
  - unfold Fs.refused in Href.
    destruct (negb (Js.free_of (ascii_of_nat 0) (Fs.render (zs ++ ds ++ [name]))));
      [injection Href as <-; left; reflexivity|].
    destruct (_ || _); [injection Href as <-; right; reflexivity|discriminate].
  - rewrite callTool_write_run.
    rewrite (written_refused cwd homedir vaultArg fs zs ds name c (default true flag) e
               Hcwd Hroot Hd Hn Hdot Hk Href).
    eexists. split; [reflexivity|].
    intros H ->. destruct flag as [[|]|]; [reflexivity|congruence|reflexivity].
Qed.

Lemma unnameable_note_is_refused_witness :
  exists error,
    run (Server.callTool "/" "/home/u" "/vault" no_regexp
           (Server.WriteNote (Js.join "/" (["sub"] ++ [long_name])) "C" None)) sample_tree
    = (Io.Ok (Some (Server.Response ("Error: Failed to write note: " +:+ Fs.message error) true)),
       sample_tree)
    /\ Fs.message error
       = "ENAMETOOLONG: name too long, open '"
         +:+ Fs.render (["vault"] ++ ["sub"] ++ [long_name]) +:+ "'".
Proof.
  destruct (unnameable_note_is_refused "/" "/home/u" "/vault" no_regexp sample_tree ["vault"]
              ["sub"] long_name "C" None Fs.ENAMETOOLONG) as (_ & error & Hrun & Htext).
  - reflexivity.
  - reflexivity.
  - apply (dirpath_snoc sample_tree ["vault"] "sub").
    + apply (dirpath_snoc sample_tree [] "vault").
      * constructor.
      * repeat split; (reflexivity || discriminate).
      * vm_compute. reflexivity.
    + repeat split; (reflexivity || discriminate).
    + vm_compute. reflexivity.
  - repeat split; (vm_compute; reflexivity) || (vm_compute; discriminate).
  - vm_compute. lia.
  - vm_compute. reflexivity.
  - vm_compute. reflexivity.
  - vm_compute. reflexivity.
  - exists error. split; [exact Hrun|]. apply Htext; [discriminate|reflexivity].
Defined.
